(** * The text-generation pipeline of [max.pipelines.pipeline]

    A shallow embedding of [TextGenerationPipeline] (constructor,
    [calculate_num_steps], [prepare_batch], [sample_logits], [next_token],
    [release]) and of [upper_bounded_default], with the properties its
    specification states about them and further properties of the code.

    Python integers are [Z], dictionaries are [gmap], sets are [gset].
    The logger, the cache manager and the order of device operations are
    state that the methods thread through: they live in a [World], and every
    method is a computation in the monad [M] that keeps the world when an
    exception is raised (a Python exception does not undo earlier effects).
    The contexts of a batch are distinct objects; a method that mutates them
    returns the new batch. *)

From stdpp Require Import gmap strings list fin_maps.
From Stdlib Require Import ZArith Lia.

Local Open Scope Z_scope.
Set Warnings "-clear-no-such-hyp".

(** ** Exceptions *)

(** The f-string messages of the [ValueError]s, by the values they
    interpolate. *)
Inductive ValueErrorMsg :=
| DefaultExceedsUpperBound (default upper_bound : Z)
| RequestLengthExceedsMax (cache_seq_id current_length max_seq_len : Z)
| SchemaButNoConstrainedDecoding
| QuantizationEncodingNone.

Inductive PyError :=
| ValueError (msg : ValueErrorMsg)
| AssertionError
| AttributeError
| KeyError
| IndexError
| NotImplementedError
| RuntimeError.

Inductive result (A : Type) :=
| Ok (a : A)
| Raise (e : PyError).
Arguments Ok {A} a.
Arguments Raise {A} e.

Definition rbind {A B} (r : result A) (k : A -> result B) : result B :=
  match r with
  | Ok a => k a
  | Raise e => Raise e
  end.

Definition is_ok {A} (r : result A) : bool :=
  match r with Ok _ => true | Raise _ => false end.

(** [d[k]] and [l[i]]: a missing key or index raises. *)
Definition getitem {K : Type} `{Countable K} {V} (d : gmap K V) (k : K) : result V :=
  match d !! k with
  | Some v => Ok v
  | None => Raise KeyError
  end.

Definition index {A} (l : list A) (i : nat) : result A :=
  match l !! i with
  | Some v => Ok v
  | None => Raise IndexError
  end.

(** ** [upper_bounded_default] *)

Definition upper_bounded_default (upper_bound : Z) (default : option Z) : result Z :=
  match default with
  | None => Ok upper_bound
  | Some d =>
      if d >? upper_bound
      then Raise (ValueError (DefaultExceedsUpperBound d upper_bound))
      else Ok d
  end.

(** ** Values the pipeline passes around *)

(** A grammar matcher of the grammar engine, by the two methods the pipeline
    calls on it: [find_jump_forward_string()] and
    [fill_next_token_bitmask(bitmask, index)] (which rewrites one row of
    32-bit words). *)
Record GrammarMatcher := mkMatcher {
  find_jump_forward_string : string;
  fill_next_token_bitmask : list Z -> list Z;
}.

(** Modelled from the spec: the statuses of [TextGenerationStatus]
    ([max.pipelines.interfaces] is not among the sources). The spec's states
    are ACTIVE and the two terminal ones; [is_done] holds of the terminal
    ones. *)
Inductive TextGenerationStatus := ACTIVE | END_OF_SEQUENCE | MAXIMUM_LENGTH.

Definition is_done (s : TextGenerationStatus) : bool :=
  match s with ACTIVE => false | _ => true end.

#[global] Instance TextGenerationStatus_eq_dec : EqDecision TextGenerationStatus.
Proof. solve_decision. Defined.

(** The bitmask variable of [prepare_batch] and [next_token]: the packed
    int32 tensor that preparation allocates, or the boolean device tensor
    that the first decode step replaces it with. *)
Inductive Bitmask :=
| PackedMask (rows : list (list Z))
| DeviceMask (rows : list (list bool)).

(** [xgr.get_bitmask_shape(batch_size, vocab_size)]: one row per request,
    one int32 word per 32 vocabulary entries. *)
Definition get_bitmask_shape (batch_size vocab_size : nat) : nat * nat :=
  (batch_size, Nat.div (vocab_size + 31) 32).

(** [torch.full(shape, v)] *)
Definition torch_full (shape : nat * nat) (v : Z) : list (list Z) :=
  replicate (fst shape) (replicate (snd shape) v).

(** The unpacking of the first decode step:
    [(bitmask.unsqueeze(-1) & bits) != 0], reshaped to one row per request
    and cut to the vocabulary. Bit [j] of word [w] is entry [32 * w + j]. *)
Definition unpack_word (w : Z) : list bool :=
  map (fun j => Z.testbit w (Z.of_nat j)) (seq 0 32).

Definition unpack_row (vocab_size : nat) (row : list Z) : list bool :=
  take vocab_size (concat (map unpack_word row)).

(** ** The world: logger, cache manager, order of operations *)

Inductive Warning :=
| EosConfigMismatchUsingProvided (config_eos provided : Z)
| EosNeitherIntNorList
| SchemaCannotBeCompiled (schema : string)
| UnableToComputeLogProbabilities.

(** What a method logs or calls, with the arguments that matter here.
    [Sample] is a call of the sampler with the generated tokens on the
    device; [ToNumpy] is the copy of the generated tokens to the host;
    [ComputeLogProbabilities] is a call of the model's hook, which is given
    the inputs, the outputs and the sampled tokens of the step (the Llama
    model reads these on the host), not the generated tokens. *)
Inductive Event :=
| Warn (w : Warning)
| CompileJsonSchema (schema : string)
| ExternalClaim (ids : list Z)
| Fetch (pending : gmap Z (list Z)) (num_steps : Z)
| Execute
| Sample (bitmask : option (list (list bool)))
| ComputeLogProbabilities
| IncrementCacheLengths
| PrepareNextTokenInputs
| ToNumpy
| Step (new_tokens : gmap Z (list Z))
| Release (seq_id : Z).

#[global] Instance Warning_eq_dec : EqDecision Warning.
Proof. solve_decision. Defined.

#[global] Instance Event_eq_dec : EqDecision Event.
Proof. solve_decision. Defined.

(** [slots]: the claimed cache slots with their valid lengths;
    [trace]: what was logged and called, oldest first. *)
Record World := mkWorld {
  slots : gmap Z nat;
  trace : list Event;
}.

Definition M (A : Type) : Type := World -> World * result A.

Definition ret {A} (a : A) : M A := fun w => (w, Ok a).

Definition raise {A} (e : PyError) : M A := fun w => (w, Raise e).

Definition bind {A B} (m : M A) (k : A -> M B) : M B :=
  fun w =>
    match m w with
    | (w', Ok a) => k a w'
    | (w', Raise e) => (w', Raise e)
    end.

Definition lift {A} (r : result A) : M A := fun w => (w, r).

Definition emit (e : Event) : M unit :=
  fun w => (mkWorld (slots w) (trace w ++ [e]), Ok tt).

Definition get_slots : M (gmap Z nat) := fun w => (w, Ok (slots w)).

Definition put_slots (s : gmap Z nat) : M unit :=
  fun w => (mkWorld s (trace w), Ok tt).

Notation "x <- m ;; k" := (bind m (fun x => k))
  (at level 100, m at next level, right associativity,
   format "'[v' x  <-  m  ;;  '/' k ']'").
Notation "m ;;; k" := (bind m (fun _ => k))
  (at level 100, right associativity).

Section Pipeline.

(** Tensors and records whose contents the pipeline never inspects. *)
Context {Logits Payload KVCacheInputs LogProbabilities : Type}.

(** What the unpacking operations of the decode loop make of a bitmask that
    is already a device tensor (the second step on): the tensor library is
    outside the sources. *)
Variable unpack_device_tensor :
  nat -> nat -> list (list bool) -> result (list (list bool)).

(** ** The request context *)

(** Modelled from the spec: the request context ([max.pipelines.context] is
    not among the sources). It has a cache sequence id, a token history, the
    pending (unconsumed) tokens at the end of the history, a maximum length,
    the log-probability request, the schema and its compiled matcher, and
    the queue of completion tokens not yet returned. *)
Record InputContext := mkContext {
  cache_seq_id : Z;
  tokens : list Z;
  start_idx : nat;
  max_length : option Z;
  log_probabilities : Z;
  log_probabilities_echo : bool;
  json_schema : option string;
  matcher : option GrammarMatcher;
  completion : list (Z * option LogProbabilities);
}.

(** Modelled from the spec: [next_tokens], the pending tokens, is the
    history from [start_idx] on. *)
Definition next_tokens (c : InputContext) : list Z :=
  drop (start_idx c) (tokens c).

(** Modelled from the spec: [current_length], the current total length. *)
Definition current_length (c : InputContext) : Z :=
  Z.of_nat (length (tokens c)).

(** Modelled from the spec: [active_length], the count of unconsumed new
    tokens. *)
Definition active_length (c : InputContext) : Z :=
  Z.of_nat (length (next_tokens c)).

(** Modelled from the spec: [set_matcher] attaches the compiled matcher. *)
Definition set_matcher (m : GrammarMatcher) (c : InputContext) : InputContext :=
  mkContext (cache_seq_id c) (tokens c) (start_idx c) (max_length c)
    (log_probabilities c) (log_probabilities_echo c) (json_schema c)
    (Some m) (completion c).

(** [context.json_schema = v] *)
Definition set_json_schema (v : option string) (c : InputContext) : InputContext :=
  mkContext (cache_seq_id c) (tokens c) (start_idx c) (max_length c)
    (log_probabilities c) (log_probabilities_echo c) v
    (matcher c) (completion c).

(** Modelled from the spec: [jump_ahead], a forced token joins the pending
    tokens. *)
Definition jump_ahead (new_token : Z) (c : InputContext) : InputContext :=
  mkContext (cache_seq_id c) (tokens c ++ [new_token]) (start_idx c)
    (max_length c) (log_probabilities c) (log_probabilities_echo c)
    (json_schema c) (matcher c) (completion c).

(** Modelled from the spec: [bump_token_indices(start_idx=k)], the token
    index bookkeeping advances by [k]. *)
Definition bump_token_indices (k : Z) (c : InputContext) : InputContext :=
  mkContext (cache_seq_id c) (tokens c) (start_idx c + Z.to_nat k)%nat
    (max_length c) (log_probabilities c) (log_probabilities_echo c)
    (json_schema c) (matcher c) (completion c).

(** Modelled from the spec: [update], the token is written to the history
    and queued for the response; what was pending is consumed, the new token
    is pending. *)
Definition update (new_token : Z) (log_probs : option LogProbabilities)
    (is_eos : bool) (c : InputContext) : InputContext :=
  mkContext (cache_seq_id c) (tokens c ++ [new_token]) (length (tokens c))
    (max_length c) (log_probabilities c) (log_probabilities_echo c)
    (json_schema c) (matcher c) (completion c ++ [(new_token, log_probs)]).

(** Modelled from the spec: [outstanding_completion_tokens], the queue of
    completion tokens is drained. *)
Definition outstanding_completion_tokens (c : InputContext)
    : list (Z * option LogProbabilities) * InputContext :=
  (completion c,
   mkContext (cache_seq_id c) (tokens c) (start_idx c) (max_length c)
     (log_probabilities c) (log_probabilities_echo c) (json_schema c)
     (matcher c) []).

(** ** Model inputs and outputs *)

(** The two shapes of [ModelInputs.kv_cache_inputs]. *)
Inductive KVCacheInputsT :=
| KVCacheInputsSequence (kv_cache_inputs : list KVCacheInputs)
| KVCacheInputsSingle (kv_cache_input : KVCacheInputs).

Record ModelInputs := mkModelInputs {
  payload : Payload;
  kv_cache_inputs_of : option KVCacheInputsT;
}.

Record ModelOutputs := mkModelOutputs {
  next_token_logits : option Logits;
  logits : option Logits;
}.

(** ** The collaborators of the pipeline *)

(** The tokenizer: [len(tokenizer)] and [encode]. *)
Record Tokenizer := mkTokenizer {
  tokenizer_len : nat;
  encode : string -> list Z;
}.

(** Modelled from the spec: the Cache Slot Manager ([max.pipelines.kv_cache]
    is not among the sources). A slot is owned from claim to release; fetch,
    increment and step refer to claimed slots and leave ownership alone.
    What the spec leaves open is a field here: how long a prefix of a
    request's pending tokens is resident, and the handles that fetch and
    increment return. *)
Record KVCacheManager := mkKVCacheManager {
  cached_prefix : gmap Z nat -> Z -> list Z -> nat;
  fetch_inputs : gmap Z nat -> gmap Z (list Z) -> Z -> list KVCacheInputs;
  increment_inputs : list KVCacheInputs -> ModelInputs -> list KVCacheInputs;
}.

(** Modelled from the spec: [contains], whether the slot is claimed. *)
Definition contains (seq_id : Z) : M bool :=
  s <- get_slots ;; ret (bool_decide (seq_id ∈ dom s)).

(** Modelled from the spec: [external_claim] claims the slots, empty; the
    spec has [contains] prevent double claims, so claiming a slot that is
    owned is refused. *)
Fixpoint claim_slots (ids : list Z) (s : gmap Z nat) : result (gmap Z nat) :=
  match ids with
  | [] => Ok s
  | seq_id :: rest =>
      if bool_decide (seq_id ∈ dom s) then Raise RuntimeError
      else claim_slots rest (<[seq_id := 0%nat]> s)
  end.

Definition external_claim (ids : list Z) : M unit :=
  emit (ExternalClaim ids) ;;;
  s <- get_slots ;;
  s' <- lift (claim_slots ids s) ;;
  put_slots s'.

(** Modelled from the spec: [fetch] returns the cache handle and shortens
    the entries of [pending] in place, trimming the resident prefixes: the
    second component is [pending] after the call. *)
Definition fetch (m : KVCacheManager) (pending : gmap Z (list Z)) (num_steps : Z)
    : M (list KVCacheInputs * gmap Z (list Z)) :=
  emit (Fetch pending num_steps) ;;;
  s <- get_slots ;;
  if bool_decide (dom pending ⊆ dom s) then
    ret (fetch_inputs m s pending num_steps,
         map_imap (fun seq_id prompt =>
                     Some (drop (cached_prefix m s seq_id prompt) prompt))
                  pending)
  else raise RuntimeError.

(** Modelled from the spec: [increment_cache_lengths] maps a cache handle
    to the next one. *)
Definition increment_cache_lengths (m : KVCacheManager)
    (kv_cache_inputs : list KVCacheInputs) (prev_model_inputs : ModelInputs)
    : M (list KVCacheInputs) :=
  emit IncrementCacheLengths ;;;
  ret (increment_inputs m kv_cache_inputs prev_model_inputs).

(** Modelled from the spec: [step] commits the new tokens to the valid
    length of every slot. *)
Definition step (new_tokens : gmap Z (list Z)) : M unit :=
  emit (Step new_tokens) ;;;
  s <- get_slots ;;
  if bool_decide (dom new_tokens ⊆ dom s) then
    put_slots (map_imap (fun seq_id n =>
                 Some (n + length (default [] (new_tokens !! seq_id)))%nat) s)
  else raise RuntimeError.

(** Modelled from the spec: [release] of the cache manager gives the slot
    up. *)
Definition kv_release (seq_id : Z) : M unit :=
  emit (Release seq_id) ;;;
  s <- get_slots ;;
  put_slots (delete seq_id s).

(** [PipelineModel]: the abstract methods a model implements, and its cache
    manager. [calculate_max_seq_len] is a class method of the two
    configurations, which do not change: it is the value it returns.
    [prepare_next_token_inputs] and [compute_log_probabilities] may raise
    (the Llama model refuses multi-step execution of padded batches, the
    base class has no log probabilities). *)
Record PipelineModel := mkPipelineModel {
  calculate_max_seq_len : Z;
  execute : ModelInputs -> ModelOutputs;
  prepare_initial_token_inputs :
    list InputContext -> option KVCacheInputsT -> ModelInputs;
  prepare_next_token_inputs : list Z -> ModelInputs -> result ModelInputs;
  compute_log_probabilities :
    ModelInputs -> ModelOutputs -> list Z -> list Z -> list bool ->
    result (option (list (option LogProbabilities)));
  kv_manager : KVCacheManager;
}.

(** [PipelineConfig], by the fields the pipeline reads. *)
Record PipelineConfig := mkPipelineConfig {
  enable_structured_output : bool;
  quantization_encoding : option string;
}.

(** [huggingface_config.eos_token_id] when the configuration has the key. *)
Inductive HFValue :=
| HFInt (n : Z)
| HFList (l : list Z)
| HFOther.

Definition Sampler : Type :=
  Logits -> list (list Z) -> option (list (list bool)) ->
  result (list Z * list (list Z)).

Record TextGenerationPipeline := mkPipeline {
  _pipeline_config : PipelineConfig;
  _eos_token_id : gset Z;
  vocab_size : option nat;
  tokenizer : option Tokenizer;
  _grammar_compiler : option (string -> option GrammarMatcher);
  _pipeline_model : PipelineModel;
  _sampler : Sampler;
}.

(** ** [TextGenerationPipeline.__init__] *)

(** "Expand eos tokens if more are provided in pipeline_config" *)
Definition init_eos_token_id (hf_eos_token_id : option HFValue)
    (eos_token_id : Z) : M (gset Z) :=
  match hf_eos_token_id with
  | Some (HFInt eos_tokens) =>
      (if bool_decide (eos_tokens ≠ eos_token_id)
       then emit (Warn (EosConfigMismatchUsingProvided eos_tokens eos_token_id))
       else ret tt) ;;;
      ret ({[ eos_tokens ]} : gset Z)
  | Some (HFList eos_tokens) =>
      if bool_decide (eos_token_id ∈ eos_tokens)
      then ret (list_to_set eos_tokens)
      else ret {[ eos_token_id ]}
  | Some HFOther =>
      emit (Warn EosNeitherIntNorList) ;;;
      ret {[ eos_token_id ]}
  | None => ret {[ eos_token_id ]}
  end.

(** The constructor. [from_pretrained] is the tokenizer of the model path,
    [grammar_compiler] the compiler the grammar engine builds for a
    tokenizer; the model and the sampler are what the session loads. *)
Definition __init__ (pipeline_config : PipelineConfig)
    (hf_eos_token_id : option HFValue) (eos_token_id : Z)
    (from_pretrained : Tokenizer)
    (grammar_compiler : Tokenizer -> nat -> string -> option GrammarMatcher)
    (pipeline_model : PipelineModel) (sampler : Sampler)
    : M TextGenerationPipeline :=
  eos <- init_eos_token_id hf_eos_token_id eos_token_id ;;
  let structured :=
    if enable_structured_output pipeline_config
    then Some from_pretrained else None in
  match quantization_encoding pipeline_config with
  | None => raise (ValueError QuantizationEncodingNone)
  | Some _ =>
      ret (mkPipeline pipeline_config eos
             (tokenizer_len <$> structured)
             structured
             ((fun t => grammar_compiler t (tokenizer_len t)) <$> structured)
             pipeline_model sampler)
  end.

(** ** [calculate_num_steps] *)

Definition calculate_num_steps (p : TextGenerationPipeline) (num_steps : Z)
    (context : InputContext) : result Z :=
  let max_seq_len := calculate_max_seq_len (_pipeline_model p) in
  let num_available_steps :=
    max_seq_len - (current_length context - active_length context) in
  if num_available_steps <=? 0 then
    Raise (ValueError (RequestLengthExceedsMax (cache_seq_id context)
                         (current_length context) max_seq_len))
  else
    Ok (if num_available_steps >? num_steps
        then num_steps else num_available_steps).

(** ** [prepare_batch] *)

(** Truth value of a string: the empty string is false. *)
Definition nonempty (s : string) : bool :=
  match s with EmptyString => false | String _ _ => true end.

(** [context.json_schema and context.matcher is None] *)
Definition wants_matcher (context : InputContext) : option string :=
  match json_schema context, matcher context with
  | Some schema, None => if nonempty schema then Some schema else None
  | _, _ => None
  end.

(** "Initialize a matcher if needed". Everything the [try] block raises,
    a missing compiler attribute included, is caught by [except Exception]. *)
Definition initialize_matcher (p : TextGenerationPipeline)
    (context : InputContext) : M InputContext :=
  match wants_matcher context with
  | None => ret context
  | Some schema =>
      if negb (enable_structured_output (_pipeline_config p)) then
        raise (ValueError SchemaButNoConstrainedDecoding)
      else
        compiled <-
          match _grammar_compiler p with
          | Some compile_json_schema =>
              emit (CompileJsonSchema schema) ;;;
              ret (compile_json_schema schema)
          | None => ret None
          end ;;
        match compiled with
        | Some m => ret (set_matcher m context)
        | None =>
            emit (Warn (SchemaCannotBeCompiled schema)) ;;;
            ret (set_json_schema None context)
        end
  end.

(** The forced continuation of the matcher joins the pending tokens. The
    tokenizer attribute exists only when the constructor created it. *)
Definition jump_forward (p : TextGenerationPipeline) (context : InputContext)
    : M InputContext :=
  match matcher context with
  | Some m =>
      let jump_forward_string := find_jump_forward_string m in
      if nonempty jump_forward_string then
        match tokenizer p with
        | Some t =>
            ret (foldl (fun c token => jump_ahead token c) context
                   (encode t jump_forward_string))
        | None => raise AttributeError
        end
      else ret context
  | None => ret context
  end.

(** "Claim cache rows for context." *)
Definition claim_cache_row (context : InputContext) : M unit :=
  claimed <- contains (cache_seq_id context) ;;
  if negb claimed then external_claim [cache_seq_id context] else ret tt.

(** The variables of the first loop. *)
Record Gathered := mkGathered {
  bitmask : option (list (list Z));
  seq_ids_and_prompts : gmap Z (list Z);
  seq_ids_and_untrimmed_lengths : gmap Z Z;
  num_steps_of : Z;
}.

(** One iteration of [for i, context in enumerate(batch)]. *)
Definition gather_context (p : TextGenerationPipeline) (i : nat)
    (context : InputContext) (g : Gathered) : M (InputContext * Gathered) :=
  context <- initialize_matcher p context ;;
  context <- jump_forward p context ;;
  claim_cache_row context ;;;
  let prompts :=
    <[cache_seq_id context := next_tokens context]> (seq_ids_and_prompts g) in
  let untrimmed :=
    <[cache_seq_id context := active_length context]>
      (seq_ids_and_untrimmed_lengths g) in
  num_steps <- lift (calculate_num_steps p (num_steps_of g) context) ;;
  let filled :=
    match matcher context with
    | Some m =>
        if enable_structured_output (_pipeline_config p)
        then alter (fill_next_token_bitmask m) i <$> bitmask g
        else bitmask g
    | None => bitmask g
    end in
  ret (context, mkGathered filled prompts untrimmed num_steps).

Fixpoint gather_batch (p : TextGenerationPipeline) (i : nat)
    (batch : list InputContext) (g : Gathered)
    : M (list InputContext * Gathered) :=
  match batch with
  | [] => ret ([], g)
  | context :: rest =>
      r <- gather_context p i context g ;;
      r' <- gather_batch p (S i) rest (snd r) ;;
      ret (fst r :: fst r', snd r')
  end.

(** One iteration of the loop after [fetch]:
    "Update the context with the new possibly shortened prompt." *)
Definition trim_prompt (prompts : gmap Z (list Z)) (untrimmed : gmap Z Z)
    (context : InputContext) : result InputContext :=
  rbind (getitem untrimmed (cache_seq_id context)) (fun untrimmed_length =>
  rbind (getitem prompts (cache_seq_id context)) (fun prompt =>
  let trimmed_length := Z.of_nat (length prompt) in
  let bump_length := untrimmed_length - trimmed_length in
  Ok (if bump_length >? 0
      then bump_token_indices bump_length context
      else context))).

Fixpoint trim_prompts (prompts : gmap Z (list Z)) (untrimmed : gmap Z Z)
    (batch : list InputContext) : result (list InputContext) :=
  match batch with
  | [] => Ok []
  | context :: rest =>
      rbind (trim_prompt prompts untrimmed context) (fun context' =>
      rbind (trim_prompts prompts untrimmed rest) (fun rest' =>
      Ok (context' :: rest')))
  end.

(** The bitmask preparation starts from: all ones when structured output is
    enabled, [None] otherwise. *)
Definition initial_bitmask (p : TextGenerationPipeline) (batch_size : nat)
    : M (option (list (list Z))) :=
  if enable_structured_output (_pipeline_config p) then
    match vocab_size p with
    | Some v => ret (Some (torch_full (get_bitmask_shape batch_size v) (-1)))
    | None => raise AssertionError
    end
  else ret None.

(** [prepare_batch] returns the batch as the call leaves it, the model
    inputs, the step count and the bitmask. *)
Definition prepare_batch (p : TextGenerationPipeline)
    (batch : list InputContext) (num_steps : Z)
    : M (list InputContext * ModelInputs * Z * option (list (list Z))) :=
  allocated <- initial_bitmask p (length batch) ;;
  r <- gather_batch p 0 batch (mkGathered allocated ∅ ∅ num_steps) ;;
  let batch := fst r in
  let g := snd r in
  f <- fetch (kv_manager (_pipeline_model p))
             (seq_ids_and_prompts g) (num_steps_of g) ;;
  batch <- lift (trim_prompts (snd f) (seq_ids_and_untrimmed_lengths g) batch) ;;
  ret (batch,
       prepare_initial_token_inputs (_pipeline_model p) batch
         (Some (KVCacheInputsSequence (fst f))),
       num_steps_of g, bitmask g).

(** ** [sample_logits] *)

Definition sample_logits (p : TextGenerationPipeline) (logits : Logits)
    (prev_tokens : list (list Z)) (bitmask : option (list (list bool)))
    : M (list Z * list (list Z)) :=
  emit (Sample bitmask) ;;;
  lift (_sampler p logits prev_tokens bitmask).

(** ** [next_token]: the multi-step execution loop *)

(** The variables the loop carries from step to step. *)
Record LoopState := mkLoopState {
  curr_step_inputs : ModelInputs;
  loop_bitmask : option Bitmask;
  generated_tokens : list (list Z);
  batch_log_probabilities : list (option (list (option LogProbabilities)));
}.

(** [if bitmask is not None: ...]: the packed words become booleans, one row
    per request, cut to the vocabulary, and move to the device. *)
Definition expand_bitmask (p : TextGenerationPipeline) (batch_size : nat)
    (bitmask : option Bitmask) : M (option (list (list bool))) :=
  match bitmask with
  | None => ret None
  | Some b =>
      match vocab_size p with
      | None => raise AssertionError
      | Some v =>
          match b with
          | PackedMask rows => ret (Some (unpack_row v <$> rows))
          | DeviceMask rows =>
              rows' <- lift (unpack_device_tensor batch_size v rows) ;;
              ret (Some rows')
          end
      end
  end.

(** The first part of a step: execute, sample, log probabilities. *)
Definition decode_step (p : TextGenerationPipeline) (batch_size : nat)
    (compute_lp : bool) (batch_top_n : list Z) (batch_echo : list bool)
    (st : LoopState) : M (list Z * LoopState) :=
  emit Execute ;;;
  let model_outputs := execute (_pipeline_model p) (curr_step_inputs st) in
  match next_token_logits model_outputs with
  | None => raise AssertionError
  | Some logits_of_next_token =>
      device_mask <- expand_bitmask p batch_size (loop_bitmask st) ;;
      sampled <- sample_logits p logits_of_next_token (generated_tokens st)
                   device_mask ;;
      let new_tokens := fst sampled in
      log_probs <-
        (if compute_lp then
           emit ComputeLogProbabilities ;;;
           match compute_log_probabilities (_pipeline_model p)
                   (curr_step_inputs st) model_outputs new_tokens
                   batch_top_n batch_echo with
           | Ok l => ret (batch_log_probabilities st ++ [l])
           | Raise NotImplementedError =>
               emit (Warn UnableToComputeLogProbabilities) ;;;
               ret (batch_log_probabilities st ++ [None])
           | Raise e => raise e
           end
         else ret (batch_log_probabilities st)) ;;
      ret (new_tokens,
           mkLoopState (curr_step_inputs st) (DeviceMask <$> device_mask)
             (snd sampled) log_probs)
  end.

(** The second part, skipped on the last step: the cache lengths are
    incremented in the inputs and the next inputs prepared. *)
Definition advance_inputs (p : TextGenerationPipeline) (new_tokens : list Z)
    (curr : ModelInputs) : M ModelInputs :=
  match kv_cache_inputs_of curr with
  | Some (KVCacheInputsSequence l) =>
      l' <- increment_cache_lengths (kv_manager (_pipeline_model p)) l curr ;;
      emit PrepareNextTokenInputs ;;;
      lift (prepare_next_token_inputs (_pipeline_model p) new_tokens
              (mkModelInputs (payload curr) (Some (KVCacheInputsSequence l'))))
  | _ => raise AssertionError
  end.

(** [for i in range(num_steps)], with [remaining] iterations to go. *)
Fixpoint multistep_loop (p : TextGenerationPipeline) (batch_size : nat)
    (compute_lp : bool) (batch_top_n : list Z) (batch_echo : list bool)
    (num_steps : Z) (remaining : nat) (i : Z) (st : LoopState) : M LoopState :=
  match remaining with
  | O => ret st
  | S remaining' =>
      r <- decode_step p batch_size compute_lp batch_top_n batch_echo st ;;
      if i =? num_steps - 1 then ret (snd r)
      else
        next_inputs <- advance_inputs p (fst r) (curr_step_inputs (snd r)) ;;
        multistep_loop p batch_size compute_lp batch_top_n batch_echo
          num_steps remaining' (i + 1)
          (mkLoopState next_inputs (loop_bitmask (snd r))
             (generated_tokens (snd r)) (batch_log_probabilities (snd r)))
  end.

(** ** [next_token]: the response *)

(** Modelled from the spec: [TextGenerationResponse]
    ([max.pipelines.interfaces] is not among the sources): the ordered
    tokens with their optional log probabilities, and a status. *)
Record TextGenerationResponse := mkResponse {
  response_tokens : list (Z * option LogProbabilities);
  final_status : TextGenerationStatus;
}.

(** "Get log probs if needed." *)
Definition log_probs_of_step (compute_lp : bool)
    (all_log_probs : list (option (list (option LogProbabilities))))
    (batch_index step_index : nat) : result (option LogProbabilities) :=
  if compute_lp then
    rbind (index all_log_probs step_index) (fun log_probs_for_step =>
    match log_probs_for_step with
    | Some (x :: l) => index (x :: l) batch_index
    | _ => Ok None
    end)
  else Ok None.

(** "Identify completion criteria": the status after a token, from ACTIVE. *)
Definition completion_status (is_eos : bool) (current_length max_length : Z)
    : TextGenerationStatus :=
  if is_eos then END_OF_SEQUENCE
  else if current_length =? max_length then MAXIMUM_LENGTH
  else ACTIVE.

(** [for step in range(num_steps)] for one context, with [remaining]
    iterations to go; the status is ACTIVE whenever an iteration starts. *)
Fixpoint walk_steps (p : TextGenerationPipeline) (compute_lp : bool)
    (all_log_probs : list (option (list (option LogProbabilities))))
    (generated_tokens_host : list (list Z)) (batch_index : nat)
    (remaining : nat) (step_index : nat) (context : InputContext)
    : result (InputContext * TextGenerationStatus) :=
  match remaining with
  | O => Ok (context, ACTIVE)
  | S remaining' =>
      rbind (index generated_tokens_host batch_index) (fun row =>
      rbind (index row step_index) (fun next_token =>
      rbind (log_probs_of_step compute_lp all_log_probs batch_index step_index)
        (fun log_probs =>
      let is_eos := bool_decide (next_token ∈ _eos_token_id p) in
      let context := update next_token log_probs is_eos context in
      rbind (upper_bounded_default (calculate_max_seq_len (_pipeline_model p))
               (max_length context)) (fun max_length =>
      let status :=
        completion_status is_eos (current_length context) max_length in
      if is_done status then Ok (context, status)
      else walk_steps p compute_lp all_log_probs generated_tokens_host
             batch_index remaining' (S step_index) context))))
  end.

(** One iteration of [for batch_index, (request_id, context) in ...]. *)
Definition respond (p : TextGenerationPipeline) (compute_lp : bool)
    (all_log_probs : list (option (list (option LogProbabilities))))
    (generated_tokens_host : list (list Z)) (num_steps : Z)
    (batch_index : nat) (context : InputContext)
    : result (InputContext * TextGenerationResponse) :=
  rbind (walk_steps p compute_lp all_log_probs generated_tokens_host
           batch_index (Z.to_nat num_steps) 0 context) (fun r =>
  let drained := outstanding_completion_tokens (fst r) in
  Ok (snd drained, mkResponse (fst drained) (snd r))).

Fixpoint prepare_response (p : TextGenerationPipeline) (compute_lp : bool)
    (all_log_probs : list (option (list (option LogProbabilities))))
    (generated_tokens_host : list (list Z)) (num_steps : Z)
    (batch_index : nat) (batch : list (string * InputContext))
    (res : gmap string TextGenerationResponse)
    : result (list (string * InputContext) * gmap string TextGenerationResponse) :=
  match batch with
  | [] => Ok ([], res)
  | (request_id, context) :: rest =>
      rbind (respond p compute_lp all_log_probs generated_tokens_host
               num_steps batch_index context) (fun r =>
      rbind (prepare_response p compute_lp all_log_probs generated_tokens_host
               num_steps (S batch_index) rest (<[request_id := snd r]> res))
        (fun r' =>
      Ok ((request_id, fst r) :: fst r', snd r')))
  end.

(** [{ctx.cache_seq_id: generated_tokens_host[i] for i, ctx in ...}] *)
Fixpoint seq_ids_and_new_tokens (generated_tokens_host : list (list Z))
    (i : nat) (context_batch : list InputContext) (d : gmap Z (list Z))
    : result (gmap Z (list Z)) :=
  match context_batch with
  | [] => Ok d
  | ctx :: rest =>
      rbind (index generated_tokens_host i) (fun row =>
      seq_ids_and_new_tokens generated_tokens_host (S i) rest
        (<[cache_seq_id ctx := row]> d))
  end.

(** ** [next_token] *)

(** The batch is a dictionary in insertion order: a list of pairs. The
    result is the batch as the call leaves it, and the responses. *)
Definition next_token (p : TextGenerationPipeline)
    (batch : list (string * InputContext)) (num_steps : Z)
    : M (list (string * InputContext) * gmap string TextGenerationResponse) :=
  let context_batch := snd <$> batch in
  let batch_top_n := log_probabilities <$> context_batch in
  let compute_lp := existsb (fun n => negb (n =? 0)) batch_top_n in
  let batch_echo := log_probabilities_echo <$> context_batch in
  prepared <- prepare_batch p context_batch num_steps ;;
  let '(context_batch, model_inputs, num_steps, bitmask) := prepared in
  st <- multistep_loop p (length context_batch) compute_lp batch_top_n
          batch_echo num_steps (Z.to_nat num_steps) 0
          (mkLoopState model_inputs (PackedMask <$> bitmask)
             (replicate (length context_batch) []) []) ;;
  emit ToNumpy ;;;
  let generated_tokens_host := generated_tokens st in
  new_tokens <- lift (seq_ids_and_new_tokens generated_tokens_host 0
                        context_batch ∅) ;;
  step new_tokens ;;;
  lift (prepare_response p compute_lp (batch_log_probabilities st)
          generated_tokens_host num_steps 0
          (zip (fst <$> batch) context_batch) ∅).

(** ** [release] *)

Definition release (p : TextGenerationPipeline) (context : InputContext)
    : M unit :=
  kv_release (cache_seq_id context).
(** ** Notions the properties are stated with *)

(** The context as the first loop of [prepare_batch] leaves it before it
    claims the cache row: matcher initialized, forced tokens injected. The
    value does not depend on the world the two steps run in. *)
Definition gathered_context (p : TextGenerationPipeline)
    (context : InputContext) : result InputContext :=
  snd ((c <- initialize_matcher p context ;; jump_forward p c)
         (mkWorld ∅ [])).

(** What the two steps log and call. *)
Definition gathered_events (p : TextGenerationPipeline)
    (context : InputContext) : list Event :=
  trace (fst ((c <- initialize_matcher p context ;; jump_forward p c)
                (mkWorld ∅ []))).

(** The world after [claim_cache_row]. *)
Definition claimed_world (seq_id : Z) (w : World) : World :=
  if bool_decide (seq_id ∈ dom (slots w)) then w
  else mkWorld (<[seq_id := 0%nat]> (slots w))
         (trace w ++ [ExternalClaim [seq_id]]).

(** [num_available_steps] of [calculate_num_steps]. *)
Definition num_available_steps (p : TextGenerationPipeline)
    (context : InputContext) : Z :=
  calculate_max_seq_len (_pipeline_model p)
  - (current_length context - active_length context).

(** The two configuration errors of preparation, for a context of the
    batch: a schema that needs a matcher while structured output is
    disabled, and no step left. *)
Definition schema_refused (p : TextGenerationPipeline)
    (context : InputContext) : Prop :=
  is_Some (wants_matcher context) /\
  enable_structured_output (_pipeline_config p) = false.

Definition out_of_steps (p : TextGenerationPipeline)
    (context : InputContext) : Prop :=
  num_available_steps p context <= 0.

(** What the constructor guarantees: with structured output enabled the
    vocabulary size and the tokenizer are there. *)
Definition well_built (p : TextGenerationPipeline) : Prop :=
  enable_structured_output (_pipeline_config p) = true ->
  is_Some (vocab_size p) /\ is_Some (tokenizer p).

(** What finalization does with one context: [c] is the context before,
    [c'] after, [resp] its response, [row] its row of generated tokens and
    [num_steps] the step count of the call. The tokens [toks] written to the
    history are a prefix of the row; they are appended to the response after
    the completion tokens that were queued; the status after every token but
    the last is ACTIVE, the status after the last is the status reported,
    and a context reported ACTIVE has received a token for every step. *)
Definition finalized (p : TextGenerationPipeline) (row : option (list Z))
    (num_steps : Z) (c c' : InputContext) (resp : TextGenerationResponse)
    : Prop :=
  exists toks,
    tokens c' = tokens c ++ toks /\
    fst <$> response_tokens resp = (fst <$> completion c) ++ toks /\
    (length toks <= Z.to_nat num_steps)%nat /\
    (forall r, row = Some r -> toks = take (length toks) r) /\
    (final_status resp = ACTIVE -> length toks = Z.to_nat num_steps) /\
    (toks = [] -> final_status resp = ACTIVE) /\
    (toks <> [] ->
     exists bound,
       upper_bounded_default (calculate_max_seq_len (_pipeline_model p))
         (max_length c) = Ok bound /\
       forall j t, toks !! j = Some t ->
         completion_status (bool_decide (t ∈ _eos_token_id p))
           (current_length c + Z.of_nat (S j)) bound
         = if decide (S j = length toks) then final_status resp else ACTIVE) /\
    (final_status resp = END_OF_SEQUENCE <->
     exists t, last toks = Some t /\ t ∈ _eos_token_id p) /\
    (final_status resp = MAXIMUM_LENGTH <->
     exists t bound,
       last toks = Some t /\ ~ (t ∈ _eos_token_id p) /\
       upper_bounded_default (calculate_max_seq_len (_pipeline_model p))
         (max_length c) = Ok bound /\
       current_length c' = bound).

(** The ids of the batch, as a set. *)
Definition batch_ids (batch : list InputContext) : gset Z :=
  list_to_set (cache_seq_id <$> batch).

End Pipeline.

(** The ids that a sequence of events passes to [external_claim]. *)
Fixpoint claimed_ids (evs : list Event) : list Z :=
  match evs with
  | [] => []
  | ExternalClaim ids :: rest => ids ++ claimed_ids rest
  | _ :: rest => claimed_ids rest
  end.

Definition is_release (e : Event) : bool :=
  match e with Release _ => true | _ => false end.

Definition is_execute (e : Event) : bool :=
  match e with Execute => true | _ => false end.

Definition is_sample (e : Event) : bool :=
  match e with Sample _ => true | _ => false end.

Definition is_to_numpy (e : Event) : bool :=
  match e with ToNumpy => true | _ => false end.

Definition is_compute_log_probabilities (e : Event) : bool :=
  match e with ComputeLogProbabilities => true | _ => false end.

Definition is_increment_cache_lengths (e : Event) : bool :=
  match e with IncrementCacheLengths => true | _ => false end.

Definition is_prepare_next_token_inputs (e : Event) : bool :=
  match e with PrepareNextTokenInputs => true | _ => false end.

(** The events of preparation and of the decode loop. *)
Definition preparation_event (e : Event) : Prop :=
  match e with
  | Warn (SchemaCannotBeCompiled _) | CompileJsonSchema _
  | ExternalClaim _ | Fetch _ _ => True
  | _ => False
  end.

Definition decode_event (e : Event) : Prop :=
  match e with
  | Execute | Sample _ | ComputeLogProbabilities
  | Warn UnableToComputeLogProbabilities
  | IncrementCacheLengths | PrepareNextTokenInputs => True
  | _ => False
  end.

(** A decode event that is not a sampling under a bitmask. *)
Definition unmasked_decode_event (e : Event) : Prop :=
  match e with
  | Sample (Some _) => False
  | _ => decode_event e
  end.

(** The bitmasks that the samplings of a sequence of events are given, in
    order. *)
Fixpoint sample_masks (evs : list Event)
    : list (option (list (list bool))) :=
  match evs with
  | [] => []
  | Sample m :: rest => m :: sample_masks rest
  | _ :: rest => sample_masks rest
  end.

(** How often an event of a kind occurs. *)
Definition count_events (kind : Event -> bool) (evs : list Event) : nat :=
  length (List.filter kind evs).

(** A computation only appends to the trace, what it appends satisfies
    [P], it releases no slot, and what it returns satisfies [Q]. *)
Definition performs {A} (P : Event -> Prop) (Q : A -> Prop) (m : M A) : Prop :=
  forall w, exists evs,
    trace (fst (m w)) = trace w ++ evs /\ Forall P evs /\
    dom (slots w) ⊆ dom (slots (fst (m w))) /\
    forall a, snd (m w) = Ok a -> Q a.

(** ** A small pipeline to run the methods on *)

Module Toy.

(** Tensors carry nothing; log probabilities are numbered. *)
Definition Ctx : Type := @InputContext Z.
Definition Model : Type := @PipelineModel unit unit unit Z.
Definition Pipe : Type := @TextGenerationPipeline unit unit unit Z.

(** A new request with the prompt [prompt]. *)
Definition request (seq_id : Z) (prompt : list Z) : Ctx :=
  mkContext seq_id prompt 0 None 0 false None None [].

(** The sampler gives row [r] at step [k] the token [100 * r + k]. *)
Definition sampler : @Sampler unit :=
  fun _ prev _ =>
    Ok (imap (fun r row => 100 * Z.of_nat r + Z.of_nat (length row)) prev,
        imap (fun r row => row ++ [100 * Z.of_nat r + Z.of_nat (length row)])
          prev).

(** A cache manager with nothing resident. *)
Definition manager : @KVCacheManager unit unit :=
  mkKVCacheManager (fun _ _ _ => 0%nat) (fun _ _ _ => []) (fun l _ => l).

(** A cache manager in which the first two pending tokens are resident. *)
Definition warm_manager : @KVCacheManager unit unit :=
  mkKVCacheManager (fun _ _ _ => 2%nat) (fun _ _ _ => []) (fun l _ => l).

(** A model without log probabilities (the base class method). *)
Definition model (max_seq_len : Z) (m : @KVCacheManager unit unit) : Model :=
  mkPipelineModel max_seq_len
    (fun _ => mkModelOutputs (Some tt) None)
    (fun _ kv => mkModelInputs tt kv)
    (fun _ prev => Ok prev)
    (fun _ _ _ _ _ => Raise NotImplementedError)
    m.

Definition tokenizer32 : Tokenizer :=
  mkTokenizer 32 (fun _ => []).

(** A grammar engine that compiles no schema. *)
Definition no_grammar : Tokenizer -> nat -> string -> option GrammarMatcher :=
  fun _ _ _ => None.

Definition config (structured : bool) : PipelineConfig :=
  mkPipelineConfig structured (Some "bfloat16"%string).

(** The pipeline the constructor builds, with end-of-sequence id 2. *)
Definition pipe (structured : bool) (max_seq_len : Z)
    (m : @KVCacheManager unit unit) : Pipe :=
  mkPipeline (config structured) {[ 2 ]}
    (if structured then Some 32%nat else None)
    (if structured then Some tokenizer32 else None)
    (if structured then Some (no_grammar tokenizer32 32%nat) else None)
    (model max_seq_len m) sampler.

Definition unpack_device_tensor : nat -> nat -> list (list bool) -> result (list (list bool)) :=
  fun _ _ _ => Raise AttributeError.

Definition empty_world : World := mkWorld ∅ [].

(** A new request that asks for the log probability of one token. *)
Definition request_log_probs (seq_id : Z) (prompt : list Z) : Ctx :=
  mkContext seq_id prompt 0 None 1 false None None [].

(** A new request with a maximum length of its own. *)
Definition request_max_length (seq_id : Z) (prompt : list Z) (m : Z) : Ctx :=
  mkContext seq_id prompt 0 (Some m) 0 false None None [].

(** A request that comes with a schema and a matcher compiled for it; the
    matcher forces nothing and leaves the bitmask as it is. *)
Definition request_with_matcher (seq_id : Z) (prompt : list Z) : Ctx :=
  mkContext seq_id prompt 0 None 0 false (Some "{}"%string)
    (Some (mkMatcher EmptyString (fun row => row))) [].

(** A request with a schema and no matcher yet. *)
Definition request_with_schema (seq_id : Z) (prompt : list Z) : Ctx :=
  mkContext seq_id prompt 0 None 0 false (Some "{}"%string) None [].

(** A request whose ten tokens are all consumed. *)
Definition request_exhausted (seq_id : Z) : Ctx :=
  mkContext seq_id [1; 2; 3; 4; 5; 6; 7; 8; 9; 10] 10 None 0 false None None [].

End Toy.

(** ** More small cases *)

Module Cases.

(** A model that cannot prepare next-token inputs. *)
Definition single_step_model (max_seq_len : Z)
    (m : @KVCacheManager unit unit) : Toy.Model :=
  mkPipelineModel max_seq_len
    (fun _ => mkModelOutputs (Some tt) None)
    (fun _ kv => mkModelInputs tt kv)
    (fun _ _ => Raise NotImplementedError)
    (fun _ _ _ _ _ => Raise NotImplementedError)
    m.

Definition single_step_pipe (max_seq_len : Z) : Toy.Pipe :=
  mkPipeline (Toy.config false) {[ 2 ]} None None None
    (single_step_model max_seq_len Toy.manager) Toy.sampler.

(** A request of eight tokens, six of them consumed. *)
Definition request_in_progress (seq_id : Z) : Toy.Ctx :=
  mkContext seq_id [1; 2; 3; 4; 5; 6; 7; 8] 6 None 0 false None None [].

(** A request with a completion token queued. *)
Definition request_with_completion (seq_id : Z) : Toy.Ctx :=
  mkContext seq_id [1; 9] 1 None 0 false None None [(9, None)].

(** A batch of two requests. *)
Definition two_requests : list (string * Toy.Ctx) :=
  [("a"%string, Toy.request 0 [1]); ("b"%string, Toy.request 8 [1])].

End Cases.

(** ** The class methods of [PipelineModel] *)

Module PipelineModelClass.

Section Class.

(** The configurations, the cache parameters and the data type are passed
    on to the class methods, not inspected. *)
Context {PipelineConfig AutoConfig KVCacheConfig DType KVCacheParams : Type}.

(** A device, by the attribute that is read. *)
Record Device := mkDevice {
  is_host : bool;
}.

(** A class [cls] derived from [PipelineModel]: whether it derives from
    [KVCacheMixin] as well, and the class methods a model implements, any of
    which may raise. *)
Record PipelineModelClass := mkPipelineModelClass {
  is_kv_cache_mixin : bool;
  calculate_max_seq_len : PipelineConfig -> AutoConfig -> result Z;
  get_kv_params :
    AutoConfig -> Z -> KVCacheConfig -> DType -> result KVCacheParams;
  get_num_layers : AutoConfig -> result Z;
}.

Definition _MAX_DEFAULT_BATCH_SIZE : Z := 4096.
Definition _MIN_DEFAULT_BATCH_SIZE : Z := 1.

(** [infer_optimal_batch_size] of [max.pipelines.kv_cache], which the module
    imports: the estimate from the cache parameters, the maximal sequence
    length, the number of layers, the memory and the devices. *)
Variable kv_cache_infer_optimal_batch_size :
  KVCacheParams -> Z -> Z -> Z -> list Device -> result Z.

Definition infer_optimal_batch_size (cls : PipelineModelClass)
    (pipeline_config : PipelineConfig) (available_cache_memory : Z)
    (huggingface_config : AutoConfig) (devices : list Device)
    (kv_cache_config : KVCacheConfig) (cache_dtype : DType) : result Z :=
  if negb (is_kv_cache_mixin cls) then Ok 1
  else if match devices with [d] => is_host d | _ => false end then Ok 1
  else
    rbind (get_num_layers cls huggingface_config) (fun n_layers =>
    rbind (get_kv_params cls huggingface_config (Z.of_nat (length devices))
             kv_cache_config cache_dtype) (fun kv_params =>
    rbind (calculate_max_seq_len cls pipeline_config huggingface_config)
      (fun max_seq_len =>
    rbind (kv_cache_infer_optimal_batch_size kv_params max_seq_len n_layers
             available_cache_memory devices) (fun inferred_batch_size =>
    Ok (Z.max _MIN_DEFAULT_BATCH_SIZE
          (Z.min inferred_batch_size _MAX_DEFAULT_BATCH_SIZE)))))).

End Class.

End PipelineModelClass.

(** ** The embeddings pipeline of [max.pipelines.embeddings_pipeline] *)

Module Embeddings.

Section Embeddings.

Context {Logits Payload KVCacheInputs LogProbabilities Embedding : Type}.

(** The logits on the host: [to_numpy()] is an array whose entry [i] is the
    block of embeddings of request [i]; [first_rows e n] is [e[:n, :]];
    [truthy] is the truth value of the tensor. *)
Variable to_numpy : Logits -> list Embedding.
Variable first_rows : Embedding -> Z -> Embedding.
Variable truthy : Logits -> bool.

(** [EmbeddingsPipeline], by [_pipeline_config.pool_embeddings] and the
    model. *)
Record EmbeddingsPipeline := mkEmbeddingsPipeline {
  pool_embeddings : bool;
  _pipeline_model :
    @PipelineModel Logits Payload KVCacheInputs LogProbabilities;
}.

(** [EmbeddingsResponse(request_embeddings)] *)
Record EmbeddingsResponse := mkEmbeddingsResponse {
  embeddings : Embedding;
}.

(** [for batch_index, request_id in enumerate(batch.keys())] *)
Fixpoint prepare_response (self : EmbeddingsPipeline)
    (batch_embeddings : list Embedding)
    (context_batch : list (@InputContext LogProbabilities))
    (batch_index : nat) (request_ids : list string)
    (res : gmap string EmbeddingsResponse)
    : result (gmap string EmbeddingsResponse) :=
  match request_ids with
  | [] => Ok res
  | request_id :: rest =>
      rbind (index batch_embeddings batch_index) (fun request_embeddings =>
      rbind (if negb (pool_embeddings self) then
               rbind (index context_batch batch_index) (fun context =>
               Ok (first_rows request_embeddings (active_length context)))
             else Ok request_embeddings) (fun request_embeddings =>
      prepare_response self batch_embeddings context_batch (S batch_index)
        rest (<[request_id := mkEmbeddingsResponse request_embeddings]> res)))
  end.

(** The batch is a dictionary in insertion order: a list of pairs. *)
Definition encode (self : EmbeddingsPipeline)
    (batch : list (string * @InputContext LogProbabilities))
    : M (gmap string EmbeddingsResponse) :=
  let context_batch := snd <$> batch in
  let model_inputs :=
    prepare_initial_token_inputs (_pipeline_model self) context_batch None in
  emit Execute ;;;
  let model_outputs := execute (_pipeline_model self) model_inputs in
  match logits model_outputs with
  | Some l =>
      if truthy l then
        emit ToNumpy ;;;
        lift (prepare_response self (to_numpy l) context_batch 0
                (fst <$> batch) ∅)
      else raise AssertionError
  | None => raise AssertionError
  end.

End Embeddings.

End Embeddings.

(** ** Small cases for the class methods and the embeddings pipeline *)

Module ClassCases.

(** A model class with a cache whose estimate is the available memory
    divided by the sequence length. *)
Definition cached_class
    : @PipelineModelClass.PipelineModelClass unit unit unit unit unit :=
  PipelineModelClass.mkPipelineModelClass true
    (fun _ _ => Ok 10) (fun _ _ _ _ => Ok tt) (fun _ => Ok 2).

Definition estimate (params : unit) (max_seq_len num_layers memory : Z)
    (devices : list PipelineModelClass.Device) : result Z :=
  Ok (memory / max_seq_len).

Definition gpu : PipelineModelClass.Device :=
  PipelineModelClass.mkDevice false.

Definition cpu : PipelineModelClass.Device :=
  PipelineModelClass.mkDevice true.

End ClassCases.

Module EmbeddingsCases.

(** The logits are the blocks of embeddings, one per request, a block being
    a list of rows. *)
Definition model (blocks : list (list Z))
    : @PipelineModel (list (list Z)) unit unit Z :=
  mkPipelineModel 10
    (fun _ => mkModelOutputs None (Some blocks))
    (fun _ kv => mkModelInputs tt kv)
    (fun _ prev => Ok prev)
    (fun _ _ _ _ _ => Raise NotImplementedError)
    Toy.manager.

Definition pipe (pool : bool) (blocks : list (list Z))
    : @Embeddings.EmbeddingsPipeline (list (list Z)) unit unit Z :=
  Embeddings.mkEmbeddingsPipeline pool (model blocks).

Definition to_numpy (l : list (list Z)) : list (list Z) := l.

Definition first_rows (e : list Z) (n : Z) : list Z := take (Z.to_nat n) e.

Definition truthy (l : list (list Z)) : bool := true.

(** Two requests, with one and two active tokens. *)
Definition batch : list (string * Toy.Ctx) :=
  [("a"%string, Toy.request 0 [1]); ("b"%string, Toy.request 8 [1; 2])].

End EmbeddingsCases.

(** * Properties *)

Section Properties.

Set Default Proof Using "Type".

Context {Logits Payload KVCacheInputs LogProbabilities : Type}.

Abbreviation Ctx := (@InputContext LogProbabilities).
Abbreviation Pipe :=
  (@TextGenerationPipeline Logits Payload KVCacheInputs LogProbabilities).

(** ** The monad *)

Lemma bind_ok {A B} (m : M A) (k : A -> M B) w w' b :
  bind m k w = (w', Ok b) ->
  exists w1 a, m w = (w1, Ok a) /\ k a w1 = (w', Ok b).
Proof.
  unfold bind. destruct (m w) as [w1 [a|e]]; [eauto | discriminate].
Qed.

Lemma bind_raise {A B} (m : M A) (k : A -> M B) w w' e :
  bind m k w = (w', Raise e) ->
  m w = (w', Raise e) \/
  exists w1 a, m w = (w1, Ok a) /\ k a w1 = (w', Raise e).
Proof.
  unfold bind. destruct (m w) as [w1 [a|e1]]; [eauto | left; congruence].
Qed.

Lemma performs_ret {A} P (Q : A -> Prop) (a : A) :
  Q a -> performs P Q (ret a).
Proof.
  intros HQ w. exists []. rewrite app_nil_r.
  split_and!; [done|done|done|]. by intros a' [= <-].
Qed.

Lemma performs_raise {A} P (Q : A -> Prop) e : performs P Q (raise e).
Proof. intros w. exists []. rewrite app_nil_r. by split_and!. Qed.

Lemma performs_lift {A} P (Q : A -> Prop) (r : result A) :
  (forall a, r = Ok a -> Q a) -> performs P Q (lift r).
Proof. intros HQ w. exists []. rewrite app_nil_r. by split_and!. Qed.

Lemma performs_bind {A B} P (Q : A -> Prop) (R : B -> Prop)
    (m : M A) (k : A -> M B) :
  performs P Q m -> (forall a, Q a -> performs P R (k a)) ->
  performs P R (bind m k).
Proof.
  intros Hm Hk w. unfold bind.
  destruct (Hm w) as (evs & Ht & Hf & Hs & HQ).
  destruct (m w) as [w1 [a|e]]; simpl in *.
  - destruct (Hk a (HQ a eq_refl) w1) as (evs' & Ht' & Hf' & Hs' & HR).
    exists (evs ++ evs'). split_and!.
    + by rewrite Ht', Ht, app_assoc.
    + by apply Forall_app.
    + set_solver.
    + done.
  - exists evs. by split_and!.
Qed.

(** ** The constructor: the end-of-sequence ids *)

Lemma init_eos_token_id_int (e t : Z) w :
  e <> t ->
  init_eos_token_id (Some (HFInt e)) t w
  = (mkWorld (slots w)
       (trace w ++ [Warn (EosConfigMismatchUsingProvided e t)]),
     Ok {[ e ]}).
Proof.
  intros Hne. unfold init_eos_token_id.
  rewrite bool_decide_eq_true_2 by done. reflexivity.
Qed.

Lemma init_eos_token_id_list (l : list Z) (t : Z) w :
  t ∉ l ->
  init_eos_token_id (Some (HFList l)) t w = (w, Ok {[ t ]}).
Proof.
  intros Hnotin. unfold init_eos_token_id.
  rewrite bool_decide_eq_false_2 by done. reflexivity.
Qed.

Lemma init_eos (cfg : PipelineConfig) hf t tok gc (model : @PipelineModel Logits Payload KVCacheInputs LogProbabilities)
    sampler w w' (p : Pipe) :
  __init__ cfg hf t tok gc model sampler w = (w', Ok p) ->
  init_eos_token_id hf t w = (w', Ok (_eos_token_id p)).
Proof.
  unfold __init__. intros H. apply bind_ok in H as (w1 & eos & H1 & H2).
  destruct (quantization_encoding cfg); [|discriminate].
  unfold ret in H2. by simplify_eq.
Qed.

(** The constructor builds the tokenizer, the vocabulary size and the
    grammar compiler exactly when structured output is enabled. *)
Lemma init_well_built (cfg : PipelineConfig) hf t tok gc
    (model : @PipelineModel Logits Payload KVCacheInputs LogProbabilities)
    sampler w w' (p : Pipe) :
  __init__ cfg hf t tok gc model sampler w = (w', Ok p) ->
  _pipeline_config p = cfg /\ well_built p /\
  (enable_structured_output cfg = false ->
   vocab_size p = None /\ tokenizer p = None /\ _grammar_compiler p = None).
Proof.
  unfold __init__. intros H. apply bind_ok in H as (w1 & eos & H1 & H2).
  destruct (quantization_encoding cfg); [|discriminate].
  injection H2 as _ <-. unfold well_built. simpl.
  destruct (enable_structured_output cfg); simpl.
  - split_and!; [done | | done]. intros _. split; by eexists.
  - by split_and!.
Qed.

(** C10: when the configuration gives a single end-of-sequence id [e]
    that differs from the constructor argument [t], the pipeline's
    end-of-sequence set is [{e}], [t] is not in it, and the warning that
    claims the provided id is used has been logged; when the configuration
    gives a list without [t], the set is [{t}] and the list is dropped. *)
Theorem init_eos_token_id_from_config (cfg : PipelineConfig) hf t tok gc
    (model : @PipelineModel Logits Payload KVCacheInputs LogProbabilities)
    sampler w w' (p : Pipe) :
  __init__ cfg hf t tok gc model sampler w = (w', Ok p) ->
  (forall e, hf = Some (HFInt e) -> e <> t ->
     _eos_token_id p = {[ e ]} /\ ~ (t ∈ _eos_token_id p) /\
     trace w' = trace w ++ [Warn (EosConfigMismatchUsingProvided e t)]) /\
  (forall l, hf = Some (HFList l) -> t ∉ l ->
     _eos_token_id p = {[ t ]} /\
     (forall x, x ∈ l -> ~ (x ∈ _eos_token_id p)) /\
     trace w' = trace w).
Proof.
  intros Hinit. apply init_eos in Hinit. split.
  - intros e -> Hne. rewrite init_eos_token_id_int in Hinit by done.
    injection Hinit as Hw Heos. rewrite <- Heos, <- Hw. simpl.
    split_and!; [done | | done]. by apply not_elem_of_singleton_2.
  - intros l -> Hnotin. rewrite init_eos_token_id_list in Hinit by done.
    injection Hinit as Hw Heos. rewrite <- Heos, <- Hw.
    split_and!; [done | | done].
    intros x Hx ->%elem_of_singleton. done.
Qed.

(** ** [prepare_batch]: one context *)

Lemma initialize_matcher_run (p : Pipe) (c : Ctx) w :
  initialize_matcher p c w
  = (mkWorld (slots w)
       (trace w ++ trace (fst (initialize_matcher p c (mkWorld ∅ [])))),
     snd (initialize_matcher p c (mkWorld ∅ []))).
Proof.
  unfold initialize_matcher.
  destruct (wants_matcher c) as [schema|];
    [|destruct w; simpl; by rewrite app_nil_r].
  destruct (enable_structured_output (_pipeline_config p)); simpl;
    [|destruct w; simpl; by rewrite app_nil_r].
  destruct (_grammar_compiler p) as [compile|]; simpl.
  - unfold bind, emit, ret; simpl.
    destruct (compile schema); simpl; [done|].
    by rewrite <- app_assoc.
  - unfold bind, emit, ret; simpl. done.
Qed.

Lemma jump_forward_run (p : Pipe) (c : Ctx) w :
  jump_forward p c w = (w, snd (jump_forward p c (mkWorld ∅ []))).
Proof.
  unfold jump_forward.
  destruct (matcher c) as [m|]; [|done].
  destruct (nonempty (find_jump_forward_string m)); [|done].
  by destruct (tokenizer p).
Qed.

Lemma gathered_run (p : Pipe) (c : Ctx) w :
  (c1 <- initialize_matcher p c ;; jump_forward p c1) w
  = (mkWorld (slots w) (trace w ++ gathered_events p c),
     gathered_context p c).
Proof.
  unfold gathered_events, gathered_context, bind.
  rewrite (initialize_matcher_run p c w).
  destruct (initialize_matcher p c (mkWorld ∅ [])) as [w0 [c1|e]]; simpl;
    [|done].
  rewrite (jump_forward_run p c1 w0).
  rewrite (jump_forward_run p c1 (mkWorld _ _)). done.
Qed.

Lemma claim_cache_row_run (c : Ctx) w :
  claim_cache_row c w = (claimed_world (cache_seq_id c) w, Ok tt).
Proof.
  unfold claim_cache_row, claimed_world, contains, external_claim,
    bind, get_slots, put_slots, emit, ret, lift. simpl.
  destruct (bool_decide (cache_seq_id c ∈ dom (slots w))) eqn:E; simpl.
  - by destruct w.
  - rewrite E. done.
Qed.

(** One iteration of the first loop, in closed form. *)
Lemma gather_context_run (p : Pipe) i (c : Ctx) g w :
  gather_context p i c g w
  = match gathered_context p c with
    | Raise e =>
        (mkWorld (slots w) (trace w ++ gathered_events p c), Raise e)
    | Ok c1 =>
        let w1 :=
          claimed_world (cache_seq_id c1)
            (mkWorld (slots w) (trace w ++ gathered_events p c)) in
        match calculate_num_steps p (num_steps_of g) c1 with
        | Raise e => (w1, Raise e)
        | Ok n =>
            (w1,
             Ok (c1,
                 mkGathered
                   match matcher c1 with
                   | Some m =>
                       if enable_structured_output (_pipeline_config p)
                       then alter (fill_next_token_bitmask m) i <$> bitmask g
                       else bitmask g
                   | None => bitmask g
                   end
                   (<[cache_seq_id c1 := next_tokens c1]>
                      (seq_ids_and_prompts g))
                   (<[cache_seq_id c1 := active_length c1]>
                      (seq_ids_and_untrimmed_lengths g))
                   n))
        end
    end.
Proof.
  unfold gather_context.
  pose proof (gathered_run p c w) as H. unfold bind in H |- *.
  destruct (initialize_matcher p c w) as [w0 [c0|e]].
  - rewrite H. destruct (gathered_context p c) as [c1|e]; [|done].
    rewrite claim_cache_row_run. unfold lift, ret.
    by destruct (calculate_num_steps p (num_steps_of g) c1).
  - injection H as -> Hg. by rewrite <- Hg.
Qed.

(** What the two steps leave alone. *)
Lemma initialize_matcher_fields (p : Pipe) (c c1 : Ctx) w w' :
  initialize_matcher p c w = (w', Ok c1) ->
  cache_seq_id c1 = cache_seq_id c /\ tokens c1 = tokens c /\
  start_idx c1 = start_idx c /\ max_length c1 = max_length c /\
  log_probabilities c1 = log_probabilities c /\
  completion c1 = completion c.
Proof.
  unfold initialize_matcher.
  destruct (wants_matcher c) as [schema|]; [|intros [= _ <-]; done].
  destruct (enable_structured_output (_pipeline_config p)); simpl;
    [|discriminate].
  intros (w1 & [m|] & _ & H)%bind_ok.
  - injection H as _ <-. done.
  - apply bind_ok in H as (w2 & [] & _ & H). injection H as _ <-. done.
Qed.

Lemma foldl_jump_ahead_fields (l : list Z) (c : Ctx) :
  let c1 := foldl (fun c token => jump_ahead token c) c l in
  cache_seq_id c1 = cache_seq_id c /\ tokens c1 = tokens c ++ l /\
  start_idx c1 = start_idx c /\ max_length c1 = max_length c /\
  log_probabilities c1 = log_probabilities c /\
  completion c1 = completion c /\ matcher c1 = matcher c /\
  json_schema c1 = json_schema c.
Proof.
  revert c. induction l as [|t l IH]; intros c; simpl.
  - by rewrite app_nil_r.
  - destruct (IH (jump_ahead t c)) as (-> & -> & -> & -> & -> & -> & -> & ->).
    simpl. by rewrite <- app_assoc.
Qed.

Lemma jump_forward_fields (p : Pipe) (c c1 : Ctx) w w' :
  jump_forward p c w = (w', Ok c1) ->
  cache_seq_id c1 = cache_seq_id c /\
  (exists l, tokens c1 = tokens c ++ l) /\
  start_idx c1 = start_idx c /\ max_length c1 = max_length c /\
  log_probabilities c1 = log_probabilities c /\
  completion c1 = completion c /\ matcher c1 = matcher c /\
  json_schema c1 = json_schema c.
Proof.
  unfold jump_forward.
  assert (Hsame : forall w0, (w0, Ok c) = (w', Ok c1) ->
    cache_seq_id c1 = cache_seq_id c /\
    (exists l, tokens c1 = tokens c ++ l) /\
    start_idx c1 = start_idx c /\ max_length c1 = max_length c /\
    log_probabilities c1 = log_probabilities c /\
    completion c1 = completion c /\ matcher c1 = matcher c /\
    json_schema c1 = json_schema c).
  { intros w0 [= _ <-]. split_and!; try done. exists []. by rewrite app_nil_r. }
  destruct (matcher c) as [m|] eqn:Em; [|apply Hsame].
  destruct (nonempty (find_jump_forward_string m)); [|apply Hsame].
  destruct (tokenizer p) as [t|]; [|discriminate].
  intros [= _ <-].
  destruct (foldl_jump_ahead_fields (encode t (find_jump_forward_string m)) c)
    as (-> & -> & -> & -> & -> & -> & -> & ->).
  split_and!; try done. by eexists.
Qed.

Lemma gathered_context_fields (p : Pipe) (c c1 : Ctx) :
  gathered_context p c = Ok c1 ->
  cache_seq_id c1 = cache_seq_id c /\
  (exists l, tokens c1 = tokens c ++ l) /\
  start_idx c1 = start_idx c /\ max_length c1 = max_length c /\
  log_probabilities c1 = log_probabilities c /\
  completion c1 = completion c.
Proof.
  unfold gathered_context. intros H.
  destruct ((c0 <- initialize_matcher p c ;; jump_forward p c0)
              (mkWorld ∅ [])) as [w' r] eqn:E.
  simpl in H. subst r.
  apply bind_ok in E as (w1 & c0 & Hi & Hj).
  apply initialize_matcher_fields in Hi as (Hi1 & Hi2 & Hi3 & Hi4 & Hi5 & Hi6).
  apply jump_forward_fields in Hj as (-> & [l ->] & -> & -> & -> & -> & _ & _).
  rewrite Hi1, Hi2, Hi3, Hi4, Hi5, Hi6. split_and!; try done. by eexists.
Qed.

(** The forced tokens do not raise the number of available steps. *)
Lemma gathered_context_available (p : Pipe) (c c1 : Ctx) :
  gathered_context p c = Ok c1 ->
  num_available_steps p c1 <= num_available_steps p c.
Proof.
  intros (_ & [l Hl] & Hs & _)%gathered_context_fields.
  unfold num_available_steps, current_length, active_length, next_tokens.
  rewrite Hl, Hs, !length_drop, !length_app. lia.
Qed.

Lemma calculate_num_steps_ok (p : Pipe) n (c : Ctx) n' :
  calculate_num_steps p n c = Ok n' ->
  0 < num_available_steps p c /\ n' = Z.min n (num_available_steps p c).
Proof.
  unfold calculate_num_steps. fold (num_available_steps p c).
  destruct (Z.leb_spec (num_available_steps p c) 0); [discriminate|].
  destruct (Z.gtb_spec (num_available_steps p c) n); intros [= <-]; lia.
Qed.

Lemma calculate_num_steps_raise (p : Pipe) n (c : Ctx) e :
  calculate_num_steps p n c = Raise e ->
  num_available_steps p c <= 0 /\
  e = ValueError (RequestLengthExceedsMax (cache_seq_id c) (current_length c)
                    (calculate_max_seq_len (_pipeline_model p))).
Proof.
  unfold calculate_num_steps. fold (num_available_steps p c).
  destruct (Z.leb_spec (num_available_steps p c) 0); [|discriminate].
  by intros [= <-].
Qed.

Lemma calculate_num_steps_exhausted (p : Pipe) n (c : Ctx) :
  num_available_steps p c <= 0 ->
  calculate_num_steps p n c
  = Raise (ValueError (RequestLengthExceedsMax (cache_seq_id c)
                         (current_length c)
                         (calculate_max_seq_len (_pipeline_model p)))).
Proof.
  intros H. unfold calculate_num_steps. fold (num_available_steps p c).
  by destruct (Z.leb_spec (num_available_steps p c) 0); [|lia].
Qed.

(** ** [prepare_batch]: the first loop *)

Lemma gather_batch_cons_ok (p : Pipe) i (c : Ctx) rest g w w' b g' :
  gather_batch p i (c :: rest) g w = (w', Ok (b, g')) ->
  exists w1 c1 g1 b',
    gather_context p i c g w = (w1, Ok (c1, g1)) /\
    gather_batch p (S i) rest g1 w1 = (w', Ok (b', g')) /\
    b = c1 :: b'.
Proof.
  simpl. intros (w1 & [c1 g1] & H1 & H2)%bind_ok.
  apply bind_ok in H2 as (w2 & [b' g2] & H2 & H3).
  injection H3 as -> <- ->. simpl in *. by exists w1, c1, g1, b'.
Qed.

Lemma gather_context_ok (p : Pipe) i (c : Ctx) g w w1 c1 g1 :
  gather_context p i c g w = (w1, Ok (c1, g1)) ->
  gathered_context p c = Ok c1 /\
  calculate_num_steps p (num_steps_of g) c1 = Ok (num_steps_of g1) /\
  seq_ids_and_prompts g1
  = <[cache_seq_id c1 := next_tokens c1]> (seq_ids_and_prompts g) /\
  seq_ids_and_untrimmed_lengths g1
  = <[cache_seq_id c1 := active_length c1]>
      (seq_ids_and_untrimmed_lengths g) /\
  bitmask g1
  = match matcher c1 with
    | Some m =>
        if enable_structured_output (_pipeline_config p)
        then alter (fill_next_token_bitmask m) i <$> bitmask g
        else bitmask g
    | None => bitmask g
    end /\
  w1 = claimed_world (cache_seq_id c1)
         (mkWorld (slots w) (trace w ++ gathered_events p c)).
Proof.
  rewrite gather_context_run.
  destruct (gathered_context p c) as [c0|]; [|discriminate]. simpl.
  destruct (calculate_num_steps p (num_steps_of g) c0) as [n|] eqn:En;
    [|discriminate].
  intros [= <- <- <-]. simpl. done.
Qed.

(** What the first loop computes, when it completes. *)
Lemma gather_batch_ok (p : Pipe) (batch : list Ctx) : forall i g w w' b g',
  gather_batch p i batch g w = (w', Ok (b, g')) ->
  Forall2 (fun c c1 => gathered_context p c = Ok c1) batch b /\
  num_steps_of g' <= num_steps_of g /\
  Forall (fun c1 => 0 < num_available_steps p c1 /\
                    num_steps_of g' <= num_available_steps p c1) b /\
  (forall seq_id,
     seq_id ∉ batch_ids b ->
     seq_ids_and_prompts g' !! seq_id = seq_ids_and_prompts g !! seq_id /\
     seq_ids_and_untrimmed_lengths g' !! seq_id
     = seq_ids_and_untrimmed_lengths g !! seq_id) /\
  (NoDup (cache_seq_id <$> b) ->
   forall c1, c1 ∈ b ->
     seq_ids_and_prompts g' !! cache_seq_id c1 = Some (next_tokens c1) /\
     seq_ids_and_untrimmed_lengths g' !! cache_seq_id c1
     = Some (active_length c1)) /\
  dom (seq_ids_and_prompts g') = dom (seq_ids_and_prompts g) ∪ batch_ids b /\
  dom (seq_ids_and_untrimmed_lengths g')
  = dom (seq_ids_and_untrimmed_lengths g) ∪ batch_ids b.
Proof.
  induction batch as [|c rest IH]; intros i g w w' b g' H.
  - injection H as Hw Hb Hg. subst. unfold batch_ids. simpl.
    split_and!; try done; set_solver.
  - apply gather_batch_cons_ok in H as (w1 & c1 & g1 & b' & Hc & Hr & ->).
    apply gather_context_ok in Hc as (Hg & Hn & Hp & Hu & _ & _).
    apply IH in Hr as (IH1 & IH2 & IH3 & IH4 & IH5 & IH6 & IH7).
    apply calculate_num_steps_ok in Hn as (Hpos & Hn).
    unfold batch_ids in *. simpl.
    split_and!.
    + by constructor.
    + lia.
    + constructor; [lia | done].
    + intros seq_id Hnotin.
      destruct (IH4 seq_id) as [-> ->]; [set_solver|].
      rewrite Hp, Hu.
      rewrite !lookup_insert_ne by set_solver. done.
    + intros [Hfresh Hnodup]%NoDup_cons c' [->|Hin]%elem_of_cons.
      * destruct (IH4 (cache_seq_id c1)) as [-> ->].
        { rewrite elem_of_list_to_set. done. }
        rewrite Hp, Hu. by rewrite !lookup_insert_eq.
      * by apply IH5.
    + rewrite IH6, Hp, dom_insert_L. set_solver.
    + rewrite IH7, Hu, dom_insert_L. set_solver.
Qed.

Lemma gather_batch_bitmask (p : Pipe) (batch : list Ctx) : forall i g w w' b g',
  gather_batch p i batch g w = (w', Ok (b, g')) ->
  (bitmask g' = None <-> bitmask g = None) /\
  (enable_structured_output (_pipeline_config p) = false ->
   bitmask g' = bitmask g) /\
  ((forall c1, c1 ∈ b -> matcher c1 = None) -> bitmask g' = bitmask g).
Proof.
  induction batch as [|c rest IH]; intros i g w w' b g' H.
  - injection H as Hw Hb Hg. by subst.
  - apply gather_batch_cons_ok in H as (w1 & c1 & g1 & b' & Hc & Hr & ->).
    apply gather_context_ok in Hc as (_ & _ & _ & _ & Hb & _).
    apply IH in Hr as (IH1 & IH2 & IH3).
    split_and!.
    + rewrite IH1, Hb.
      destruct (matcher c1);
        [destruct (enable_structured_output (_pipeline_config p))|];
        try done.
      by destruct (bitmask g).
    + intros He. rewrite IH2, Hb by done. rewrite He.
      by destruct (matcher c1).
    + intros Hnone. rewrite IH3, Hb.
      * by rewrite (Hnone c1) by (by left).
      * intros c' Hc'. apply Hnone. by right.
Qed.

(** The events of the matcher phase: at most a compilation and the warning
    about its failure. *)
Lemma gathered_events_cases (p : Pipe) (c : Ctx) :
  gathered_events p c = [] \/
  exists schema,
    wants_matcher c = Some schema /\
    (gathered_events p c = [CompileJsonSchema schema] \/
     gathered_events p c
     = [CompileJsonSchema schema; Warn (SchemaCannotBeCompiled schema)] \/
     gathered_events p c = [Warn (SchemaCannotBeCompiled schema)]).
Proof.
  unfold gathered_events, bind.
  destruct (initialize_matcher p c (mkWorld ∅ [])) as [w0 r] eqn:E.
  assert (Hev : trace (fst (let (w', r0) := (w0, r) in
                 match r0 with
                 | Ok a => jump_forward p a w'
                 | Raise e => (w', Raise e)
                 end)) = trace w0).
  { destruct r as [c0|e]; [|done]. by rewrite jump_forward_run. }
  rewrite Hev. clear Hev.
  unfold initialize_matcher in E.
  destruct (wants_matcher c) as [schema|]; [|injection E as <- _; by left].
  destruct (enable_structured_output (_pipeline_config p)); simpl in E;
    [|injection E as <- _; by left].
  right. exists schema. split; [done|].
  destruct (_grammar_compiler p) as [compile|];
    unfold bind, emit, ret in E; simpl in E.
  - destruct (compile schema); injection E as <- _; simpl; auto.
  - injection E as <- _; simpl; auto.
Qed.

Lemma claimed_ids_app (evs evs' : list Event) :
  claimed_ids (evs ++ evs') = claimed_ids evs ++ claimed_ids evs'.
Proof.
  induction evs as [|e evs IH]; [done|].
  destruct e; simpl; rewrite ?IH; try done. by rewrite app_assoc.
Qed.

Lemma claimed_ids_gathered_events (p : Pipe) (c : Ctx) :
  claimed_ids (gathered_events p c) = [].
Proof.
  destruct (gathered_events_cases p c) as [->|(s & _ & [->|[->| ->]])]; done.
Qed.

(** The slots and the claims of the first loop, when it completes. *)
Lemma gather_batch_world (p : Pipe) (batch : list Ctx) : forall i g w w' b g',
  gather_batch p i batch g w = (w', Ok (b, g')) ->
  dom (slots w') = dom (slots w) ∪ batch_ids b /\
  (forall seq_id, seq_id ∈ dom (slots w) ->
     slots w' !! seq_id = slots w !! seq_id) /\
  (forall seq_id, seq_id ∉ dom (slots w) -> seq_id ∈ batch_ids b ->
     slots w' !! seq_id = Some 0%nat) /\
  exists evs,
    trace w' = trace w ++ evs /\
    NoDup (claimed_ids evs) /\
    (forall seq_id,
       seq_id ∈ claimed_ids evs <->
       seq_id ∈ batch_ids b /\ seq_id ∉ dom (slots w)).
Proof.
  induction batch as [|c rest IH]; intros i g w w' b g' H.
  - injection H as Hw Hb Hg. subst. unfold batch_ids. simpl.
    split_and!; try done; try set_solver.
    exists []. rewrite app_nil_r. split_and!; [done|constructor|set_solver].
  - apply gather_batch_cons_ok in H as (w1 & c1 & g1 & b' & Hc & Hr & ->).
    apply gather_context_ok in Hc as (_ & _ & _ & _ & _ & Hw1).
    apply IH in Hr as (IH1 & IH2 & IH3 & evs & IH4 & IH5 & IH6).
    clear IH. unfold batch_ids in *. simpl.
    unfold claimed_world in Hw1. simpl in Hw1.
    destruct (bool_decide (cache_seq_id c1 ∈ dom (slots w))) eqn:E.
    + apply bool_decide_eq_true_1 in E. subst w1. simpl in *.
      split_and!.
      * rewrite IH1. set_solver.
      * done.
      * intros seq_id Hn Hin. apply IH3; set_solver.
      * exists (gathered_events p c ++ evs). split_and!.
        -- by rewrite IH4, app_assoc.
        -- by rewrite claimed_ids_app, claimed_ids_gathered_events.
        -- intros seq_id.
           rewrite claimed_ids_app, claimed_ids_gathered_events. simpl.
           rewrite IH6. set_solver.
    + apply bool_decide_eq_false_1 in E. subst w1. simpl in *.
      rewrite dom_insert_L in IH1, IH2, IH3, IH6.
      split_and!.
      * rewrite IH1. set_solver.
      * intros seq_id Hin. rewrite IH2 by set_solver.
        apply lookup_insert_ne. set_solver.
      * intros seq_id Hn Hin.
        destruct (decide (seq_id = cache_seq_id c1)) as [->|Hne].
        -- rewrite IH2 by set_solver. apply lookup_insert_eq.
        -- apply IH3; set_solver.
      * exists (gathered_events p c ++ [ExternalClaim [cache_seq_id c1]] ++ evs).
        rewrite !claimed_ids_app, claimed_ids_gathered_events. simpl.
        split_and!.
        -- rewrite IH4. by rewrite <- !app_assoc.
        -- constructor; [|done]. rewrite IH6. set_solver.
        -- intros seq_id. rewrite elem_of_cons, IH6.
           rewrite !elem_of_union, elem_of_singleton.
           destruct (decide (seq_id = cache_seq_id c1)) as [->|Hne];
             intuition congruence.
Qed.

(** ** [prepare_batch]: after the fetch *)

Lemma trim_prompts_ok prompts untrimmed (b1 b : list Ctx) :
  trim_prompts prompts untrimmed b1 = Ok b ->
  Forall2 (fun c1 c' => trim_prompt prompts untrimmed c1 = Ok c') b1 b.
Proof.
  revert b. induction b1 as [|c1 b1 IH]; intros b; simpl.
  - intros [= <-]. constructor.
  - destruct (trim_prompt prompts untrimmed c1) as [c'|] eqn:E; [|done].
    simpl. destruct (trim_prompts prompts untrimmed b1) as [b'|]; [|done].
    simpl. intros [= <-]. constructor; [done | by apply IH].
Qed.

Lemma trim_prompt_ok prompts untrimmed (c1 c' : Ctx) :
  trim_prompt prompts untrimmed c1 = Ok c' ->
  exists untrimmed_length prompt,
    untrimmed !! cache_seq_id c1 = Some untrimmed_length /\
    prompts !! cache_seq_id c1 = Some prompt /\
    c' = if untrimmed_length - Z.of_nat (length prompt) >? 0
         then bump_token_indices
                (untrimmed_length - Z.of_nat (length prompt)) c1
         else c1.
Proof.
  unfold trim_prompt, getitem.
  destruct (untrimmed !! cache_seq_id c1) as [u|]; [|done]. simpl.
  destruct (prompts !! cache_seq_id c1) as [pr|]; [|done]. simpl.
  intros [= <-]. by exists u, pr.
Qed.

Lemma initial_bitmask_run (p : Pipe) k w :
  initial_bitmask p k w = (w, snd (initial_bitmask p k w)).
Proof.
  unfold initial_bitmask.
  destruct (enable_structured_output (_pipeline_config p)); [|done].
  by destruct (vocab_size p).
Qed.

Lemma initial_bitmask_ok (p : Pipe) k w w' alloc :
  initial_bitmask p k w = (w', Ok alloc) ->
  w' = w /\
  (alloc = None <-> enable_structured_output (_pipeline_config p) = false) /\
  (enable_structured_output (_pipeline_config p) = true ->
   exists v, vocab_size p = Some v /\
             alloc = Some (torch_full (get_bitmask_shape k v) (-1))).
Proof.
  unfold initial_bitmask.
  destruct (enable_structured_output (_pipeline_config p)).
  - destruct (vocab_size p) as [v|]; [|discriminate].
    intros [= <- <-]. split_and!; [done|done|]. intros _. by exists v.
  - intros [= <- <-]. done.
Qed.

(** The parts of a preparation that completes. *)
Lemma prepare_batch_ok (p : Pipe) (batch : list Ctx) n w w' b mi n' bm :
  prepare_batch p batch n w = (w', Ok (b, mi, n', bm)) ->
  exists alloc w1 b1 g,
    initial_bitmask p (length batch) w = (w, Ok alloc) /\
    gather_batch p 0 batch (mkGathered alloc ∅ ∅ n) w = (w1, Ok (b1, g)) /\
    w' = mkWorld (slots w1)
           (trace w1 ++ [Fetch (seq_ids_and_prompts g) (num_steps_of g)]) /\
    dom (seq_ids_and_prompts g) ⊆ dom (slots w1) /\
    trim_prompts
      (map_imap (fun seq_id prompt =>
         Some (drop (cached_prefix (kv_manager (_pipeline_model p))
                       (slots w1) seq_id prompt) prompt))
         (seq_ids_and_prompts g))
      (seq_ids_and_untrimmed_lengths g) b1 = Ok b /\
    n' = num_steps_of g /\ bm = bitmask g.
Proof.
  unfold prepare_batch. intros (w0 & alloc & Ha & H)%bind_ok.
  pose proof (initial_bitmask_ok _ _ _ _ _ Ha) as (-> & _).
  apply bind_ok in H as (w1 & [b1 g] & Hg & H). simpl in H.
  apply bind_ok in H as (w2 & [handles trimmed] & Hf & H). simpl in H.
  apply bind_ok in H as (w3 & b' & Ht & H).
  injection H as -> <- _ <- <-.
  unfold lift in Ht. injection Ht as -> Ht.
  unfold fetch, bind, emit, get_slots in Hf. simpl in Hf.
  destruct (bool_decide (dom (seq_ids_and_prompts g) ⊆ dom (slots w1))) eqn:E;
    [|discriminate].
  injection Hf as <- _ <-.
  apply bool_decide_eq_true_1 in E.
  by exists alloc, w1, b1, g.
Qed.

Lemma gathered_ids (p : Pipe) (batch b1 : list Ctx) :
  Forall2 (fun c c1 => gathered_context p c = Ok c1) batch b1 ->
  cache_seq_id <$> b1 = cache_seq_id <$> batch.
Proof.
  induction 1 as [|c c1 batch b1 Hc _ IH]; [done|]. rewrite !fmap_cons.
  apply gathered_context_fields in Hc as (-> & _). by rewrite IH.
Qed.

Lemma trimmed_ids prompts untrimmed (b1 b : list Ctx) :
  Forall2 (fun c1 c' => trim_prompt prompts untrimmed c1 = Ok c') b1 b ->
  cache_seq_id <$> b = cache_seq_id <$> b1.
Proof.
  induction 1 as [|c1 c' b1 b Hc _ IH]; [done|]. rewrite !fmap_cons.
  apply trim_prompt_ok in Hc as (u & pr & _ & _ & ->). rewrite IH.
  by destruct (u - Z.of_nat (length pr) >? 0).
Qed.

(** ** [prepare_batch]: the step count *)

(** C1 (as amended): the step count that preparation returns never exceeds
    the requested step count, nor, for any context of the batch,
    [max_seq_len - (current_length - active_length)] with the lengths the
    context has when preparation is called. *)
Theorem prepare_batch_num_steps_bound (p : Pipe) (batch : list Ctx)
    n w w' b mi n' bm :
  prepare_batch p batch n w = (w', Ok (b, mi, n', bm)) ->
  n' <= n /\
  forall c, c ∈ batch ->
    n' <= calculate_max_seq_len (_pipeline_model p)
          - (current_length c - active_length c).
Proof.
  intros (alloc & w1 & b1 & g & _ & Hg & _ & _ & _ & -> & _)%prepare_batch_ok.
  apply gather_batch_ok in Hg as (HF2 & Hle & Hall & _). simpl in Hle.
  split; [done|].
  intros c (i & Hi)%list_elem_of_lookup.
  destruct (Forall2_lookup_l _ _ _ _ _ HF2 Hi) as (c1 & Hi1 & Hc1).
  pose proof (gathered_context_available _ _ _ Hc1) as Hav.
  rewrite Forall_forall in Hall.
  assert (Hin : c1 ∈ b1) by (by eapply list_elem_of_lookup_2).
  destruct (Hall c1 Hin) as [_ Hn].
  unfold num_available_steps in *. lia.
Qed.

(** ** [prepare_batch]: the cache slots *)

(** The slots and the claims of a preparation that completes. *)
Lemma prepare_batch_slots (p : Pipe) (batch : list Ctx) n w w' b mi n' bm :
  prepare_batch p batch n w = (w', Ok (b, mi, n', bm)) ->
  cache_seq_id <$> b = cache_seq_id <$> batch /\
  dom (slots w') = dom (slots w) ∪ batch_ids batch /\
  (forall seq_id, seq_id ∈ dom (slots w) ->
     slots w' !! seq_id = slots w !! seq_id) /\
  (forall seq_id, seq_id ∉ dom (slots w) -> seq_id ∈ batch_ids batch ->
     slots w' !! seq_id = Some 0%nat) /\
  exists evs,
    trace w' = trace w ++ evs /\
    NoDup (claimed_ids evs) /\
    (forall seq_id,
       seq_id ∈ claimed_ids evs <->
       seq_id ∈ batch_ids batch /\ seq_id ∉ dom (slots w)).
Proof.
  intros (alloc & w1 & b1 & g & _ & Hg & -> & _ & Ht & _ & _)%prepare_batch_ok.
  pose proof (gather_batch_ok _ _ _ _ _ _ _ _ Hg) as (HF2 & _).
  apply gather_batch_world in Hg
    as (Hd & Hkeep & Hnew & evs & Hev & Hnd & Hin).
  apply trim_prompts_ok, trimmed_ids in Ht.
  apply gathered_ids in HF2.
  assert (Hids : batch_ids b1 = batch_ids batch)
    by (unfold batch_ids; by rewrite HF2).
  rewrite Hids in *. simpl.
  split_and!; [congruence | done | done | done |].
  exists (evs ++ [Fetch (seq_ids_and_prompts g) (num_steps_of g)]).
  rewrite claimed_ids_app. simpl. rewrite app_nil_r.
  split_and!; [|done|done]. by rewrite Hev, app_assoc.
Qed.

(** C4: claiming the cache row of a context never fails and does nothing
    when the id is claimed already; after a preparation the claimed ids are
    those claimed before and those of the batch, every context of the batch
    has its id claimed, the slots claimed before keep their valid length,
    the new ones start empty, and the ids passed to [external_claim] are the
    ids of the batch that were not claimed, each once. *)
Theorem prepare_batch_claims_each_id_once (p : Pipe) (batch : list Ctx)
    n w w' b mi n' bm :
  prepare_batch p batch n w = (w', Ok (b, mi, n', bm)) ->
  (forall (c : Ctx) w0,
     claim_cache_row c w0 = (claimed_world (cache_seq_id c) w0, Ok tt) /\
     (cache_seq_id c ∈ dom (slots w0) ->
      claimed_world (cache_seq_id c) w0 = w0)) /\
  dom (slots w') = dom (slots w) ∪ batch_ids batch /\
  (forall c, c ∈ batch -> cache_seq_id c ∈ dom (slots w')) /\
  (forall c', c' ∈ b -> cache_seq_id c' ∈ dom (slots w')) /\
  (forall seq_id, seq_id ∈ dom (slots w) ->
     slots w' !! seq_id = slots w !! seq_id) /\
  (forall seq_id, seq_id ∉ dom (slots w) -> seq_id ∈ batch_ids batch ->
     slots w' !! seq_id = Some 0%nat) /\
  exists evs,
    trace w' = trace w ++ evs /\
    NoDup (claimed_ids evs) /\
    (forall seq_id,
       seq_id ∈ claimed_ids evs <->
       seq_id ∈ batch_ids batch /\ seq_id ∉ dom (slots w)).
Proof.
  intros (Hids & Hd & Hkeep & Hnew & Hev)%prepare_batch_slots.
  split_and!; try done.
  - intros c w0. split; [apply claim_cache_row_run|].
    intros Hc. unfold claimed_world. by rewrite bool_decide_eq_true_2.
  - intros c Hc. rewrite Hd. apply elem_of_union_r.
    unfold batch_ids. apply elem_of_list_to_set, list_elem_of_fmap.
    by exists c.
  - intros c' Hc'. rewrite Hd. apply elem_of_union_r.
    unfold batch_ids. rewrite <- Hids.
    apply elem_of_list_to_set, list_elem_of_fmap. by exists c'.
Qed.

(** ** [prepare_batch]: trimmed prompts *)

Lemma drop_length_le {A} k (l : list A) :
  drop (length l - length (drop k l)) l = drop k l.
Proof.
  rewrite length_drop.
  destruct (decide (k <= length l)%nat) as [Hle|Hgt].
  - f_equal. lia.
  - rewrite !drop_ge by lia. done.
Qed.

(** C5: in a batch of distinct cache ids, when the fetch leaves a context
    [trimmed] of its pending tokens, [k] tokens fewer than it had, then
    preparation bumps the token indices of the context by exactly [k] (and
    does not touch a context with [k = 0]): the untrimmed length is the
    trimmed length plus the bump, and the pending tokens of the context are
    the trimmed ones. *)
Theorem prepare_batch_bump_equals_trim (p : Pipe) (batch : list Ctx)
    n w w' b mi n' bm :
  prepare_batch p batch n w = (w', Ok (b, mi, n', bm)) ->
  NoDup (cache_seq_id <$> batch) ->
  exists pending evs,
    trace w' = trace w ++ evs ++ [Fetch pending n'] /\
    forall i c, batch !! i = Some c ->
      exists c1 c' trimmed (k : nat),
        gathered_context p c = Ok c1 /\
        b !! i = Some c' /\
        pending !! cache_seq_id c = Some (next_tokens c1) /\
        trimmed
        = drop (cached_prefix (kv_manager (_pipeline_model p)) (slots w')
                  (cache_seq_id c) (next_tokens c1)) (next_tokens c1) /\
        length trimmed = (length (next_tokens c1) - k)%nat /\
        (k <= length (next_tokens c1))%nat /\
        active_length c1 = Z.of_nat (length trimmed) + Z.of_nat k /\
        c' = (if decide (k = 0%nat) then c1
              else bump_token_indices (Z.of_nat k) c1) /\
        start_idx c' = (start_idx c1 + k)%nat /\
        next_tokens c' = trimmed.
Proof.
  intros (alloc & w1 & b1 & g & _ & Hg & -> & _ & Ht & -> & _)%prepare_batch_ok
    Hnodup.
  pose proof (gather_batch_ok _ _ _ _ _ _ _ _ Hg)
    as (HF2 & _ & _ & _ & Hlook & _).
  apply gather_batch_world in Hg as (_ & _ & _ & evs & Hev & _).
  apply trim_prompts_ok in Ht.
  pose proof (gathered_ids _ _ _ HF2) as Hids.
  rewrite <- Hids in Hnodup. specialize (Hlook Hnodup).
  exists (seq_ids_and_prompts g), evs. simpl. split.
  { by rewrite Hev, app_assoc. }
  intros i c Hi.
  destruct (Forall2_lookup_l _ _ _ _ _ HF2 Hi) as (c1 & Hi1 & Hc1).
  destruct (Forall2_lookup_l _ _ _ _ _ Ht Hi1) as (c' & Hi' & Hc').
  assert (Hin : c1 ∈ b1) by (by eapply list_elem_of_lookup_2).
  destruct (Hlook c1 Hin) as [Hp Hu].
  apply trim_prompt_ok in Hc' as (u & pr & Hu' & Hp' & Hc').
  rewrite Hu in Hu'. injection Hu' as <-.
  rewrite map_lookup_imap, Hp in Hp'. simpl in Hp'. injection Hp' as <-.
  pose proof (gathered_context_fields _ _ _ Hc1) as (Hid & _).
  rewrite Hid in *.
  set (trimmed := drop _ (next_tokens c1)) in *.
  exists c1, c', trimmed, (length (next_tokens c1) - length trimmed)%nat.
  assert (Hlen : (length trimmed <= length (next_tokens c1))%nat).
  { subst trimmed. rewrite length_drop. lia. }
  assert (Hbump : active_length c1 - Z.of_nat (length trimmed)
                  = Z.of_nat (length (next_tokens c1) - length trimmed)).
  { unfold active_length. lia. }
  rewrite Hbump in Hc'.
  assert (Hstart : start_idx c'
                   = (start_idx c1
                      + (length (next_tokens c1) - length trimmed))%nat).
  { rewrite Hc'.
    destruct (Z.gtb_spec (Z.of_nat (length (next_tokens c1)
                                    - length trimmed)) 0); simpl; lia. }
  split_and!.
  - done.
  - done.
  - done.
  - done.
  - lia.
  - lia.
  - unfold active_length. lia.
  - rewrite Hc'. destruct (decide _) as [Hz|Hnz].
    + by rewrite Hz.
    + destruct (Z.gtb_spec (Z.of_nat (length (next_tokens c1)
                                      - length trimmed)) 0); [done|lia].
  - done.
  - unfold next_tokens at 1. rewrite Hstart.
    assert (Htok : tokens c' = tokens c1).
    { rewrite Hc'. by destruct (_ >? 0). }
    rewrite Htok, <- drop_drop. fold (next_tokens c1).
    subst trimmed. apply drop_length_le.
Qed.

(** ** [prepare_batch]: the errors *)

Lemma gathered_context_raise (p : Pipe) (c : Ctx) e :
  gathered_context p c = Raise e ->
  (e = ValueError SchemaButNoConstrainedDecoding /\ schema_refused p c) \/
  (e = AttributeError /\ tokenizer p = None /\
   (is_Some (matcher c) \/
    enable_structured_output (_pipeline_config p) = true)).
Proof.
  unfold gathered_context, bind.
  destruct (initialize_matcher p c (mkWorld ∅ [])) as [w0 [c0|e0]] eqn:E;
    simpl.
  - intros Hj. right.
    assert (Hm : matcher c0 = matcher c \/
                 enable_structured_output (_pipeline_config p) = true).
    { unfold initialize_matcher in E.
      destruct (wants_matcher c); [|left; by injection E as _ <-].
      destruct (enable_structured_output (_pipeline_config p)); [by right|].
      discriminate. }
    unfold jump_forward in Hj.
    destruct (matcher c0) as [m|] eqn:Em; [|discriminate].
    destruct (nonempty (find_jump_forward_string m)); [|discriminate].
    destruct (tokenizer p); [discriminate|].
    injection Hj as <-. split_and!; [done|done|].
    destruct Hm as [<-|]; [left; by eexists | by right].
  - intros [= ->]. left.
    unfold initialize_matcher in E.
    destruct (wants_matcher c) as [schema|] eqn:Ew; [|discriminate].
    unfold schema_refused. rewrite Ew.
    destruct (enable_structured_output (_pipeline_config p)); simpl in E.
    + destruct (_grammar_compiler p) as [compile|];
        unfold bind, emit, ret in E; simpl in E.
      * destruct (compile schema); discriminate.
      * discriminate.
    + injection E as _ <-. by split_and!.
Qed.

Lemma schema_refused_raise (p : Pipe) (c : Ctx) :
  schema_refused p c ->
  gathered_context p c = Raise (ValueError SchemaButNoConstrainedDecoding).
Proof.
  intros [[schema Hs] He].
  unfold gathered_context, bind, initialize_matcher.
  by rewrite Hs, He.
Qed.

Lemma gather_batch_raise (p : Pipe) (batch : list Ctx) : forall i g w w' e,
  gather_batch p i batch g w = (w', Raise e) ->
  exists c, c ∈ batch /\
    (gathered_context p c = Raise e \/
     exists c1, gathered_context p c = Ok c1 /\
       num_available_steps p c1 <= 0 /\
       e = ValueError (RequestLengthExceedsMax (cache_seq_id c)
                         (current_length c1)
                         (calculate_max_seq_len (_pipeline_model p)))).
Proof.
  induction batch as [|c rest IH]; intros i g w w' e H; [discriminate|].
  simpl in H. apply bind_raise in H as [H|(w1 & [c1 g1] & H1 & H)].
  - exists c. split; [by left|].
    rewrite gather_context_run in H.
    destruct (gathered_context p c) as [c1|e1] eqn:Eg.
    + simpl in H.
      destruct (calculate_num_steps p (num_steps_of g) c1) eqn:En;
        [discriminate|].
      injection H as _ <-.
      apply calculate_num_steps_raise in En as (Hle & ->).
      right. exists c1.
      apply gathered_context_fields in Eg as (-> & _). done.
    + injection H as _ <-. by left.
  - apply bind_raise in H as [H|(w2 & r & _ & H)]; [|discriminate].
    apply IH in H as (c' & Hin & Hc'). exists c'. split; [by right|done].
Qed.

Lemma gather_batch_offending (p : Pipe) (batch : list Ctx) c :
  c ∈ batch ->
  (is_ok (gathered_context p c) = false \/
   exists c1, gathered_context p c = Ok c1 /\ num_available_steps p c1 <= 0) ->
  forall i g w, exists e, snd (gather_batch p i batch g w) = Raise e.
Proof.
  intros Hin Hoff.
  induction batch as [|c0 rest IH]; intros i g w; [by inversion Hin|].
  simpl. unfold bind at 1.
  destruct (gather_context p i c0 g w) as [w1 [[c1 g1]|e]] eqn:E;
    [|by exists e].
  apply elem_of_cons in Hin as [->|Hin].
  - apply gather_context_ok in E as (Hg & Hn & _).
    destruct Hoff as [Hoff|(c1' & Hg' & Hle)].
    + by rewrite Hg in Hoff.
    + rewrite Hg in Hg'. injection Hg' as <-.
      by rewrite calculate_num_steps_exhausted in Hn.
  - destruct (IH Hin (S i) g1 w1) as [e He]. unfold bind. simpl.
    destruct (gather_batch p (S i) rest g1 w1) as [w2 [r|e']];
      simpl in He; [discriminate|]. by exists e'.
Qed.

Lemma trim_prompts_total prompts untrimmed (b1 : list Ctx) :
  (forall c1, c1 ∈ b1 ->
     cache_seq_id c1 ∈ dom prompts /\ cache_seq_id c1 ∈ dom untrimmed) ->
  exists b, trim_prompts prompts untrimmed b1 = Ok b.
Proof.
  induction b1 as [|c1 b1 IH]; intros Hdom; [by exists []|].
  destruct (Hdom c1) as [[pr Hp]%elem_of_dom [u Hu]%elem_of_dom]; [by left|].
  destruct IH as [b Hb]; [intros c' Hc'; apply Hdom; by right|].
  simpl. unfold trim_prompt, getitem. rewrite Hu, Hp. simpl. rewrite Hb.
  simpl. by eexists.
Qed.

(** Once the first loop completes, so does preparation: the fetch finds
    every id claimed, the trimming finds every id in both dictionaries. *)
Lemma prepare_batch_completes (p : Pipe) (batch : list Ctx) n w alloc w1 b1 g :
  initial_bitmask p (length batch) w = (w, Ok alloc) ->
  gather_batch p 0 batch (mkGathered alloc ∅ ∅ n) w = (w1, Ok (b1, g)) ->
  exists b mi,
    prepare_batch p batch n w
    = (mkWorld (slots w1)
         (trace w1 ++ [Fetch (seq_ids_and_prompts g) (num_steps_of g)]),
       Ok (b, mi, num_steps_of g, bitmask g)).
Proof.
  intros Ha Hg.
  pose proof (gather_batch_ok _ _ _ _ _ _ _ _ Hg)
    as (_ & _ & _ & _ & _ & Hdp & Hdu).
  pose proof (gather_batch_world _ _ _ _ _ _ _ _ Hg) as (Hds & _).
  simpl in Hdp, Hdu.
  rewrite dom_empty_L, union_empty_l_L in Hdp.
  rewrite dom_empty_L, union_empty_l_L in Hdu.
  set (trimmed := map_imap (fun seq_id prompt =>
         Some (drop (cached_prefix (kv_manager (_pipeline_model p))
                       (slots w1) seq_id prompt) prompt))
         (seq_ids_and_prompts g)).
  destruct (trim_prompts_total trimmed (seq_ids_and_untrimmed_lengths g) b1)
    as [b Hb].
  { intros c1 Hc1.
    assert (Hin : cache_seq_id c1 ∈ batch_ids b1).
    { unfold batch_ids. apply elem_of_list_to_set, list_elem_of_fmap.
      by exists c1. }
    split; [|by rewrite Hdu].
    rewrite <- Hdp in Hin. apply elem_of_dom in Hin as [pr Hpr].
    apply elem_of_dom. unfold trimmed. rewrite map_lookup_imap, Hpr.
    simpl. by eexists. }
  exists b. eexists.
  unfold prepare_batch, bind. rewrite Ha, Hg. simpl.
  unfold fetch, bind, emit, get_slots. simpl.
  rewrite bool_decide_eq_true_2 by (rewrite Hdp, Hds; set_solver).
  unfold ret, lift. simpl. fold trimmed. rewrite Hb. reflexivity.
Qed.

Lemma prepare_batch_raise (p : Pipe) (batch : list Ctx) n w w' e :
  prepare_batch p batch n w = (w', Raise e) ->
  (e = AssertionError /\ w' = w /\
   enable_structured_output (_pipeline_config p) = true /\
   vocab_size p = None) \/
  exists alloc,
    initial_bitmask p (length batch) w = (w, Ok alloc) /\
    gather_batch p 0 batch (mkGathered alloc ∅ ∅ n) w = (w', Raise e).
Proof.
  intros H.
  destruct (initial_bitmask p (length batch) w) as [w0 [alloc|e0]] eqn:Ea.
  - pose proof (initial_bitmask_ok _ _ _ _ _ Ea) as (-> & _).
    right. exists alloc. split; [done|].
    destruct (gather_batch p 0 batch (mkGathered alloc ∅ ∅ n) w)
      as [w1 [[b1 g]|e1]] eqn:Eg.
    + destruct (prepare_batch_completes _ _ _ _ _ _ _ _ Ea Eg)
        as (b & mi & Hp).
      rewrite Hp in H. discriminate.
    + unfold prepare_batch, bind in H. rewrite Ea, Eg in H.
      by injection H as -> ->.
  - left. unfold prepare_batch, bind in H. rewrite Ea in H.
    injection H as <- <-.
    unfold initial_bitmask in Ea.
    destruct (enable_structured_output (_pipeline_config p));
      [|discriminate].
    destruct (vocab_size p); [discriminate|].
    by injection Ea as <- <-.
Qed.

(** ** What preparation logs and calls *)

Lemma performs_gather_context (p : Pipe) i (c : Ctx) g :
  performs preparation_event (fun _ => True) (gather_context p i c g).
Proof.
  intros w. rewrite gather_context_run.
  assert (Hwarn : Forall preparation_event (gathered_events p c)).
  { destruct (gathered_events_cases p c) as [->|(s & _ & [->|[->| ->]])];
      repeat constructor. }
  destruct (gathered_context p c) as [c1|e]; simpl.
  - assert (Hw : exists evs,
        trace (claimed_world (cache_seq_id c1)
                 (mkWorld (slots w) (trace w ++ gathered_events p c)))
        = trace w ++ evs /\ Forall preparation_event evs /\
        dom (slots w)
        ⊆ dom (slots (claimed_world (cache_seq_id c1)
                 (mkWorld (slots w) (trace w ++ gathered_events p c))))).
    { unfold claimed_world. simpl. destruct (bool_decide _); simpl.
      - exists (gathered_events p c). by split_and!.
      - exists (gathered_events p c ++ [ExternalClaim [cache_seq_id c1]]).
        split_and!.
        + by rewrite app_assoc.
        + apply Forall_app. split; [done|]. by repeat constructor.
        + rewrite dom_insert_L. set_solver. }
    destruct Hw as (evs & Ht & Hf & Hs).
    exists evs.
    destruct (calculate_num_steps p (num_steps_of g) c1); simpl;
      by split_and!.
  - exists (gathered_events p c). by split_and!.
Qed.

Lemma performs_gather_batch (p : Pipe) (batch : list Ctx) : forall i g,
  performs preparation_event (fun _ => True) (gather_batch p i batch g).
Proof.
  induction batch as [|c rest IH]; intros i g; simpl.
  - by apply performs_ret.
  - eapply performs_bind; [apply performs_gather_context|].
    intros r _. eapply performs_bind; [apply IH|].
    intros r' _. by apply performs_ret.
Qed.

Lemma performs_fetch (m : @KVCacheManager Payload KVCacheInputs) pending n :
  performs preparation_event (fun _ => True) (fetch m pending n).
Proof.
  intros w. unfold fetch, bind, emit, get_slots. simpl.
  exists [Fetch pending n].
  destruct (bool_decide _); simpl;
    (split_and!; [done | by repeat constructor | done | done]).
Qed.

Lemma performs_initial_bitmask (p : Pipe) k :
  performs preparation_event (fun _ => True) (initial_bitmask p k).
Proof.
  unfold initial_bitmask.
  destruct (enable_structured_output (_pipeline_config p));
    [destruct (vocab_size p)|];
    first [by apply performs_ret | apply performs_raise].
Qed.

Lemma performs_prepare_batch (p : Pipe) (batch : list Ctx) n :
  performs preparation_event (fun _ => True) (prepare_batch p batch n).
Proof.
  unfold prepare_batch.
  eapply performs_bind; [apply performs_initial_bitmask|]. intros alloc _.
  eapply performs_bind; [apply performs_gather_batch|]. intros r _.
  eapply performs_bind; [apply performs_fetch|]. intros f _.
  eapply performs_bind; [by apply (performs_lift _ (fun _ => True))|].
  intros b _. by apply performs_ret.
Qed.

(** ** The response *)

Lemma update_fields (t : Z) (lp : option LogProbabilities) (e : bool) (c : Ctx) :
  tokens (update t lp e c) = tokens c ++ [t] /\
  current_length (update t lp e c) = current_length c + 1 /\
  max_length (update t lp e c) = max_length c /\
  cache_seq_id (update t lp e c) = cache_seq_id c /\
  fst <$> completion (update t lp e c) = (fst <$> completion c) ++ [t].
Proof.
  unfold current_length. simpl. rewrite length_app, fmap_app. simpl.
  split_and!; try done. lia.
Qed.

(** The walk over the generated tokens of one context: the tokens written,
    and the status after each of them. *)
Lemma walk_steps_ok (p : Pipe) compute_lp all_lp host bi :
  forall remaining step_index (c c' : Ctx) st,
  walk_steps p compute_lp all_lp host bi remaining step_index c
  = Ok (c', st) ->
  exists toks,
    tokens c' = tokens c ++ toks /\
    fst <$> completion c' = (fst <$> completion c) ++ toks /\
    max_length c' = max_length c /\
    cache_seq_id c' = cache_seq_id c /\
    (length toks <= remaining)%nat /\
    (forall row, host !! bi = Some row ->
       toks = take (length toks) (drop step_index row)) /\
    (toks <> [] -> is_Some (host !! bi)) /\
    (st = ACTIVE -> length toks = remaining) /\
    (toks = [] -> st = ACTIVE) /\
    (toks <> [] ->
     exists bound,
       upper_bounded_default (calculate_max_seq_len (_pipeline_model p))
         (max_length c) = Ok bound /\
       forall j t, toks !! j = Some t ->
         completion_status (bool_decide (t ∈ _eos_token_id p))
           (current_length c + Z.of_nat (S j)) bound
         = if decide (S j = length toks) then st else ACTIVE).
Proof.
  induction remaining as [|remaining IH]; intros step_index c c' st H.
  - injection H as <- <-. exists []. rewrite !app_nil_r.
    by split_and!.
  - simpl in H.
    destruct (index host bi) as [row|] eqn:Erow; [|discriminate].
    simpl in H.
    destruct (index row step_index) as [t|] eqn:Et; [|discriminate].
    simpl in H.
    destruct (log_probs_of_step compute_lp all_lp bi step_index)
      as [lp|]; [|discriminate].
    simpl in H.
    set (c1 := update t lp (bool_decide (t ∈ _eos_token_id p)) c) in *.
    destruct (update_fields t lp (bool_decide (t ∈ _eos_token_id p)) c)
      as (Htok & Hlen & Hmax & Hid & Hcomp). fold c1 in Htok, Hlen, Hmax, Hid, Hcomp.
    destruct (upper_bounded_default
                (calculate_max_seq_len (_pipeline_model p)) (max_length c))
      as [bound|] eqn:Eb; [|discriminate].
    simpl in H.
    unfold index in Erow, Et.
    destruct (host !! bi) as [row'|] eqn:Ehost; [|discriminate].
    injection Erow as ->.
    destruct (row !! step_index) as [t'|] eqn:Erow; [|discriminate].
    injection Et as ->.
    assert (Hdrop : drop step_index row = t :: drop (S step_index) row).
    { by apply drop_S. }
    destruct (is_done (completion_status (bool_decide (t ∈ _eos_token_id p))
                         (current_length c1) bound)) eqn:Ed.
    + injection H as <- <-. exists [t].
      split_and!.
      * done.
      * done.
      * done.
      * done.
      * simpl. lia.
      * intros row0 [= <-]. by rewrite Hdrop.
      * intros _. by eexists.
      * intros Hst. rewrite Hst in Ed. discriminate.
      * discriminate.
      * intros _. exists bound. split; [done|].
        intros j t0 Hj. destruct j as [|j]; [|done].
        injection Hj as <-. simpl. by rewrite Hlen.
    + apply IH in H
        as (toks & H1 & H2 & H3 & H4 & H5 & H6 & H7 & H8 & H9 & H10).
      exists (t :: toks).
      split_and!.
      * by rewrite H1, Htok, <- app_assoc.
      * by rewrite H2, Hcomp, <- app_assoc.
      * congruence.
      * congruence.
      * simpl. lia.
      * intros row0 [= <-]. rewrite Hdrop. simpl. f_equal. by apply H6.
      * intros _. by eexists.
      * intros Hst. simpl. by rewrite H8.
      * discriminate.
      * intros _. exists bound. split; [done|].
        intros j t0 Hj. destruct j as [|j].
        -- injection Hj as <-. rewrite Hlen in Ed.
           replace (current_length c + Z.of_nat 1) with (current_length c + 1)
             by lia.
           destruct (completion_status _ _ _) eqn:Es; try discriminate.
           destruct (decide (1%nat = length (t :: toks))) as [Heq|]; [|done].
           simpl in Heq. destruct toks; [|discriminate]. by rewrite H9.
        -- simpl in Hj.
           destruct toks as [|t1 toks1] eqn:Etoks; [done|].
           destruct H10 as (bound' & Hb' & Hst); [done|].
           rewrite Hmax, Eb in Hb'. injection Hb' as <-.
           specialize (Hst j t0 Hj). rewrite Hlen in Hst.
           replace (current_length c + Z.of_nat (S (S j)))
             with (current_length c + 1 + Z.of_nat (S j)) by lia.
           rewrite Hst. simpl.
           destruct (decide (S j = S (length toks1)));
             destruct (decide (S (S j) = S (S (length toks1)))); try done; lia.
Qed.

Lemma respond_ok (p : Pipe) compute_lp all_lp host n bi (c c' : Ctx) resp :
  respond p compute_lp all_lp host n bi c = Ok (c', resp) ->
  exists c1,
    walk_steps p compute_lp all_lp host bi (Z.to_nat n) 0 c
    = Ok (c1, final_status resp) /\
    response_tokens resp = completion c1 /\
    tokens c' = tokens c1 /\ completion c' = [].
Proof.
  unfold respond.
  destruct (walk_steps p compute_lp all_lp host bi (Z.to_nat n) 0 c)
    as [[c1 st]|]; [|discriminate].
  simpl. intros [= <- <-]. by exists c1.
Qed.

Lemma prepare_response_ok (p : Pipe) compute_lp all_lp host n :
  forall (batch : list (string * Ctx)) bi res batch' res',
  prepare_response p compute_lp all_lp host n bi batch res
  = Ok (batch', res') ->
  NoDup (fst <$> batch) ->
  (forall rid, rid ∉ fst <$> batch -> res' !! rid = res !! rid) /\
  forall i rid c, batch !! i = Some (rid, c) ->
    exists c' resp,
      batch' !! i = Some (rid, c') /\ res' !! rid = Some resp /\
      respond p compute_lp all_lp host n (bi + i) c = Ok (c', resp).
Proof.
  induction batch as [|[rid0 c0] rest IH]; intros bi res batch' res' H Hnd.
  - injection H as <- <-. split; [done|]. intros i rid c Hi. done.
  - simpl in H.
    destruct (respond p compute_lp all_lp host n bi c0) as [[c0' resp0]|]
      eqn:E0; [|discriminate].
    simpl in H.
    destruct (prepare_response p compute_lp all_lp host n (S bi) rest
                (<[rid0:=resp0]> res)) as [[rest' res1]|] eqn:E1;
      [|discriminate].
    simpl in H. injection H as <- <-.
    rewrite fmap_cons in Hnd. apply NoDup_cons in Hnd as [Hfresh Hnd].
    simpl in Hfresh.
    destruct (IH _ _ _ _ E1 Hnd) as [Hframe Hlook].
    split.
    + intros rid Hrid. rewrite fmap_cons in Hrid.
      apply not_elem_of_cons in Hrid as [Hne Hrid]. simpl in Hne.
      rewrite Hframe by done. by rewrite lookup_insert_ne.
    + intros i rid c Hi. destruct i as [|i]; simpl in Hi.
      * injection Hi as <- <-. exists c0', resp0.
        rewrite Nat.add_0_r. split_and!; [done| |done].
        rewrite Hframe by done. by rewrite lookup_insert_eq.
      * destruct (Hlook i rid c Hi) as (c' & resp & Hb & Hr & Hresp).
        exists c', resp. split_and!; [done|done|].
        by replace (bi + S i)%nat with (S bi + i)%nat by lia.
Qed.

(** What the response says about one context. *)
Lemma respond_spec (p : Pipe) compute_lp all_lp host n bi (c c' : Ctx) resp :
  respond p compute_lp all_lp host n bi c = Ok (c', resp) ->
  finalized p (host !! bi) n c c' resp.
Proof.
  intros (c1 & Hw & Hr & Ht & _)%respond_ok.
  apply walk_steps_ok in Hw
    as (toks & H1 & H2 & H3 & H4 & H5 & H6 & H7 & H8 & H9 & H10).
  unfold finalized. exists toks.
  assert (Hlen : current_length c' = current_length c + Z.of_nat (length toks)).
  { unfold current_length. rewrite Ht, H1, length_app. lia. }
  assert (Hlast : forall t, last toks = Some t ->
            exists bound,
              upper_bounded_default (calculate_max_seq_len (_pipeline_model p))
                (max_length c) = Ok bound /\
              completion_status (bool_decide (t ∈ _eos_token_id p))
                (current_length c') bound = final_status resp).
  { intros t Hlast. destruct H10 as (bound & Hb & Hst).
    { intros ->. discriminate. }
    exists bound. split; [done|].
    rewrite last_lookup in Hlast.
    assert (Hpos : (0 < length toks)%nat).
    { destruct toks; [discriminate|simpl; lia]. }
    specialize (Hst _ _ Hlast).
    replace (S (Init.Nat.pred (length toks))) with (length toks) in Hst by lia.
    rewrite decide_True in Hst by done. by rewrite Hlen. }
  split_and!.
  - by rewrite Ht.
  - by rewrite Hr.
  - done.
  - intros row Hrow. rewrite (H6 row Hrow) at 1. by rewrite drop_0.
  - done.
  - done.
  - done.
  - split.
    + intros Hst.
      destruct (last toks) as [t|] eqn:El.
      * destruct (Hlast t eq_refl) as (bound & Hb & Hs).
        exists t. split; [done|]. rewrite Hst in Hs.
        unfold completion_status in Hs.
        destruct (bool_decide (t ∈ _eos_token_id p)) eqn:Eb.
        -- by apply bool_decide_eq_true_1 in Eb.
        -- by destruct (_ =? _).
      * apply last_None in El. rewrite (H9 El) in Hst. discriminate.
    + intros (t & El & Hin). destruct (Hlast t El) as (bound & Hb & Hs).
      rewrite <- Hs. unfold completion_status.
      by rewrite bool_decide_eq_true_2.
  - split.
    + intros Hst.
      destruct (last toks) as [t|] eqn:El.
      * destruct (Hlast t eq_refl) as (bound & Hb & Hs).
        exists t, bound. rewrite Hst in Hs.
        unfold completion_status in Hs.
        destruct (bool_decide (t ∈ _eos_token_id p)) eqn:Eb; [discriminate|].
        apply bool_decide_eq_false_1 in Eb.
        destruct (Z.eqb_spec (current_length c') bound); [|discriminate].
        by split_and!.
      * apply last_None in El. rewrite (H9 El) in Hst. discriminate.
    + intros (t & bound & El & Hnotin & Hb & Hcur).
      destruct (Hlast t El) as (bound' & Hb' & Hs).
      rewrite Hb in Hb'. injection Hb' as <-.
      rewrite <- Hs. unfold completion_status.
      rewrite bool_decide_eq_false_2 by done.
      by rewrite (proj2 (Z.eqb_eq _ _) Hcur).
Qed.

Lemma prepare_batch_length (p : Pipe) (batch : list Ctx) n w w' b mi n' bm :
  prepare_batch p batch n w = (w', Ok (b, mi, n', bm)) ->
  length b = length batch.
Proof.
  intros (alloc & w1 & b1 & g & _ & Hg & _ & _ & Ht & _)%prepare_batch_ok.
  apply gather_batch_ok in Hg as (HF2 & _).
  apply trim_prompts_ok in Ht.
  apply Forall2_length in HF2, Ht. lia.
Qed.

Lemma gathered_context_plain (p : Pipe) (c : Ctx) :
  json_schema c = None -> matcher c = None -> gathered_context p c = Ok c.
Proof.
  intros Hs Hm.
  unfold gathered_context, bind, initialize_matcher, wants_matcher.
  rewrite Hs. simpl. unfold jump_forward. by rewrite Hm.
Qed.

(** The bitmask of a preparation that completes. *)
Lemma prepare_batch_bitmask (p : Pipe) (batch : list Ctx) n w w1 b mi n' bm :
  prepare_batch p batch n w = (w1, Ok (b, mi, n', bm)) ->
  (bm = None <-> enable_structured_output (_pipeline_config p) = false) /\
  (enable_structured_output (_pipeline_config p) = true ->
   (forall c, c ∈ batch -> json_schema c = None /\ matcher c = None) ->
   exists v, vocab_size p = Some v /\
     bm = Some (torch_full (get_bitmask_shape (length batch) v) (-1))).
Proof.
  intros (alloc & w0 & b1 & g & Ha & Hg & _ & _ & _ & _ & ->)%prepare_batch_ok.
  apply initial_bitmask_ok in Ha as (_ & Hnone & Hsome).
  pose proof (gather_batch_ok _ _ _ _ _ _ _ _ Hg) as (HF2 & _).
  apply gather_batch_bitmask in Hg as (Hb1 & _ & Hb3). simpl in *.
  split; [by rewrite Hb1|].
  intros He Hplain. destruct (Hsome He) as (v & Hv & ->).
  exists v. split; [done|]. apply Hb3.
  intros c1 (i & Hi)%list_elem_of_lookup.
  destruct (Forall2_lookup_r _ _ _ _ _ HF2 Hi) as (c & Hc & Hgc).
  destruct (Hplain c) as [Hs Hm]; [by eapply list_elem_of_lookup_2|].
  rewrite gathered_context_plain in Hgc by done. by injection Hgc as <-.
Qed.

Lemma offending_raises (p : Pipe) (batch : list Ctx) n w c :
  c ∈ batch -> schema_refused p c \/ out_of_steps p c ->
  exists e, snd (prepare_batch p batch n w) = Raise e.
Proof.
  intros Hin Hoff.
  assert (Hg : is_ok (gathered_context p c) = false \/
    exists c1, gathered_context p c = Ok c1 /\ num_available_steps p c1 <= 0).
  { destruct Hoff as [Hr|Ho].
    - left. by rewrite (schema_refused_raise _ _ Hr).
    - destruct (gathered_context p c) as [c1|e] eqn:E; [|by left].
      right. exists c1. split; [done|].
      apply gathered_context_available in E. unfold out_of_steps in Ho. lia. }
  unfold prepare_batch, bind at 1.
  destruct (initial_bitmask p (length batch) w) as [w0 [alloc|e]];
    [|by exists e].
  destruct (gather_batch_offending p batch c Hin Hg 0
              (mkGathered alloc ∅ ∅ n) w0) as [e He].
  unfold bind at 1.
  destruct (gather_batch p 0 batch (mkGathered alloc ∅ ∅ n) w0)
    as [w1 [r|e']]; simpl in He; [discriminate|]. by exists e'.
Qed.

Lemma count_events_app kind (evs evs' : list Event) :
  count_events kind (evs ++ evs')
  = (count_events kind evs + count_events kind evs')%nat.
Proof. unfold count_events. by rewrite List.filter_app, length_app. Qed.

Lemma unmasked_is_decode_event e : unmasked_decode_event e -> decode_event e.
Proof. by destruct e as [| | | | |[]| | | | | |]. Qed.

Lemma dom_imap_total {B} (f : Z -> nat -> B) (m : gmap Z nat) :
  dom (map_imap (fun i x => Some (f i x)) m) = dom m.
Proof.
  apply dom_imap_L. intros i. rewrite elem_of_dom. split.
  - intros [x Hx]. exists x. split; [done | by eexists].
  - intros (x & Hx & _). by exists x.
Qed.

Lemma count_events_none (P : Event -> Prop) kind (evs : list Event) :
  (forall e, P e -> kind e = false) -> Forall P evs ->
  count_events kind evs = 0%nat.
Proof.
  intros HP. unfold count_events.
  induction 1 as [|e evs He _ IH]; [done|]. simpl. by rewrite (HP e He).
Qed.

Lemma preparation_event_kinds e :
  preparation_event e ->
  is_execute e = false /\ is_sample e = false /\ is_to_numpy e = false /\
  is_release e = false /\ is_compute_log_probabilities e = false.
Proof. by destruct e as [[]| | | | | | | | | | |]. Qed.

Lemma decode_event_kinds e :
  decode_event e -> is_to_numpy e = false /\ is_release e = false.
Proof. by destruct e as [[]| | | | | | | | | | |]. Qed.

Ltac count_none :=
  repeat match goal with
  | |- context [count_events ?k (?a ++ ?b)] =>
      rewrite (count_events_app k a b)
  | H : Forall preparation_event ?l |- context [count_events ?k ?l] =>
      rewrite (count_events_none preparation_event k l) by
        first [ assumption
              | intros ? ?%preparation_event_kinds; intuition ]
  | H : Forall decode_event ?l |- context [count_events ?k ?l] =>
      rewrite (count_events_none decode_event k l) by
        first [ assumption
              | intros ? ?%decode_event_kinds; intuition ]
  end.

(** ** The decode loop: what it logs and calls *)

Variable unpack_device_tensor :
  nat -> nat -> list (list bool) -> result (list (list bool)).

Lemma expand_bitmask_run (p : Pipe) k bm w :
  expand_bitmask unpack_device_tensor p k bm w
  = (w, snd (expand_bitmask unpack_device_tensor p k bm (mkWorld ∅ []))).
Proof.
  unfold expand_bitmask. destruct bm as [b|]; [|done].
  destruct (vocab_size p) as [v|]; [|done].
  destruct b as [rows|rows]; [done|].
  unfold bind, lift, ret. by destruct (unpack_device_tensor k v rows).
Qed.

(** One step, in closed form. *)
Lemma decode_step_run (p : Pipe) k compute_lp top_n echo st w :
  decode_step unpack_device_tensor p k compute_lp top_n echo st w
  = let outputs := execute (_pipeline_model p) (curr_step_inputs st) in
    let w1 := mkWorld (slots w) (trace w ++ [Execute]) in
    match next_token_logits outputs with
    | None => (w1, Raise AssertionError)
    | Some l =>
        match snd (expand_bitmask unpack_device_tensor p k (loop_bitmask st)
                     (mkWorld ∅ []))
        with
        | Raise e => (w1, Raise e)
        | Ok mask =>
            let w2 := mkWorld (slots w) (trace w ++ [Execute; Sample mask]) in
            match _sampler p l (generated_tokens st) mask with
            | Raise e => (w2, Raise e)
            | Ok sampled =>
                let done_with lps evs :=
                  (mkWorld (slots w)
                     (trace w ++ [Execute; Sample mask] ++ evs),
                   Ok (fst sampled,
                       mkLoopState (curr_step_inputs st) (DeviceMask <$> mask)
                         (snd sampled) lps)) in
                if compute_lp then
                  match compute_log_probabilities (_pipeline_model p)
                          (curr_step_inputs st) outputs (fst sampled)
                          top_n echo with
                  | Ok lp =>
                      done_with (batch_log_probabilities st ++ [lp])
                        [ComputeLogProbabilities]
                  | Raise NotImplementedError =>
                      done_with (batch_log_probabilities st ++ [None])
                        [ComputeLogProbabilities;
                         Warn UnableToComputeLogProbabilities]
                  | Raise e =>
                      (mkWorld (slots w)
                         (trace w ++ [Execute; Sample mask;
                                      ComputeLogProbabilities]),
                       Raise e)
                  end
                else done_with (batch_log_probabilities st) []
            end
        end
    end.
Proof.
  unfold decode_step, bind at 1, emit. simpl.
  destruct (next_token_logits _) as [l|]; [|done].
  unfold bind at 1. rewrite expand_bitmask_run.
  destruct (snd (expand_bitmask unpack_device_tensor p k (loop_bitmask st)
                   (mkWorld ∅ [])))
    as [mask|e]; [|done].
  unfold bind at 1, sample_logits, bind at 1, emit, lift. simpl.
  rewrite <- app_assoc. simpl.
  destruct (_sampler p l (generated_tokens st) mask) as [sampled|e]; [|done].
  destruct compute_lp.
  - unfold bind, emit, ret, raise. simpl.
    destruct (compute_log_probabilities _ _ _ _ _ _) as [lp|e]; simpl.
    + by rewrite <- !app_assoc.
    + destruct e; simpl; rewrite <- ?app_assoc; simpl; try done.
  - unfold bind, ret. simpl. by rewrite ?app_nil_r.
Qed.

Lemma decode_step_events (p : Pipe) k compute_lp top_n echo st w :
  exists evs,
    trace (fst (decode_step unpack_device_tensor p k compute_lp top_n echo st w))
    = trace w ++ evs /\
    slots (fst (decode_step unpack_device_tensor p k compute_lp top_n echo st w))
    = slots w /\
    Forall decode_event evs /\
    (loop_bitmask st = None -> Forall unmasked_decode_event evs) /\
    forall r,
      snd (decode_step unpack_device_tensor p k compute_lp top_n echo st w)
      = Ok r ->
      count_events is_execute evs = 1%nat /\
      count_events is_sample evs = 1%nat /\
      count_events is_compute_log_probabilities evs
      = (if compute_lp then 1%nat else 0%nat) /\
      (loop_bitmask st = None -> loop_bitmask (snd r) = None).
Proof.
  rewrite decode_step_run. simpl.
  destruct (next_token_logits _) as [l|].
  2:{ exists [Execute]. split_and!; try done; by repeat constructor. }
  destruct (snd (expand_bitmask unpack_device_tensor p k (loop_bitmask st)
                   (mkWorld ∅ []))) as [mask|e] eqn:Em.
  2:{ exists [Execute]. split_and!; try done; by repeat constructor. }
  assert (Hmask : loop_bitmask st = None -> mask = None).
  { intros Hn. rewrite Hn in Em. simpl in Em. by injection Em as <-. }
  destruct (_sampler p l (generated_tokens st) mask) as [sampled|e].
  2:{ exists [Execute; Sample mask]. split_and!; try done.
      - by repeat constructor.
      - intros ->%Hmask. by repeat constructor. }
  destruct compute_lp.
  - destruct (compute_log_probabilities _ _ _ _ _ _) as [lp|e].
    + exists [Execute; Sample mask; ComputeLogProbabilities].
      split_and!; try done.
      * by repeat constructor.
      * intros ->%Hmask. by repeat constructor.
      * intros r [= <-]. split_and!; try done.
        intros ->%Hmask. done.
    + destruct e;
        try (exists [Execute; Sample mask; ComputeLogProbabilities];
             split_and!; try done;
             [by repeat constructor
             |intros ->%Hmask; by repeat constructor]).
      exists [Execute; Sample mask; ComputeLogProbabilities;
              Warn UnableToComputeLogProbabilities].
      split_and!; try done.
      * by repeat constructor.
      * intros ->%Hmask. by repeat constructor.
      * intros r [= <-]. split_and!; try done.
        intros ->%Hmask. done.
  - exists [Execute; Sample mask]. split_and!; try done.
    + by repeat constructor.
    + intros ->%Hmask. by repeat constructor.
    + intros r [= <-]. split_and!; try done.
      intros ->%Hmask. done.
Qed.

Lemma advance_inputs_events (p : Pipe) new_tokens curr w :
  exists evs,
    trace (fst (advance_inputs p new_tokens curr w)) = trace w ++ evs /\
    slots (fst (advance_inputs p new_tokens curr w)) = slots w /\
    Forall unmasked_decode_event evs /\
    count_events is_execute evs = 0%nat /\
    count_events is_sample evs = 0%nat /\
    count_events is_compute_log_probabilities evs = 0%nat.
Proof.
  unfold advance_inputs.
  destruct (kv_cache_inputs_of curr) as [[l|x]|];
    try (exists []; rewrite app_nil_r; by split_and!).
  exists [IncrementCacheLengths; PrepareNextTokenInputs].
  unfold bind, increment_cache_lengths, bind, emit, ret, lift. simpl.
  rewrite <- app_assoc. split_and!; try done. by repeat constructor.
Qed.

(** The loop: its events are decode events, no sampling is masked when the
    loop starts without a bitmask, and a loop that completes has executed
    and sampled once per step. *)
Lemma multistep_loop_events (p : Pipe) k compute_lp top_n echo n :
  forall remaining i st w w' r,
  multistep_loop unpack_device_tensor p k compute_lp top_n echo
    n remaining i st w = (w', r) ->
  exists evs,
    trace w' = trace w ++ evs /\
    slots w' = slots w /\
    Forall decode_event evs /\
    (loop_bitmask st = None -> Forall unmasked_decode_event evs) /\
    forall st',
      r = Ok st' ->
      (remaining = 0%nat \/ i + Z.of_nat remaining = n) ->
      count_events is_execute evs = remaining /\
      count_events is_sample evs = remaining /\
      count_events is_compute_log_probabilities evs
      = (if compute_lp then remaining else 0%nat).
Proof.
  induction remaining as [|remaining IH]; intros i st w w' r H.
  - injection H as <- <-. exists []. rewrite app_nil_r.
    split_and!; try done. intros _ _ _. by destruct compute_lp.
  - simpl in H. unfold bind at 1 in H.
    destruct (decode_step_events p k compute_lp top_n echo st w)
      as (evs1 & Ht1 & Hs1 & Hd1 & Hu1 & Hok1).
    destruct (decode_step unpack_device_tensor p k compute_lp top_n echo st w)
      as [w1 [[toks st1]|e]]; simpl in *.
    2:{ injection H as <- <-. exists evs1. by split_and!. }
    destruct (Hok1 _ eq_refl) as (He1 & Hsa1 & Hc1 & Hb1).
    destruct (Z.eqb_spec i (n - 1)) as [Hlast|Hnot].
    { injection H as <- <-. exists evs1. split_and!; try done.
      intros st' _ [Hz|Hi]; [done|].
      assert (remaining = 0%nat) as -> by lia.
      by destruct compute_lp. }
    unfold bind at 1 in H.
    destruct (advance_inputs_events p toks (curr_step_inputs st1) w1)
      as (evs2 & Ht2 & Hs2 & Hd2 & He2 & Hsa2 & Hc2).
    destruct (advance_inputs p toks (curr_step_inputs st1) w1)
      as [w2 [next_inputs|e]]; simpl in *.
    2:{ injection H as <- <-. exists (evs1 ++ evs2). split_and!.
        - by rewrite Ht2, Ht1, app_assoc.
        - congruence.
        - apply Forall_app. split; [done|].
          eapply Forall_impl; [done|apply unmasked_is_decode_event].
        - intros Hn. apply Forall_app. auto.
        - done. }
    apply IH in H as (evs3 & Ht3 & Hs3 & Hd3 & Hu3 & Hok3).
    simpl in Hu3.
    exists (evs1 ++ evs2 ++ evs3). split_and!.
    + by rewrite Ht3, Ht2, Ht1, !app_assoc.
    + congruence.
    + repeat (apply Forall_app; split); try done.
      eapply Forall_impl; [done|apply unmasked_is_decode_event].
    + intros Hn. repeat (apply Forall_app; split); auto.
    + intros st' Hst' [Hz|Hi]; [done|].
      destruct (Hok3 st' Hst') as (He3 & Hsa3 & Hc3); [right; lia|].
      rewrite !count_events_app, He1, He2, He3, Hsa1, Hsa2, Hsa3,
        Hc1, Hc2, Hc3.
      by destruct compute_lp.
Qed.

(** ** [next_token], step by step *)

Lemma next_token_unfold (p : Pipe) (batch : list (string * Ctx)) n w :
  next_token unpack_device_tensor p batch n w
  = let ctxs := snd <$> batch in
    let top_n := log_probabilities <$> ctxs in
    let compute_lp := existsb (fun x => negb (x =? 0)) top_n in
    let echo := log_probabilities_echo <$> ctxs in
    match prepare_batch p ctxs n w with
    | (w1, Raise e) => (w1, Raise e)
    | (w1, Ok (b, mi, n', bm)) =>
        match multistep_loop unpack_device_tensor p (length b) compute_lp
                top_n echo n' (Z.to_nat n') 0
                (mkLoopState mi (PackedMask <$> bm)
                   (replicate (length b) []) []) w1 with
        | (w2, Raise e) => (w2, Raise e)
        | (w2, Ok st) =>
            match seq_ids_and_new_tokens (generated_tokens st) 0 b ∅ with
            | Raise e =>
                (mkWorld (slots w2) (trace w2 ++ [ToNumpy]), Raise e)
            | Ok d =>
                if bool_decide (dom d ⊆ dom (slots w2)) then
                  (mkWorld
                     (map_imap (fun seq_id k =>
                        Some (k + length (default [] (d !! seq_id)))%nat)
                        (slots w2))
                     (trace w2 ++ [ToNumpy; Step d]),
                   prepare_response p compute_lp (batch_log_probabilities st)
                     (generated_tokens st) n' 0 (zip (fst <$> batch) b) ∅)
                else
                  (mkWorld (slots w2) (trace w2 ++ [ToNumpy; Step d]),
                   Raise RuntimeError)
            end
        end
    end.
Proof.
  unfold next_token. simpl. unfold bind at 1.
  destruct (prepare_batch p (snd <$> batch) n w)
    as [w1 [[[[b mi] n'] bm]|e]]; [|done].
  unfold bind at 1.
  destruct (multistep_loop _ _ _ _ _ _ _ _ _ _ w1) as [w2 [st|e]]; [|done].
  unfold bind at 1, emit. simpl.
  unfold bind at 1, lift. simpl.
  destruct (seq_ids_and_new_tokens (generated_tokens st) 0 b ∅) as [d|e];
    [|done].
  unfold bind at 1, step, bind at 1, emit, bind at 1, get_slots. simpl.
  rewrite <- app_assoc. simpl.
  destruct (bool_decide (dom d ⊆ dom (slots w2))); [|done].
  unfold put_slots. simpl. done.
Qed.

(** The events and slots of a call of [next_token], whatever its outcome:
    preparation events, then decode events, then at most the copy to the
    host and the step of the cache manager. *)
Lemma next_token_structure (p : Pipe) (batch : list (string * Ctx)) n w w' r :
  next_token unpack_device_tensor p batch n w = (w', r) ->
  exists evs1 evs2 tail,
    trace w' = trace w ++ evs1 ++ evs2 ++ tail /\
    Forall preparation_event evs1 /\
    Forall decode_event evs2 /\
    (enable_structured_output (_pipeline_config p) = false ->
     Forall unmasked_decode_event evs2) /\
    (tail = [] \/ tail = [ToNumpy] \/ exists d, tail = [ToNumpy; Step d]) /\
    dom (slots w) ⊆ dom (slots w') /\
    forall res, r = Ok res ->
      exists w1 b mi n' bm d,
        prepare_batch p (snd <$> batch) n w = (w1, Ok (b, mi, n', bm)) /\
        trace w1 = trace w ++ evs1 /\
        tail = [ToNumpy; Step d] /\
        count_events is_execute evs2 = Z.to_nat n' /\
        count_events is_sample evs2 = Z.to_nat n' /\
        count_events is_compute_log_probabilities evs2
        = (if existsb (fun x => negb (x =? 0))
                (log_probabilities <$> (snd <$> batch))
           then Z.to_nat n' else 0%nat) /\
        dom (slots w') = dom (slots w1).
Proof.
  rewrite next_token_unfold. simpl.
  destruct (performs_prepare_batch p (snd <$> batch) n w)
    as (evs1 & Ht1 & Hp1 & Hs1 & _).
  destruct (prepare_batch p (snd <$> batch) n w)
    as [w1 [[[[b mi] n'] bm]|e]] eqn:Eprep; simpl in *.
  2:{ intros [= <- <-]. exists evs1, [], []. rewrite !app_nil_r.
      split_and!; try done; auto. }
  destruct (multistep_loop _ _ _ _ _ _ _ _ _ _ w1) as [w2 rl] eqn:Eloop.
  apply multistep_loop_events in Eloop
    as (evs2 & Ht2 & Hs2 & Hd2 & Hu2 & Hok2). simpl in Hu2.
  assert (Hunmasked : enable_structured_output (_pipeline_config p) = false ->
                      Forall unmasked_decode_event evs2).
  { intros He. apply Hu2.
    apply prepare_batch_bitmask in Eprep as [Hnone _].
    by rewrite (proj2 Hnone He). }
  destruct rl as [st|e].
  2:{ intros [= <- <-]. exists evs1, evs2, []. rewrite !app_nil_r.
      split_and!; try done; auto.
      - by rewrite Ht2, Ht1, app_assoc.
      - rewrite Hs2. done. }
  destruct (Hok2 st eq_refl) as (He2 & Hsa2 & Hc2); [lia|].
  destruct (seq_ids_and_new_tokens (generated_tokens st) 0 b ∅) as [d|e].
  2:{ intros [= <- <-]. exists evs1, evs2, [ToNumpy]. simpl.
      split_and!; try done; auto.
      - by rewrite Ht2, Ht1, <- !app_assoc.
      - rewrite Hs2. done. }
  destruct (bool_decide (dom d ⊆ dom (slots w2))).
  - intros [= <- <-]. exists evs1, evs2, [ToNumpy; Step d]. simpl.
    rewrite dom_imap_total, Hs2.
    split_and!; try done; eauto.
    + by rewrite Ht2, Ht1, <- !app_assoc.
    + intros res _. exists w1, b, mi, n', bm, d. by split_and!.
  - intros [= <- <-]. exists evs1, evs2, [ToNumpy; Step d]. simpl.
    split_and!; try done; eauto.
    + by rewrite Ht2, Ht1, <- !app_assoc.
    + rewrite Hs2. done.
Qed.

(** ** The bitmask *)

Lemma sample_masks_app (evs1 evs2 : list Event) :
  sample_masks (evs1 ++ evs2) = sample_masks evs1 ++ sample_masks evs2.
Proof.
  induction evs1 as [|e evs1 IH]; [done|].
  destruct e; simpl; by rewrite ?IH.
Qed.

Lemma length_sample_masks (evs : list Event) :
  length (sample_masks evs) = count_events is_sample evs.
Proof.
  unfold count_events. induction evs as [|e evs IH]; [done|].
  destruct e; simpl; by rewrite ?IH.
Qed.

Lemma sample_masks_elem (evs : list Event) m :
  Sample m ∈ evs -> m ∈ sample_masks evs.
Proof.
  induction evs as [|e evs IH]; [by intros ?%elem_of_nil|].
  intros [<-|Hin]%elem_of_cons.
  - simpl. by left.
  - destruct e; simpl; auto. right. auto.
Qed.

Lemma sample_masks_preparation (evs : list Event) :
  Forall preparation_event evs -> sample_masks evs = [].
Proof.
  induction 1 as [|e evs He _ IH]; [done|].
  by destruct e as [[]| | | | | | | | | | |].
Qed.

Lemma expand_bitmask_some (p : Pipe) k b v :
  vocab_size p = Some v ->
  snd (expand_bitmask unpack_device_tensor p k (Some b) (mkWorld ∅ []))
  = match (match b with
           | PackedMask rows => Ok (unpack_row v <$> rows)
           | DeviceMask rows => unpack_device_tensor k v rows
           end) with
    | Ok mask => Ok (Some mask)
    | Raise e => Raise e
    end.
Proof.
  intros Hv. unfold expand_bitmask. rewrite Hv.
  destruct b as [rows|rows]; [done|].
  unfold bind, lift, ret. simpl.
  by destruct (unpack_device_tensor k v rows).
Qed.

(** A step that starts with a bitmask, up to its sampling: the sampler is
    given the bitmask unpacked, and the step leaves that mask to the next
    step. *)
Lemma decode_step_with_mask (p : Pipe) k compute_lp top_n echo st w v b l :
  vocab_size p = Some v ->
  loop_bitmask st = Some b ->
  next_token_logits (execute (_pipeline_model p) (curr_step_inputs st))
  = Some l ->
  match (match b with
         | PackedMask rows => Ok (unpack_row v <$> rows)
         | DeviceMask rows => unpack_device_tensor k v rows
         end) with
  | Raise e =>
      decode_step unpack_device_tensor p k compute_lp top_n echo st w
      = (mkWorld (slots w) (trace w ++ [Execute]), Raise e)
  | Ok mask =>
      (exists rest,
         trace (fst (decode_step unpack_device_tensor p k compute_lp top_n
                       echo st w))
         = trace w ++ [Execute; Sample (Some mask)] ++ rest /\
         sample_masks rest = []) /\
      (forall e, _sampler p l (generated_tokens st) (Some mask) = Raise e ->
         decode_step unpack_device_tensor p k compute_lp top_n echo st w
         = (mkWorld (slots w) (trace w ++ [Execute; Sample (Some mask)]),
            Raise e)) /\
      (forall r,
         snd (decode_step unpack_device_tensor p k compute_lp top_n echo st w)
         = Ok r ->
         exists sampled,
           _sampler p l (generated_tokens st) (Some mask) = Ok sampled /\
           fst r = fst sampled /\
           generated_tokens (snd r) = snd sampled /\
           loop_bitmask (snd r) = Some (DeviceMask mask))
  end.
Proof.
  intros Hv Hb Hl. rewrite decode_step_run. simpl.
  rewrite Hl, Hb, (expand_bitmask_some p k b v Hv).
  destruct (match b with
            | PackedMask rows => Ok (unpack_row v <$> rows)
            | DeviceMask rows => unpack_device_tensor k v rows
            end) as [mask|e]; [|done].
  destruct (_sampler p l (generated_tokens st) (Some mask)) as [sampled|e].
  2:{ split_and!.
      - by exists [].
      - by intros e' [= <-].
      - intros r [=]. }
  destruct compute_lp.
  - destruct (compute_log_probabilities _ _ _ _ _ _) as [lp|e].
    + split_and!; [by eexists|done|].
      intros r [= <-]. by exists sampled.
    + destruct e; simpl;
        try (split_and!; [by exists [ComputeLogProbabilities]|done|];
             by intros r [=]).
      split_and!; [by eexists|done|].
      intros r [= <-]. by exists sampled.
  - split_and!; [by exists []|done|].
    intros r [= <-]. by exists sampled.
Qed.

(** The samplings of a step that starts with a bitmask. *)
Lemma decode_step_masks (p : Pipe) k compute_lp top_n echo st w v b :
  vocab_size p = Some v ->
  loop_bitmask st = Some b ->
  exists evs,
    trace (fst (decode_step unpack_device_tensor p k compute_lp top_n echo
                  st w))
    = trace w ++ evs /\
    ((sample_masks evs = [] /\
      forall r,
        snd (decode_step unpack_device_tensor p k compute_lp top_n echo st w)
        <> Ok r) \/
     exists mask,
       match b with
       | PackedMask rows => Ok (unpack_row v <$> rows)
       | DeviceMask rows => unpack_device_tensor k v rows
       end = Ok mask /\
       sample_masks evs = [Some mask] /\
       forall r,
         snd (decode_step unpack_device_tensor p k compute_lp top_n echo st w)
         = Ok r ->
         loop_bitmask (snd r) = Some (DeviceMask mask)).
Proof.
  intros Hv Hb.
  destruct (next_token_logits
              (execute (_pipeline_model p) (curr_step_inputs st)))
    as [l|] eqn:Hl.
  - pose proof (decode_step_with_mask p k compute_lp top_n echo st w v b l
                  Hv Hb Hl) as H.
    destruct (match b with
              | PackedMask rows => Ok (unpack_row v <$> rows)
              | DeviceMask rows => unpack_device_tensor k v rows
              end) as [mask|e].
    + destruct H as ((rest & Ht & Hrest) & _ & Hok).
      exists ([Execute; Sample (Some mask)] ++ rest). split; [done|].
      right. exists mask. split_and!; [done|by simpl; rewrite Hrest|].
      intros r Hr. by destruct (Hok r Hr) as (sampled & _ & _ & _ & ?).
    + rewrite H. simpl. exists [Execute]. split; [done|]. by left.
  - rewrite decode_step_run. simpl. rewrite Hl. simpl.
    exists [Execute]. split; [done|]. by left.
Qed.

Lemma advance_inputs_masks (p : Pipe) new_tokens curr w :
  exists evs,
    trace (fst (advance_inputs p new_tokens curr w)) = trace w ++ evs /\
    sample_masks evs = [].
Proof.
  unfold advance_inputs.
  destruct (kv_cache_inputs_of curr) as [[l|x]|];
    try (exists []; rewrite app_nil_r; by split_and!).
  exists [IncrementCacheLengths; PrepareNextTokenInputs].
  unfold bind, increment_cache_lengths, bind, emit, ret, lift. simpl.
  rewrite <- app_assoc. by split_and!.
Qed.

(** One iteration of the loop, in closed form. *)
Lemma multistep_loop_iteration (p : Pipe) k compute_lp top_n echo n
    remaining i st w :
  multistep_loop unpack_device_tensor p k compute_lp top_n echo n
    (S remaining) i st w
  = match decode_step unpack_device_tensor p k compute_lp top_n echo st w with
    | (w1, Raise e) => (w1, Raise e)
    | (w1, Ok r) =>
        if i =? n - 1 then (w1, Ok (snd r))
        else
          match advance_inputs p (fst r) (curr_step_inputs (snd r)) w1 with
          | (w2, Raise e) => (w2, Raise e)
          | (w2, Ok next_inputs) =>
              multistep_loop unpack_device_tensor p k compute_lp top_n echo n
                remaining (i + 1)
                (mkLoopState next_inputs (loop_bitmask (snd r))
                   (generated_tokens (snd r))
                   (batch_log_probabilities (snd r))) w2
          end
    end.
Proof.
  simpl. unfold bind at 1.
  destruct (decode_step unpack_device_tensor p k compute_lp top_n echo st w)
    as [w1 [r|e]]; [|done].
  destruct (i =? n - 1); [done|].
  unfold bind at 1.
  by destruct (advance_inputs p (fst r) (curr_step_inputs (snd r)) w1)
    as [w2 [next_inputs|e]].
Qed.

(** The samplings of a loop that starts with a bitmask: each is given a
    mask, the first the bitmask unpacked, each later one what unpacking the
    mask of the step before gives. *)
Lemma multistep_loop_masks (p : Pipe) k compute_lp top_n echo n v :
  vocab_size p = Some v ->
  forall remaining i st w b,
  loop_bitmask st = Some b ->
  exists evs masks,
    trace (fst (multistep_loop unpack_device_tensor p k compute_lp top_n echo
                  n remaining i st w))
    = trace w ++ evs /\
    sample_masks evs = Some <$> masks /\
    (forall m, masks !! 0%nat = Some m ->
       match b with
       | PackedMask rows => Ok (unpack_row v <$> rows)
       | DeviceMask rows => unpack_device_tensor k v rows
       end = Ok m) /\
    (forall j m m', masks !! j = Some m -> masks !! S j = Some m' ->
       unpack_device_tensor k v m = Ok m') /\
    (forall l mask,
       remaining <> 0%nat ->
       next_token_logits (execute (_pipeline_model p) (curr_step_inputs st))
       = Some l ->
       match b with
       | PackedMask rows => Ok (unpack_row v <$> rows)
       | DeviceMask rows => unpack_device_tensor k v rows
       end = Ok mask ->
       masks !! 0%nat = Some mask /\
       forall e, _sampler p l (generated_tokens st) (Some mask) = Raise e ->
         snd (multistep_loop unpack_device_tensor p k compute_lp top_n echo
                n remaining i st w) = Raise e).
Proof.
  intros Hv.
  induction remaining as [|remaining IH]; intros i st w b Hb.
  - exists [], []. rewrite app_nil_r. by split_and!.
  - rewrite multistep_loop_iteration.
    destruct (decode_step_masks p k compute_lp top_n echo st w v b Hv Hb)
      as (evs1 & Ht1 & Hcase).
    assert (Hfirst : forall l mask,
      next_token_logits (execute (_pipeline_model p) (curr_step_inputs st))
      = Some l ->
      match b with
      | PackedMask rows => Ok (unpack_row v <$> rows)
      | DeviceMask rows => unpack_device_tensor k v rows
      end = Ok mask ->
      sample_masks evs1 = [Some mask] /\
      forall e, _sampler p l (generated_tokens st) (Some mask) = Raise e ->
        snd (decode_step unpack_device_tensor p k compute_lp top_n echo st w)
        = Raise e).
    { intros l mask Hl Hm.
      pose proof (decode_step_with_mask p k compute_lp top_n echo st w v b l
                    Hv Hb Hl) as H.
      rewrite Hm in H. destruct H as ((rest & Ht & Hrest) & Hraise & _).
      split.
      - rewrite Ht1 in Ht. apply app_inv_head in Ht as ->.
        simpl. by rewrite Hrest.
      - intros e He. by rewrite (Hraise e He). }
    destruct (decode_step unpack_device_tensor p k compute_lp top_n echo st w)
      as [w1 [[toks st1]|e]] eqn:Estep; simpl in *.
    2:{ destruct Hcase as [[Hs _]|(mask & Hm & Hs & _)].
        - exists evs1, []. split_and!; try done.
          intros l mask _ Hl Hm.
          destruct (Hfirst l mask Hl Hm) as [Hs' _]. congruence.
        - exists evs1, [mask]. split_and!; [done|done| |done|].
          + by intros m [= <-].
          + intros l mask' _ Hl Hm'.
            destruct (Hfirst l mask' Hl Hm') as [Hs' Hraise].
            split; [simpl; congruence|].
            intros e0 He0. specialize (Hraise e0 He0). congruence. }
    destruct Hcase as [[_ Hno]|(mask & Hm & Hs1 & Hb1)];
      [by destruct (Hno (toks, st1))|].
    specialize (Hb1 _ eq_refl). simpl in Hb1.
    assert (Hfirst' : forall l mask',
      next_token_logits (execute (_pipeline_model p) (curr_step_inputs st))
      = Some l ->
      match b with
      | PackedMask rows => Ok (unpack_row v <$> rows)
      | DeviceMask rows => unpack_device_tensor k v rows
      end = Ok mask' ->
      (mask :: @nil (list (list bool))) !! 0%nat = Some mask' /\
      forall e : PyError,
        _sampler p l (generated_tokens st) (Some mask') = Raise e -> False).
    { intros l mask' Hl Hm'. destruct (Hfirst l mask' Hl Hm') as [Hs' Hraise].
      split; [simpl; congruence|]. intros e He. by specialize (Hraise e He). }
    destruct (i =? n - 1).
    { exists evs1, [mask]. split_and!; [done|done| |done|].
      - by intros m [= <-].
      - intros l mask' _ Hl Hm'.
        destruct (Hfirst' l mask' Hl Hm') as [? Hno]. split; [done|].
        intros e He. by destruct (Hno e He). }
    destruct (advance_inputs_masks p toks (curr_step_inputs st1) w1)
      as (evs2 & Ht2 & Hs2).
    destruct (advance_inputs p toks (curr_step_inputs st1) w1)
      as [w2 [next_inputs|e]]; simpl in *.
    2:{ exists (evs1 ++ evs2), [mask]. split_and!.
        - by rewrite Ht2, Ht1, app_assoc.
        - by rewrite sample_masks_app, Hs1, Hs2.
        - by intros m [= <-].
        - done.
        - intros l mask' _ Hl Hm'.
          destruct (Hfirst' l mask' Hl Hm') as [? Hno]. split; [done|].
          intros e' He. by destruct (Hno e' He). }
    destruct (IH (i + 1)
                (mkLoopState next_inputs (loop_bitmask st1)
                   (generated_tokens st1) (batch_log_probabilities st1)) w2
                (DeviceMask mask) Hb1)
      as (evs3 & masks & Ht3 & Hs3 & Hhead & Hchain & _).
    exists (evs1 ++ evs2 ++ evs3), (mask :: masks). split_and!.
    + by rewrite Ht3, Ht2, Ht1, !app_assoc.
    + by rewrite !sample_masks_app, Hs1, Hs2, Hs3.
    + by intros m [= <-].
    + intros [|j] m m' Hj Hj'; simpl in *.
      * injection Hj as <-. by apply Hhead.
      * by eapply Hchain.
    + intros l mask' _ Hl Hm'.
      destruct (Hfirst' l mask' Hl Hm') as [? Hno]. split; [done|].
      intros e He. by destruct (Hno e He).
Qed.

Lemma prepare_batch_vocab_size (p : Pipe) (batch : list Ctx) n w w1 b mi n' bm :
  prepare_batch p batch n w = (w1, Ok (b, mi, n', bm)) ->
  enable_structured_output (_pipeline_config p) = true ->
  exists v rows, vocab_size p = Some v /\ bm = Some rows.
Proof.
  intros Hprep He.
  pose proof (prepare_batch_bitmask _ _ _ _ _ _ _ _ _ Hprep) as [Hnone _].
  apply prepare_batch_ok in Hprep as (alloc & _ & _ & _ & Ha & _).
  apply initial_bitmask_ok in Ha as (_ & _ & Hsome).
  destruct (Hsome He) as (v & Hv & _).
  destruct bm as [rows|]; [by exists v, rows|].
  rewrite (proj1 Hnone eq_refl) in He. discriminate.
Qed.

(** The samplings of a call of [next_token] that is prepared with a
    bitmask. *)
Lemma next_token_masks (p : Pipe) (batch : list (string * Ctx)) n w
    w1 b mi n' v rows :
  prepare_batch p (snd <$> batch) n w = (w1, Ok (b, mi, n', Some rows)) ->
  vocab_size p = Some v ->
  exists evs masks,
    trace (fst (next_token unpack_device_tensor p batch n w))
    = trace w1 ++ evs /\
    sample_masks evs = Some <$> masks /\
    (forall m, masks !! 0%nat = Some m -> m = unpack_row v <$> rows) /\
    (forall j m m', masks !! j = Some m -> masks !! S j = Some m' ->
       unpack_device_tensor (length b) v m = Ok m') /\
    (forall res,
       snd (next_token unpack_device_tensor p batch n w) = Ok res ->
       length masks = Z.to_nat n') /\
    (forall l,
       1 <= n' ->
       next_token_logits (execute (_pipeline_model p) mi) = Some l ->
       masks !! 0%nat = Some (unpack_row v <$> rows) /\
       forall e,
         _sampler p l (replicate (length b) []) (Some (unpack_row v <$> rows))
         = Raise e ->
         snd (next_token unpack_device_tensor p batch n w) = Raise e).
Proof.
  intros Hprep Hv. rewrite next_token_unfold. simpl. rewrite Hprep.
  change (PackedMask <$> Some rows) with (Some (PackedMask rows)).
  set (compute_lp := existsb (fun x => negb (x =? 0))
                       (log_probabilities <$> (snd <$> batch))).
  set (top_n := log_probabilities <$> (snd <$> batch)).
  set (echo := log_probabilities_echo <$> (snd <$> batch)).
  set (st0 := @mkLoopState Payload KVCacheInputs LogProbabilities mi
                (Some (PackedMask rows)) (replicate (length b) []) []).
  destruct (multistep_loop_masks p (length b) compute_lp top_n echo n' v Hv
              (Z.to_nat n') 0 st0 w1 (PackedMask rows) eq_refl)
    as (evs2 & masks & Ht2 & Hs2 & Hhead & Hchain & Hfirst).
  assert (Hhead' : forall m, masks !! 0%nat = Some m ->
                     m = unpack_row v <$> rows).
  { intros m Hm. specialize (Hhead m Hm). by injection Hhead as <-. }
  assert (Hfirst' : forall l,
    1 <= n' ->
    next_token_logits (execute (_pipeline_model p) mi) = Some l ->
    masks !! 0%nat = Some (unpack_row v <$> rows) /\
    forall e,
      _sampler p l (replicate (length b) []) (Some (unpack_row v <$> rows))
      = Raise e ->
      snd (multistep_loop unpack_device_tensor p (length b) compute_lp top_n
             echo n' (Z.to_nat n') 0 st0 w1) = Raise e).
  { intros l Hn Hl. apply (Hfirst l); [lia|done|done]. }
  destruct (multistep_loop unpack_device_tensor p (length b) compute_lp top_n
              echo n' (Z.to_nat n') 0 st0 w1) as [w2 rl] eqn:Eloop.
  simpl in Ht2, Hfirst'.
  destruct rl as [st|e].
  2:{ exists evs2, masks. split_and!; try done.
      intros l Hn Hl. destruct (Hfirst' l Hn Hl) as [Hm Hr].
      split; [done|]. intros e' He'. specialize (Hr e' He').
      simpl in Hr. simpl. by injection Hr as ->. }
  assert (Hlen : length masks = Z.to_nat n').
  { apply multistep_loop_events in Eloop
      as (evs2' & Ht2' & _ & _ & _ & Hok).
    rewrite Ht2 in Ht2'. apply app_inv_head in Ht2' as <-.
    destruct (Hok st eq_refl) as (_ & Hsa & _); [lia|].
    by rewrite <- Hsa, <- length_sample_masks, Hs2, length_fmap. }
  assert (Hnoraise : forall l,
    1 <= n' ->
    next_token_logits (execute (_pipeline_model p) mi) = Some l ->
    forall e,
      _sampler p l (replicate (length b) []) (Some (unpack_row v <$> rows))
      = Raise e -> False).
  { intros l Hn Hl e He. by destruct (Hfirst' l Hn Hl) as [_ Hr];
      specialize (Hr e He). }
  destruct (seq_ids_and_new_tokens (generated_tokens st) 0 b ∅) as [d|e].
  2:{ exists (evs2 ++ [ToNumpy]), masks. simpl. split_and!; try done.
      - by rewrite Ht2, <- app_assoc.
      - by rewrite sample_masks_app, Hs2, app_nil_r.
      - intros l Hn Hl. split; [by apply (Hfirst' l)|].
        intros e' He'. by destruct (Hnoraise l Hn Hl e' He'). }
  exists (evs2 ++ [ToNumpy; Step d]), masks.
  destruct (bool_decide (dom d ⊆ dom (slots w2))); simpl.
  - split_and!; try done.
    + by rewrite Ht2, <- app_assoc.
    + by rewrite sample_masks_app, Hs2, app_nil_r.
    + intros l Hn Hl. split; [by apply (Hfirst' l)|].
      intros e' He'. by destruct (Hnoraise l Hn Hl e' He').
  - split_and!; try done.
    + by rewrite Ht2, <- app_assoc.
    + by rewrite sample_masks_app, Hs2, app_nil_r.
    + intros l Hn Hl. split; [by apply (Hfirst' l)|].
      intros e' He'. by destruct (Hnoraise l Hn Hl e' He').
Qed.

Lemma length_unpack_word (w : Z) : length (unpack_word w) = 32%nat.
Proof. unfold unpack_word. by rewrite length_map, length_seq. Qed.

Lemma unpack_row_all_ones (v : nat) :
  unpack_row v (replicate (Nat.div (v + 31) 32) (-1)) = replicate v true.
Proof.
  unfold unpack_row.
  assert (Hall : forall k,
            concat (map unpack_word (replicate k (-1)))
            = replicate (32 * k) true).
  { induction k as [|k IH]; [done|].
    cbn [replicate map concat]. rewrite IH.
    replace (32 * S k)%nat with (32 + 32 * k)%nat by lia.
    rewrite replicate_add. f_equal. }
  rewrite Hall, take_replicate. f_equal.
  pose proof (Nat.div_mod_eq (v + 31) 32) as Hdm.
  pose proof (Nat.mod_upper_bound (v + 31) 32) as Hub. lia.
Qed.

(** C3 (as amended): the bitmask is absent throughout preparation and the
    decode loop exactly when structured output is disabled in the
    configuration: preparation then returns no bitmask and every sampling
    of the call is without one. With structured output enabled,
    preparation allocates a bitmask, the all-ones one for a batch in which
    no context has a schema or a matcher, and no sampling of the call is
    without a mask: the sampler of the first step is given the allocated
    bitmask unpacked to booleans and cut to the vocabulary (every entry
    true for such a batch), the sampler of each later step what unpacking
    the mask of the step before gives, and a call that returns has sampled
    under a mask once per step. *)
Theorem bitmask_absent_iff_structured_output_disabled (p : Pipe)
    (batch : list (string * Ctx)) n w :
  (forall w1 b mi n' bm,
     prepare_batch p (snd <$> batch) n w = (w1, Ok (b, mi, n', bm)) ->
     (bm = None <-> enable_structured_output (_pipeline_config p) = false) /\
     (enable_structured_output (_pipeline_config p) = true ->
      (forall c, c ∈ snd <$> batch ->
         json_schema c = None /\ matcher c = None) ->
      exists v, vocab_size p = Some v /\
        bm = Some (torch_full
                     (get_bitmask_shape (length (snd <$> batch)) v) (-1)))) /\
  (enable_structured_output (_pipeline_config p) = false ->
   exists evs,
     trace (fst (next_token unpack_device_tensor p batch n w))
     = trace w ++ evs /\
     Forall (fun e => forall m, e = Sample m -> m = None) evs) /\
  (enable_structured_output (_pipeline_config p) = true ->
   exists evs,
     trace (fst (next_token unpack_device_tensor p batch n w))
     = trace w ++ evs /\
     Forall (fun e => forall m, e = Sample m -> is_Some m) evs) /\
  (forall w1 b mi n' bm,
     prepare_batch p (snd <$> batch) n w = (w1, Ok (b, mi, n', bm)) ->
     enable_structured_output (_pipeline_config p) = true ->
     exists v rows evs masks,
       vocab_size p = Some v /\ bm = Some rows /\
       trace (fst (next_token unpack_device_tensor p batch n w))
       = trace w1 ++ evs /\
       sample_masks evs = Some <$> masks /\
       (forall m, masks !! 0%nat = Some m -> m = unpack_row v <$> rows) /\
       (forall j m m', masks !! j = Some m -> masks !! S j = Some m' ->
          unpack_device_tensor (length b) v m = Ok m') /\
       (forall res,
          snd (next_token unpack_device_tensor p batch n w) = Ok res ->
          length masks = Z.to_nat n') /\
       (forall l,
          1 <= n' ->
          next_token_logits (execute (_pipeline_model p) mi) = Some l ->
          masks !! 0%nat = Some (unpack_row v <$> rows) /\
          forall e,
            _sampler p l (replicate (length b) [])
              (Some (unpack_row v <$> rows)) = Raise e ->
            snd (next_token unpack_device_tensor p batch n w) = Raise e) /\
       ((forall c, c ∈ snd <$> batch ->
           json_schema c = None /\ matcher c = None) ->
        unpack_row v <$> rows
        = replicate (length batch) (replicate v true))).
Proof.
  split_and!.
  - intros w1 b mi n' bm H. by eapply prepare_batch_bitmask.
  - intros He.
    destruct (next_token unpack_device_tensor p batch n w) as [w' r] eqn:E.
    apply next_token_structure in E
      as (evs1 & evs2 & tail & Ht & Hp & _ & Hu & Htail & _).
    exists (evs1 ++ evs2 ++ tail). split; [done|].
    repeat (apply Forall_app; split).
    + eapply Forall_impl; [exact Hp|].
      intros e Hpe m ->. by destruct Hpe.
    + eapply Forall_impl; [exact (Hu He)|].
      intros e Hue m ->. by destruct m.
    + destruct Htail as [->|[->|[d ->]]]; repeat constructor; by intros m.
  - intros He.
    destruct (performs_prepare_batch p (snd <$> batch) n w)
      as (evs1 & Ht1 & Hp1 & _).
    destruct (prepare_batch p (snd <$> batch) n w)
      as [w1 [[[[b mi] n'] bm]|e]] eqn:Eprep; simpl in Ht1.
    + destruct (prepare_batch_vocab_size _ _ _ _ _ _ _ _ _ Eprep He)
        as (v & rows & Hv & ->).
      destruct (next_token_masks p batch n w w1 b mi n' v rows Eprep Hv)
        as (evs & masks & Ht & Hs & _).
      exists (evs1 ++ evs). split; [by rewrite Ht, Ht1, app_assoc|].
      apply Forall_app. split.
      * eapply Forall_impl; [exact Hp1|].
        intros e Hpe m ->. by destruct Hpe.
      * apply Forall_forall. intros e Hin m ->.
        apply sample_masks_elem in Hin. rewrite Hs in Hin.
        apply list_elem_of_fmap in Hin as (m' & -> & _). by eexists.
    + rewrite next_token_unfold. simpl. rewrite Eprep. simpl.
      exists evs1. split; [done|].
      eapply Forall_impl; [exact Hp1|].
      intros e' Hpe m ->. by destruct Hpe.
  - intros w1 b mi n' bm Hprep He.
    destruct (prepare_batch_vocab_size _ _ _ _ _ _ _ _ _ Hprep He)
      as (v & rows & Hv & ->).
    destruct (next_token_masks p batch n w w1 b mi n' v rows Hprep Hv)
      as (evs & masks & Ht & Hs & Hhead & Hchain & Hlen & Hfirst).
    exists v, rows, evs, masks. split_and!; try done.
    intros Hplain.
    apply prepare_batch_bitmask in Hprep as [_ Hall].
    destruct (Hall He Hplain) as (v' & Hv' & [= ->]).
    assert (v' = v) as -> by congruence.
    unfold torch_full, get_bitmask_shape. cbn [fst snd].
    rewrite fmap_replicate, unpack_row_all_ones. by rewrite length_fmap.
Qed.

(** ** The copy to the host *)

(** C8: in a call of [next_token] the generated tokens are copied to the
    host at most once, and exactly once when the call returns; nothing
    before the copy reads them on the host, and when the call returns the
    copy comes after the loop has executed and sampled all its steps; only
    the step of the cache manager follows it. *)
Theorem next_token_single_host_copy (p : Pipe)
    (batch : list (string * Ctx)) n w w' r :
  next_token unpack_device_tensor p batch n w = (w', r) ->
  exists before after,
    trace w' = trace w ++ before ++ after /\
    count_events is_to_numpy before = 0%nat /\
    (after = [] \/ after = [ToNumpy] \/ exists d, after = [ToNumpy; Step d]) /\
    forall res, r = Ok res ->
      exists w1 b mi n' bm d,
        prepare_batch p (snd <$> batch) n w = (w1, Ok (b, mi, n', bm)) /\
        after = [ToNumpy; Step d] /\
        count_events is_execute before = Z.to_nat n' /\
        count_events is_sample before = Z.to_nat n' /\
        count_events is_to_numpy (before ++ after) = 1%nat.
Proof.
  intros (evs1 & evs2 & tail & Ht & Hp & Hd & _ & Htail & _ & Hok)
    %next_token_structure.
  exists (evs1 ++ evs2), tail.
  assert (Hnone : count_events is_to_numpy (evs1 ++ evs2) = 0%nat).
  { by count_none. }
  split_and!; [by rewrite Ht, !app_assoc|done|done|].
  intros res Hres.
  destruct (Hok res Hres)
    as (w1 & b & mi & n' & bm & d & Hprep & _ & -> & He & Hs & _).
  exists w1, b, mi, n', bm, d.
  rewrite (count_events_app is_to_numpy), Hnone.
  count_none. by split_and!.
Qed.

(** ** The cache slots across [next_token] *)

(** C9: a call of [next_token] releases no cache slot, whatever its
    outcome and whatever the statuses it reports: the cache manager's
    release is not among its calls, every slot claimed before is claimed
    after, and when the call returns the slot of every context of the
    batch is claimed. A slot is given up by [release], which calls the
    cache manager's release with the id of the context. *)
Theorem next_token_releases_no_slot (p : Pipe)
    (batch : list (string * Ctx)) n w w' r :
  next_token unpack_device_tensor p batch n w = (w', r) ->
  (exists evs,
     trace w' = trace w ++ evs /\ count_events is_release evs = 0%nat) /\
  dom (slots w) ⊆ dom (slots w') /\
  (forall res, r = Ok res ->
     forall c, c ∈ snd <$> batch -> cache_seq_id c ∈ dom (slots w')) /\
  (forall (c : Ctx) w0,
     release p c w0
     = (mkWorld (delete (cache_seq_id c) (slots w0))
          (trace w0 ++ [Release (cache_seq_id c)]), Ok tt) /\
     cache_seq_id c ∉ dom (slots (fst (release p c w0)))).
Proof.
  intros (evs1 & evs2 & tail & Ht & Hp & Hd & _ & Htail & Hs & Hok)
    %next_token_structure.
  split_and!.
  - exists (evs1 ++ evs2 ++ tail). split; [done|].
    count_none.
    by destruct Htail as [->|[->|[d ->]]].
  - done.
  - intros res Hres c Hc.
    destruct (Hok res Hres)
      as (w1 & b & mi & n' & bm & d & Hprep & _ & _ & _ & _ & _ & ->).
    apply prepare_batch_slots in Hprep as (_ & -> & _).
    apply elem_of_union_r. unfold batch_ids.
    apply elem_of_list_to_set, list_elem_of_fmap. by exists c.
  - intros c w0. split; [done|]. simpl.
    rewrite dom_delete_L. set_solver.
Qed.

(** ** The configuration errors *)

Lemma next_token_prepare_raise (p : Pipe) (batch : list (string * Ctx))
    n w w' e :
  prepare_batch p (snd <$> batch) n w = (w', Raise e) ->
  next_token unpack_device_tensor p batch n w = (w', Raise e).
Proof. intros H. rewrite next_token_unfold. simpl. by rewrite H. Qed.

(** C6 (as amended): preparation raises a [ValueError] only for a context
    of the batch that has a schema to compile (a non-empty schema and no
    matcher yet) while structured output is disabled, or that has no step
    left, and the error then carries the id of that context, its length and
    the bound. Either condition on some context makes preparation fail, with
    a [ValueError] when the pipeline is as the constructor builds it and no
    context comes with a matcher that the pipeline has no tokenizer for.
    When preparation fails, [next_token] fails with the same error and the
    model is not executed. *)
Theorem prepare_batch_configuration_errors (p : Pipe)
    (batch : list (string * Ctx)) n w :
  (forall w' v,
     prepare_batch p (snd <$> batch) n w = (w', Raise (ValueError v)) ->
     exists c, c ∈ snd <$> batch /\
       ((v = SchemaButNoConstrainedDecoding /\ schema_refused p c) \/
        exists c1, gathered_context p c = Ok c1 /\ out_of_steps p c1 /\
          v = RequestLengthExceedsMax (cache_seq_id c) (current_length c1)
                (calculate_max_seq_len (_pipeline_model p)))) /\
  ((exists c, c ∈ snd <$> batch /\ (schema_refused p c \/ out_of_steps p c)) ->
   exists e,
     snd (prepare_batch p (snd <$> batch) n w) = Raise e /\
     (well_built p ->
      (tokenizer p = None ->
       forall c, c ∈ snd <$> batch -> matcher c = None) ->
      exists v, e = ValueError v)) /\
  (forall w' e,
     prepare_batch p (snd <$> batch) n w = (w', Raise e) ->
     next_token unpack_device_tensor p batch n w = (w', Raise e) /\
     exists evs,
       trace w' = trace w ++ evs /\ count_events is_execute evs = 0%nat).
Proof.
  split_and!.
  - intros w' v [(Habs & _)|(alloc & _ & Hg)]%prepare_batch_raise;
      [discriminate|].
    apply gather_batch_raise in Hg as (c & Hin & [Hc|(c1 & Hc1 & Hle & Hv)]).
    + exists c. split; [done|]. left.
      apply gathered_context_raise in Hc as [[Hv Hr]|[Hv _]];
        [|discriminate].
      by injection Hv as ->.
    + exists c. split; [done|]. right. exists c1.
      by injection Hv as ->.
  - intros (c & Hin & Hoff).
    destruct (offending_raises p (snd <$> batch) n w c Hin Hoff) as [e He].
    exists e. split; [done|]. intros Hwb Htok.
    destruct (prepare_batch p (snd <$> batch) n w) as [w' r] eqn:E.
    simpl in He. subst r.
    apply prepare_batch_raise in E as [(_ & _ & Hen & Hv)|(alloc & _ & Hg)].
    + destruct (Hwb Hen) as [[v Hv'] _]. congruence.
    + apply gather_batch_raise in Hg
        as (c' & Hin' & [Hc|(c1 & _ & _ & ->)]); [|by eexists].
      apply gathered_context_raise in Hc as [[-> _]|(_ & Hnone & Hm)];
        [by eexists|].
      exfalso. destruct Hm as [[m Hm]|Hen].
      * rewrite (Htok Hnone c' Hin') in Hm. discriminate.
      * destruct (Hwb Hen) as [_ [t Ht]]. congruence.
  - intros w' e H. split; [by apply next_token_prepare_raise|].
    destruct (performs_prepare_batch p (snd <$> batch) n w)
      as (evs & Ht & Hp & _).
    rewrite H in Ht. exists evs. split; [done|]. by count_none.
Qed.

Lemma seq_ids_and_new_tokens_rows (host : list (list Z)) :
  forall (b : list Ctx) i d0 d,
  seq_ids_and_new_tokens host i b d0 = Ok d ->
  forall j, (j < length b)%nat -> is_Some (host !! (i + j)%nat).
Proof.
  induction b as [|c0 b IH]; intros i d0 d H j Hj; simpl in Hj; [lia|].
  simpl in H. unfold index in H.
  destruct (host !! i) as [row|] eqn:Er; [|discriminate]. simpl in H.
  destruct j as [|j].
  - rewrite Nat.add_0_r, Er. by eexists.
  - replace (i + S j)%nat with (S i + j)%nat by lia.
    eapply IH; [done|lia].
Qed.

(** C2: when [next_token] returns, for every context of the batch, with
    its row of the tokens that the decode loop generated: the tokens written
    to the history of the context are a prefix of that row; the status
    reported is END_OF_SEQUENCE exactly when the last token written is in
    the end-of-sequence set, MAXIMUM_LENGTH exactly when it is not and the
    current length of the context equals the maximum length bound; no
    token after the first terminal one is written to the history of the
    context; and a context that is reported ACTIVE has received a token for
    every step of the call, whatever the other contexts of the batch did. *)
Theorem next_token_statuses (p : Pipe) (batch : list (string * Ctx))
    n w w' batch' res :
  next_token unpack_device_tensor p batch n w = (w', Ok (batch', res)) ->
  NoDup (fst <$> batch) ->
  exists w1 b mi n' bm w2 st,
    prepare_batch p (snd <$> batch) n w = (w1, Ok (b, mi, n', bm)) /\
    multistep_loop unpack_device_tensor p (length b)
      (existsb (fun x => negb (x =? 0))
         (log_probabilities <$> (snd <$> batch)))
      (log_probabilities <$> (snd <$> batch))
      (log_probabilities_echo <$> (snd <$> batch))
      n' (Z.to_nat n') 0
      (mkLoopState mi (PackedMask <$> bm) (replicate (length b) []) []) w1
    = (w2, Ok st) /\
    forall i rid c0, batch !! i = Some (rid, c0) ->
      exists c c' resp row,
        b !! i = Some c /\ batch' !! i = Some (rid, c') /\
        res !! rid = Some resp /\
        generated_tokens st !! i = Some row /\
        finalized p (Some row) n' c c' resp.
Proof.
  rewrite next_token_unfold. simpl.
  destruct (prepare_batch p (snd <$> batch) n w)
    as [w1 [[[[b mi] n'] bm]|e]] eqn:Eprep; [|discriminate].
  destruct (multistep_loop _ _ _ _ _ _ _ _ _ _ w1) as [w2 [st|e]] eqn:Eloop;
    [|discriminate].
  destruct (seq_ids_and_new_tokens (generated_tokens st) 0 b ∅) as [d|e]
    eqn:Erows; [|discriminate].
  destruct (bool_decide (dom d ⊆ dom (slots w2))); [|discriminate].
  intros [= _ Hresp] Hnd.
  pose proof (prepare_batch_length _ _ _ _ _ _ _ _ _ Eprep) as Hlen.
  rewrite length_fmap in Hlen.
  assert (Hfst : fst <$> zip (fst <$> batch) b = fst <$> batch).
  { apply fst_zip. rewrite length_fmap. lia. }
  apply prepare_response_ok in Hresp as [_ Hlook]; [|by rewrite Hfst].
  exists w1, b, mi, n', bm, w2, st. split_and!; [done|done|].
  intros i rid c0 Hi.
  destruct (lookup_lt_is_Some_2 b i) as [c Hc].
  { rewrite Hlen. by eapply lookup_lt_Some. }
  destruct (Hlook i rid c) as (c' & resp & Hb' & Hr & Hrespond).
  { apply lookup_zip_with_Some. exists rid, c. split_and!; [done| |done].
    by rewrite list_lookup_fmap, Hi. }
  destruct (seq_ids_and_new_tokens_rows _ _ _ _ _ Erows i) as [row Hrow].
  { by eapply lookup_lt_Some. }
  simpl in Hrow.
  exists c, c', resp, row. split_and!; try done.
  apply respond_spec in Hrespond. simpl in Hrespond.
  by rewrite Hrow in Hrespond.
Qed.

(** ** The recoverable degradations *)

(** C7 (as amended): a schema that cannot be compiled does not fail the
    batch: the failure is logged, the context goes on without a matcher and
    with its schema removed, so that no later preparation compiles it again.
    A log-probability computation that the model does not implement does not
    fail the batch either: it is logged and the step records an absent
    result. That capability is not disabled: the step does not depend on
    earlier failures, and a call in which some context requests log
    probabilities attempts the computation at every step. *)
Theorem degradations_are_caught (p : Pipe) :
  (forall (c : Ctx) schema w,
     wants_matcher c = Some schema ->
     enable_structured_output (_pipeline_config p) = true ->
     (forall compile, _grammar_compiler p = Some compile ->
        compile schema = None) ->
     exists evs,
       initialize_matcher p c w
       = (mkWorld (slots w)
            (trace w ++ evs ++ [Warn (SchemaCannotBeCompiled schema)]),
          Ok (set_json_schema None c)) /\
       (evs = [] \/ evs = [CompileJsonSchema schema]) /\
       matcher (set_json_schema None c) = None /\
       forall w1,
         initialize_matcher p (set_json_schema None c) w1
         = (w1, Ok (set_json_schema None c))) /\
  (forall k top_n echo st w l mask sampled,
     next_token_logits (execute (_pipeline_model p) (curr_step_inputs st))
     = Some l ->
     snd (expand_bitmask unpack_device_tensor p k (loop_bitmask st)
            (mkWorld ∅ [])) = Ok mask ->
     _sampler p l (generated_tokens st) mask = Ok sampled ->
     compute_log_probabilities (_pipeline_model p) (curr_step_inputs st)
       (execute (_pipeline_model p) (curr_step_inputs st)) (fst sampled)
       top_n echo = Raise NotImplementedError ->
     decode_step unpack_device_tensor p k true top_n echo st w
     = (mkWorld (slots w)
          (trace w ++ [Execute; Sample mask; ComputeLogProbabilities;
                       Warn UnableToComputeLogProbabilities]),
        Ok (fst sampled,
            mkLoopState (curr_step_inputs st) (DeviceMask <$> mask)
              (snd sampled) (batch_log_probabilities st ++ [None])))) /\
  (forall (batch : list (string * Ctx)) n w w' res,
     next_token unpack_device_tensor p batch n w = (w', Ok res) ->
     existsb (fun x => negb (x =? 0)) (log_probabilities <$> (snd <$> batch))
     = true ->
     exists evs w1 b mi n' bm,
       prepare_batch p (snd <$> batch) n w = (w1, Ok (b, mi, n', bm)) /\
       trace w' = trace w ++ evs /\
       count_events is_compute_log_probabilities evs = Z.to_nat n').
Proof.
  split_and!.
  - intros c schema w Hw He Hfail.
    assert (Hm : matcher c = None).
    { unfold wants_matcher in Hw.
      destruct (json_schema c); [|discriminate]. by destruct (matcher c). }
    unfold initialize_matcher. rewrite Hw, He. simpl.
    destruct (_grammar_compiler p) as [compile|] eqn:Ec.
    + exists [CompileJsonSchema schema].
      unfold bind, emit, ret. simpl. rewrite (Hfail compile eq_refl). simpl.
      rewrite <- app_assoc. split_and!; auto.
    + exists []. unfold bind, emit, ret. simpl. split_and!; auto.
  - intros k top_n echo st w l mask sampled Hl Hmask Hs Hlp.
    rewrite decode_step_run. simpl. by rewrite Hl, Hmask, Hs, Hlp.
  - intros batch n w w' res
      (evs1 & evs2 & tail & Ht & Hp & Hd & _ & _ & _ & Hok)%next_token_structure
      Hsome.
    destruct (Hok res eq_refl)
      as (w1 & b & mi & n' & bm & d & Hprep & _ & -> & _ & _ & Hc & _).
    rewrite Hsome in Hc.
    exists (evs1 ++ evs2 ++ [ToNumpy; Step d]), w1, b, mi, n', bm.
    split_and!; [done|done|].
    rewrite !count_events_app.
    rewrite (count_events_none preparation_event) by
      first [assumption | intros ? ?%preparation_event_kinds; intuition].
    by rewrite Hc.
Qed.

End Properties.


(** * Further properties of the pipeline *)

Section MoreProperties.

Set Default Proof Using "Type".

Context {Logits Payload KVCacheInputs LogProbabilities : Type}.

Abbreviation Ctx := (@InputContext LogProbabilities).
Abbreviation Pipe :=
  (@TextGenerationPipeline Logits Payload KVCacheInputs LogProbabilities).

(** ** The step count of a preparation *)

Lemma foldr_min_init (n a : Z) (l : list Z) :
  foldr Z.min (Z.min n a) l = Z.min a (foldr Z.min n l).
Proof. induction l as [|x l IH]; simpl; lia. Qed.

Lemma foldr_min_cases (n : Z) (l : list Z) :
  foldr Z.min n l = n \/ foldr Z.min n l ∈ l.
Proof.
  induction l as [|x l IH]; simpl; [by left|].
  destruct (Z.min_spec x (foldr Z.min n l)) as [[_ ->]|[_ ->]].
  - right. by left.
  - destruct IH as [->|IH]; [by left|]. right. by right.
Qed.

Lemma gather_batch_num_steps (p : Pipe) (batch : list Ctx) : forall i g w w' b g',
  gather_batch p i batch g w = (w', Ok (b, g')) ->
  num_steps_of g' = foldr Z.min (num_steps_of g) (num_available_steps p <$> b).
Proof.
  induction batch as [|c rest IH]; intros i g w w' b g' H.
  - by injection H as _ <- <-.
  - apply gather_batch_cons_ok in H as (w1 & c1 & g1 & b' & Hc & Hr & ->).
    apply gather_context_ok in Hc as (_ & Hn & _).
    apply calculate_num_steps_ok in Hn as (_ & Hn).
    apply IH in Hr. rewrite Hr, Hn, fmap_cons. simpl.
    by rewrite foldr_min_init.
Qed.


(** ** The responses of a call *)

Lemma prepare_response_length (p : Pipe) compute_lp all_lp host n :
  forall (batch : list (string * Ctx)) bi res batch' res',
  prepare_response p compute_lp all_lp host n bi batch res
  = Ok (batch', res') ->
  length batch' = length batch.
Proof.
  induction batch as [|[rid0 c0] rest IH]; intros bi res batch' res' H.
  - by injection H as <- <-.
  - simpl in H.
    destruct (respond p compute_lp all_lp host n bi c0) as [[c0' resp0]|];
      [|discriminate].
    simpl in H.
    destruct (prepare_response p compute_lp all_lp host n (S bi) rest
                (<[rid0:=resp0]> res)) as [[rest' res1]|] eqn:E1;
      [|discriminate].
    simpl in H. injection H as <- <-. simpl. f_equal. by eapply IH.
Qed.

(** The response of every request of a call that returns. *)
Lemma next_token_responses (p : Pipe) (batch : list (string * Ctx))
    compute_lp all_lp host n' b batch' res :
  prepare_response p compute_lp all_lp host n' 0 (zip (fst <$> batch) b) ∅
  = Ok (batch', res) ->
  length b = length batch -> NoDup (fst <$> batch) ->
  (forall rid, rid ∉ fst <$> batch -> res !! rid = None) /\
  length batch' = length batch /\
  forall i rid c0, batch !! i = Some (rid, c0) ->
    exists c c' resp,
      b !! i = Some c /\ batch' !! i = Some (rid, c') /\
      res !! rid = Some resp /\
      respond p compute_lp all_lp host n' i c = Ok (c', resp).
Proof.
  intros Hresp Hlen Hnd.
  assert (Hfst : fst <$> zip (fst <$> batch) b = fst <$> batch).
  { apply fst_zip. rewrite length_fmap. lia. }
  pose proof (prepare_response_length _ _ _ _ _ _ _ _ _ _ Hresp) as Hlen'.
  apply prepare_response_ok in Hresp as [Hframe Hlook]; [|by rewrite Hfst].
  split_and!.
  - intros rid Hrid. rewrite Hframe by (by rewrite Hfst). done.
  - rewrite Hlen'. rewrite length_zip_with, length_fmap. lia.
  - intros i rid c0 Hi.
    destruct (lookup_lt_is_Some_2 b i) as [c Hc].
    { rewrite Hlen. by eapply lookup_lt_Some. }
    destruct (Hlook i rid c) as (c' & resp & Hb' & Hr & Hrespond).
    { apply lookup_zip_with_Some. exists rid, c. split_and!; [done| |done].
      by rewrite list_lookup_fmap, Hi. }
    exists c, c', resp. by split_and!.
Qed.

(** ** Preparing the next inputs *)

Lemma advance_inputs_ok (p : Pipe) new_tokens curr w w' next_inputs :
  advance_inputs p new_tokens curr w = (w', Ok next_inputs) ->
  trace w' = trace w ++ [IncrementCacheLengths; PrepareNextTokenInputs] /\
  exists l,
    kv_cache_inputs_of curr = Some (KVCacheInputsSequence l) /\
    prepare_next_token_inputs (_pipeline_model p) new_tokens
      (mkModelInputs (payload curr)
         (Some (KVCacheInputsSequence
                  (increment_inputs (kv_manager (_pipeline_model p)) l curr))))
    = Ok next_inputs.
Proof.
  unfold advance_inputs.
  destruct (kv_cache_inputs_of curr) as [[l|x]|]; try discriminate.
  unfold bind, increment_cache_lengths, bind, emit, ret, lift. simpl.
  intros [= <- H]. rewrite <- app_assoc. split; [done|]. by exists l.
Qed.

(** ** The step of the cache manager *)

Lemma seq_ids_and_new_tokens_frame (host : list (list Z)) :
  forall (b : list Ctx) i d0 d,
  seq_ids_and_new_tokens host i b d0 = Ok d ->
  (forall seq_id, seq_id ∉ cache_seq_id <$> b -> d !! seq_id = d0 !! seq_id) /\
  (forall seq_id row, d !! seq_id = Some row ->
     d0 !! seq_id = Some row \/ row ∈ host).
Proof.
  induction b as [|c b IH]; intros i d0 d H.
  - injection H as <-. split; [done|]. intros ? ? ?. by left.
  - simpl in H. unfold index in H.
    destruct (host !! i) as [row|] eqn:Er; [|discriminate]. simpl in H.
    apply IH in H as [Hframe Hin]. split.
    + intros seq_id [Hne Hnotin]%not_elem_of_cons.
      rewrite Hframe by done. by rewrite lookup_insert_ne.
    + intros seq_id row' Hrow'. apply Hin in Hrow' as [Hrow'|Hrow']; [|by right].
      destruct (decide (cache_seq_id c = seq_id)) as [<-|Hne].
      * rewrite lookup_insert_eq in Hrow'. injection Hrow' as <-.
        right. by eapply list_elem_of_lookup_2.
      * rewrite lookup_insert_ne in Hrow' by done. by left.
Qed.

Lemma seq_ids_and_new_tokens_lookup (host : list (list Z)) :
  forall (b : list Ctx) i d0 d,
  seq_ids_and_new_tokens host i b d0 = Ok d ->
  NoDup (cache_seq_id <$> b) ->
  forall j c, b !! j = Some c ->
    exists row, host !! (i + j)%nat = Some row /\
                d !! cache_seq_id c = Some row.
Proof.
  induction b as [|c0 b IH]; intros i d0 d H Hnd j c Hj; [done|].
  simpl in H. unfold index in H.
  destruct (host !! i) as [row|] eqn:Er; [|discriminate]. simpl in H.
  rewrite fmap_cons in Hnd. apply NoDup_cons in Hnd as [Hfresh Hnd].
  destruct j as [|j]; simpl in Hj.
  - injection Hj as <-. exists row. rewrite Nat.add_0_r. split; [done|].
    apply seq_ids_and_new_tokens_frame in H as [Hframe _].
    rewrite Hframe by done. by rewrite lookup_insert_eq.
  - destruct (IH _ _ _ H Hnd j c Hj) as (row' & Hr' & Hd').
    exists row'. split; [|done].
    by replace (i + S j)%nat with (S i + j)%nat by lia.
Qed.

Lemma imap_slots_unchanged (d : gmap Z (list Z)) (s : gmap Z nat) :
  (forall seq_id row, d !! seq_id = Some row -> row = []) ->
  map_imap (fun seq_id k =>
    Some (k + length (default [] (d !! seq_id)))%nat) s = s.
Proof.
  intros Hd. apply map_eq. intros seq_id. rewrite map_lookup_imap.
  destruct (s !! seq_id) as [k|]; [|done]. simpl. f_equal.
  destruct (d !! seq_id) as [row|] eqn:E; simpl; [|lia].
  rewrite (Hd _ _ E). simpl. lia.
Qed.

Lemma respond_ids (p : Pipe) compute_lp all_lp host n bi (c c' : Ctx) resp :
  respond p compute_lp all_lp host n bi c = Ok (c', resp) ->
  cache_seq_id c' = cache_seq_id c /\ max_length c' = max_length c /\
  completion c' = [].
Proof.
  unfold respond.
  destruct (walk_steps p compute_lp all_lp host bi (Z.to_nat n) 0 c)
    as [[c1 st]|] eqn:E; [|discriminate].
  simpl. intros [= <- <-]. simpl.
  apply walk_steps_ok in E as (toks & _ & _ & Hm & Hid & _). done.
Qed.

(** ** What preparation leaves of a context *)

Lemma prepare_batch_fields (p : Pipe) (batch : list Ctx) n w w' b mi n' bm :
  prepare_batch p batch n w = (w', Ok (b, mi, n', bm)) ->
  forall i c0, batch !! i = Some c0 ->
    exists c,
      b !! i = Some c /\
      cache_seq_id c = cache_seq_id c0 /\
      (exists l, tokens c = tokens c0 ++ l) /\
      (start_idx c0 <= start_idx c)%nat /\
      max_length c = max_length c0 /\
      log_probabilities c = log_probabilities c0 /\
      completion c = completion c0.
Proof.
  intros (alloc & w1 & b1 & g & _ & Hg & _ & _ & Ht & _)%prepare_batch_ok
    i c0 Hi.
  apply gather_batch_ok in Hg as (HF2 & _).
  apply trim_prompts_ok in Ht.
  destruct (Forall2_lookup_l _ _ _ _ _ HF2 Hi) as (c1 & Hi1 & Hc1).
  destruct (Forall2_lookup_l _ _ _ _ _ Ht Hi1) as (c & Hic & Hc).
  apply gathered_context_fields in Hc1 as (H1 & H2 & H3 & H4 & H5 & H6).
  apply trim_prompt_ok in Hc as (u & pr & _ & _ & ->).
  exists (if u - Z.of_nat (length pr) >? 0
          then bump_token_indices (u - Z.of_nat (length pr)) c1 else c1).
  split; [done|].
  destruct (u - Z.of_nat (length pr) >? 0); simpl;
    rewrite ?H1, ?H3, ?H4, ?H5, ?H6; split_and!; try done; lia.
Qed.


(** ** Responses without log probabilities *)

Lemma walk_steps_no_log_probs (p : Pipe) all_lp host bi :
  forall remaining step_index (c c' : Ctx) st,
  walk_steps p false all_lp host bi remaining step_index c = Ok (c', st) ->
  exists toks,
    completion c' = completion c ++ ((fun t => (t, None)) <$> toks).
Proof.
  induction remaining as [|remaining IH]; intros step_index c c' st H.
  - injection H as <- <-. exists []. by rewrite app_nil_r.
  - simpl in H.
    destruct (index host bi) as [row|]; [|discriminate]. simpl in H.
    destruct (index row step_index) as [t|]; [|discriminate]. simpl in H.
    destruct (upper_bounded_default _ _) as [bound|]; [|discriminate].
    simpl in H.
    destruct (is_done _).
    + injection H as <- <-. by exists [t].
    + apply IH in H as (toks & ->). exists (t :: toks). simpl.
      by rewrite <- app_assoc.
Qed.

Lemma no_log_probabilities_requested (batch : list (string * Ctx)) :
  Forall (fun rc => log_probabilities (snd rc) = 0) batch ->
  existsb (fun x => negb (x =? 0)) (log_probabilities <$> (snd <$> batch))
  = false.
Proof.
  induction 1 as [|[rid c] batch Hc _ IH]; [done|].
  rewrite !fmap_cons. simpl in *. rewrite Hc. simpl. exact IH.
Qed.

(** ** Every context is finalized *)

Lemma prepare_response_all (p : Pipe) compute_lp all_lp host n :
  forall (batch : list (string * Ctx)) bi res r,
  prepare_response p compute_lp all_lp host n bi batch res = Ok r ->
  forall i rid c, batch !! i = Some (rid, c) ->
    exists r', respond p compute_lp all_lp host n (bi + i) c = Ok r'.
Proof.
  induction batch as [|[rid0 c0] rest IH]; intros bi res r H i rid c Hi;
    [done|].
  simpl in H.
  destruct (respond p compute_lp all_lp host n bi c0) as [r0|] eqn:E0;
    [|discriminate].
  simpl in H.
  destruct (prepare_response p compute_lp all_lp host n (S bi) rest
              (<[rid0:=snd r0]> res)) as [r1|] eqn:E1; [|discriminate].
  destruct i as [|i]; simpl in Hi.
  - injection Hi as <- <-. rewrite Nat.add_0_r. by eexists.
  - destruct (IH _ _ _ E1 i rid c Hi) as [r' Hr'].
    exists r'. by replace (bi + S i)%nat with (S bi + i)%nat by lia.
Qed.

(** ** The packed bitmask *)

Lemma lookup_unpack_word (w : Z) (j : nat) :
  (j < 32)%nat -> unpack_word w !! j = Some (Z.testbit w (Z.of_nat j)).
Proof.
  intros Hj. unfold unpack_word.
  change (map (fun j => Z.testbit w (Z.of_nat j)) (seq 0 32))
    with ((fun j => Z.testbit w (Z.of_nat j)) <$> seq 0 32).
  rewrite list_lookup_fmap, lookup_seq_lt by done. done.
Qed.

Lemma length_concat_unpack (row : list Z) :
  length (concat (map unpack_word row)) = (32 * length row)%nat.
Proof.
  induction row as [|w row IH]; [done|].
  cbn [map concat length]. rewrite length_app, length_unpack_word, IH. lia.
Qed.

Lemma lookup_concat_unpack (row : list Z) : forall (t : nat) (w : Z),
  row !! (t / 32)%nat = Some w ->
  concat (map unpack_word row) !! t
  = Some (Z.testbit w (Z.of_nat (t mod 32))).
Proof.
  induction row as [|w0 row IH]; intros t w Hw; [done|].
  cbn [map concat]. destruct (decide (t < 32)%nat) as [Hlt|Hge].
  - rewrite Nat.div_small in Hw by done. injection Hw as <-.
    rewrite lookup_app_l by (by rewrite length_unpack_word).
    rewrite Nat.mod_small by done. by apply lookup_unpack_word.
  - rewrite lookup_app_r by (rewrite length_unpack_word; lia).
    rewrite length_unpack_word.
    assert (Hdiv : (t / 32 = S ((t - 32) / 32))%nat).
    { replace t with ((t - 32) + 1 * 32)%nat at 1 by lia.
      rewrite Nat.div_add by done. lia. }
    assert (Hmod : (t mod 32 = (t - 32) mod 32)%nat).
    { replace t with ((t - 32) + 1 * 32)%nat at 1 by lia.
      by rewrite Nat.Div0.mod_add. }
    rewrite Hdiv in Hw. simpl in Hw. rewrite Hmod. by apply IH.
Qed.

(** ** The constructor *)



(** ** A preparation that fails *)

Lemma claimed_world_slots (seq_id : Z) (w : World) :
  seq_id ∈ dom (slots (claimed_world seq_id w)) /\
  dom (slots w) ⊆ dom (slots (claimed_world seq_id w)) /\
  (seq_id ∉ dom (slots w) ->
   trace (claimed_world seq_id w) = trace w ++ [ExternalClaim [seq_id]]).
Proof.
  unfold claimed_world.
  destruct (bool_decide (seq_id ∈ dom (slots w))) eqn:E.
  - apply bool_decide_eq_true_1 in E. by split_and!.
  - simpl. rewrite dom_insert_L. split_and!; [set_solver|set_solver|done].
Qed.

Lemma gather_batch_raise_claimed (p : Pipe) (batch : list Ctx) :
  forall i g w w' seq_id len bound,
  gather_batch p i batch g w
  = (w', Raise (ValueError (RequestLengthExceedsMax seq_id len bound))) ->
  seq_id ∈ dom (slots w') /\
  (seq_id ∉ dom (slots w) ->
   exists evs, trace w' = trace w ++ evs /\ seq_id ∈ claimed_ids evs).
Proof.
  induction batch as [|c rest IH]; intros i g w w' seq_id len bound H;
    [discriminate|].
  simpl in H. apply bind_raise in H as [H|(w1 & [c1 g1] & H1 & H)].
  - rewrite gather_context_run in H.
    destruct (gathered_context p c) as [c1|e1] eqn:Eg.
    + simpl in H.
      destruct (calculate_num_steps p (num_steps_of g) c1) eqn:En;
        [discriminate|].
      injection H as <- He.
      apply calculate_num_steps_raise in En as (_ & ->).
      injection He as <- _ _.
      destruct (claimed_world_slots (cache_seq_id c1)
                  (mkWorld (slots w) (trace w ++ gathered_events p c)))
        as (Hin & _ & Hnew).
      split; [done|]. intros Hfresh. simpl in Hnew.
      exists (gathered_events p c ++ [ExternalClaim [cache_seq_id c1]]).
      split; [by rewrite Hnew, app_assoc|].
      rewrite claimed_ids_app. apply elem_of_app. right. simpl. by left.
    + injection H as _ ->.
      apply gathered_context_raise in Eg as [[[=] _]|[[=] _]].
  - apply bind_raise in H as [H|(w2 & r & _ & H)]; [|discriminate].
    simpl in H.
    pose proof (gather_context_ok _ _ _ _ _ _ _ _ H1) as (_ & _ & _ & _ & _ & Hw1).
    destruct (performs_gather_batch p rest (S i) g1 w1)
      as (evs0 & Ht0 & _).
    rewrite H in Ht0. simpl in Ht0.
    apply IH in H as [Hin Hnew]. split; [done|]. intros Hfresh.
    destruct (claimed_world_slots (cache_seq_id c1)
                (mkWorld (slots w) (trace w ++ gathered_events p c)))
      as (_ & _ & Hclaim).
    rewrite <- Hw1 in Hclaim. simpl in Hclaim.
    destruct (decide (seq_id ∈ dom (slots w1))) as [Hin1|Hnotin1].
    + assert (Hid : seq_id = cache_seq_id c1).
      { rewrite Hw1 in Hin1. unfold claimed_world in Hin1. simpl in Hin1.
        destruct (bool_decide (cache_seq_id c1 ∈ dom (slots w))); simpl in Hin1;
          [contradiction|].
        rewrite dom_insert_L in Hin1. set_solver. }
      subst seq_id.
      exists ((gathered_events p c ++ [ExternalClaim [cache_seq_id c1]]) ++ evs0).
      split; [by rewrite Ht0, (Hclaim Hfresh), <- !app_assoc|].
      rewrite !claimed_ids_app. apply elem_of_app. left.
      apply elem_of_app. right. simpl. by left.
    + destruct (Hnew Hnotin1) as (evs' & Ht' & Hin').
      assert (Ht1 : exists evs1, trace w1 = trace w ++ evs1).
      { rewrite Hw1. unfold claimed_world. simpl.
        destruct (bool_decide _); simpl; [by eexists|].
        rewrite <- app_assoc. by eexists. }
      destruct Ht1 as [evs1 Ht1].
      exists (evs1 ++ evs'). split; [by rewrite Ht', Ht1, app_assoc|].
      rewrite claimed_ids_app. apply elem_of_app. by right.
Qed.


Lemma foldr_min_lower (n lo : Z) (l : list Z) :
  lo <= n -> Forall (fun x => lo <= x) l -> lo <= foldr Z.min n l.
Proof. intros Hn. induction 1; simpl; lia. Qed.

(** ** Calls of [next_token] *)

Variable unpack_device_tensor :
  nat -> nat -> list (list bool) -> result (list (list bool)).

(** The parts of a call of [next_token] that returns. *)
Lemma next_token_ok (p : Pipe) (batch : list (string * Ctx)) n w w' r :
  next_token unpack_device_tensor p batch n w = (w', Ok r) ->
  exists w1 b mi n' bm w2 st d,
    prepare_batch p (snd <$> batch) n w = (w1, Ok (b, mi, n', bm)) /\
    multistep_loop unpack_device_tensor p (length b)
      (existsb (fun x => negb (x =? 0)) (log_probabilities <$> (snd <$> batch)))
      (log_probabilities <$> (snd <$> batch))
      (log_probabilities_echo <$> (snd <$> batch))
      n' (Z.to_nat n') 0
      (mkLoopState mi (PackedMask <$> bm) (replicate (length b) []) []) w1
    = (w2, Ok st) /\
    seq_ids_and_new_tokens (generated_tokens st) 0 b ∅ = Ok d /\
    dom d ⊆ dom (slots w2) /\
    w' = mkWorld
           (map_imap (fun seq_id k =>
              Some (k + length (default [] (d !! seq_id)))%nat) (slots w2))
           (trace w2 ++ [ToNumpy; Step d]) /\
    prepare_response p
      (existsb (fun x => negb (x =? 0)) (log_probabilities <$> (snd <$> batch)))
      (batch_log_probabilities st) (generated_tokens st) n' 0
      (zip (fst <$> batch) b) ∅ = Ok r /\
    length b = length batch.
Proof.
  rewrite next_token_unfold. simpl.
  destruct (prepare_batch p (snd <$> batch) n w)
    as [w1 [[[[b mi] n'] bm]|e]] eqn:Eprep; [|discriminate].
  destruct (multistep_loop _ _ _ _ _ _ _ _ _ _ w1) as [w2 [st|e]] eqn:El;
    [|discriminate].
  destruct (seq_ids_and_new_tokens (generated_tokens st) 0 b ∅) as [d|e] eqn:Ed;
    [|discriminate].
  destruct (bool_decide (dom d ⊆ dom (slots w2))) eqn:Edom; [|discriminate].
  intros [= <- Hr].
  apply bool_decide_eq_true_1 in Edom.
  pose proof (prepare_batch_length _ _ _ _ _ _ _ _ _ Eprep) as Hlen.
  rewrite length_fmap in Hlen.
  exists w1, b, mi, n', bm, w2, st, d. by split_and!.
Qed.

Lemma decode_step_keeps_inputs (p : Pipe) k compute_lp top_n echo st w :
  exists evs,
    trace (fst (decode_step unpack_device_tensor p k compute_lp top_n echo st w))
    = trace w ++ evs /\
    count_events is_increment_cache_lengths evs = 0%nat /\
    count_events is_prepare_next_token_inputs evs = 0%nat.
Proof.
  rewrite decode_step_run. simpl.
  destruct (next_token_logits _) as [l|]; [|by exists [Execute]].
  destruct (snd (expand_bitmask unpack_device_tensor p k (loop_bitmask st)
                   (mkWorld ∅ []))) as [mask|e]; [|by exists [Execute]].
  destruct (_sampler p l (generated_tokens st) mask) as [sampled|e];
    [|by exists [Execute; Sample mask]].
  destruct compute_lp; [|by exists [Execute; Sample mask]].
  destruct (compute_log_probabilities _ _ _ _ _ _) as [lp|e];
    [by exists [Execute; Sample mask; ComputeLogProbabilities]|].
  destruct e;
    try (by exists [Execute; Sample mask; ComputeLogProbabilities]).
  by exists [Execute; Sample mask; ComputeLogProbabilities;
             Warn UnableToComputeLogProbabilities].
Qed.

(** A loop that completes has prepared next inputs after every step but
    the last. *)
Lemma multistep_loop_advances (p : Pipe) k compute_lp top_n echo n :
  forall remaining i st w w' st',
  multistep_loop unpack_device_tensor p k compute_lp top_n echo
    n remaining i st w = (w', Ok st') ->
  (remaining = 0%nat \/ i + Z.of_nat remaining = n) ->
  exists evs,
    trace w' = trace w ++ evs /\
    count_events is_increment_cache_lengths evs = Nat.pred remaining /\
    count_events is_prepare_next_token_inputs evs = Nat.pred remaining.
Proof.
  induction remaining as [|remaining IH]; intros i st w w' st' H Hi.
  - injection H as <- <-. exists []. by rewrite app_nil_r.
  - destruct Hi as [Hz|Hi]; [done|].
    simpl in H. unfold bind at 1 in H.
    destruct (decode_step_keeps_inputs p k compute_lp top_n echo st w)
      as (evs1 & Ht1 & Hi1 & Hp1).
    destruct (decode_step unpack_device_tensor p k compute_lp top_n echo st w)
      as [w1 [[toks st1]|e]]; simpl in *; [|discriminate].
    destruct (Z.eqb_spec i (n - 1)) as [Hlast|Hnot].
    { injection H as <- <-. exists evs1.
      assert (remaining = 0%nat) as -> by lia. done. }
    unfold bind at 1 in H.
    destruct (advance_inputs p toks (curr_step_inputs st1) w1)
      as [w2 [next_inputs|e]] eqn:Ea; [|discriminate].
    apply advance_inputs_ok in Ea as [Ht2 _].
    apply IH in H as (evs3 & Ht3 & Hi3 & Hp3); [|lia].
    exists (evs1 ++ [IncrementCacheLengths; PrepareNextTokenInputs] ++ evs3).
    split_and!.
    + by rewrite Ht3, Ht2, Ht1, !app_assoc.
    + rewrite !count_events_app, Hi1, Hi3.
      unfold count_events at 1. simpl. destruct remaining; [lia|done].
    + rewrite !count_events_app, Hp1, Hp3.
      unfold count_events at 1. simpl. destruct remaining; [lia|done].
Qed.

(** A model that cannot prepare next inputs completes one step at most. *)
Lemma multistep_loop_single_step (p : Pipe) k compute_lp top_n echo n e :
  (forall t mi,
     prepare_next_token_inputs (_pipeline_model p) t mi = Raise e) ->
  forall remaining i st w w' st',
  multistep_loop unpack_device_tensor p k compute_lp top_n echo
    n remaining i st w = (w', Ok st') ->
  (remaining = 0%nat \/ i + Z.of_nat remaining = n) ->
  (remaining <= 1)%nat.
Proof.
  intros Hraise remaining i st w w' st' H Hi.
  destruct remaining as [|remaining]; [lia|].
  destruct Hi as [Hz|Hi]; [done|].
  simpl in H. unfold bind at 1 in H.
  destruct (decode_step unpack_device_tensor p k compute_lp top_n echo st w)
    as [w1 [[toks st1]|e1]]; simpl in *; [|discriminate].
  destruct (Z.eqb_spec i (n - 1)) as [Hlast|Hnot]; [lia|].
  unfold bind at 1 in H.
  destruct (advance_inputs p toks (curr_step_inputs st1) w1)
    as [w2 [next_inputs|e2]] eqn:Ea; [|discriminate].
  apply advance_inputs_ok in Ea as [_ (l & _ & Hp)].
  by rewrite Hraise in Hp.
Qed.










End MoreProperties.

(** ** The batch size of a model class *)

Section ClassProperties.

Set Default Proof Using "Type".

Import PipelineModelClass.

Context {PipelineConfig AutoConfig KVCacheConfig DType KVCacheParams : Type}.

Variable estimate :
  KVCacheParams -> Z -> Z -> Z -> list Device -> result Z.

Abbreviation Class :=
  (@PipelineModelClass PipelineConfig AutoConfig KVCacheConfig DType
     KVCacheParams).


End ClassProperties.

(** ** The embeddings pipeline *)

Section EmbeddingsProperties.

Set Default Proof Using "Type".

Import Embeddings.

Context {Logits Payload KVCacheInputs LogProbabilities Embedding : Type}.

Variable to_numpy : Logits -> list Embedding.
Variable first_rows : Embedding -> Z -> Embedding.
Variable truthy : Logits -> bool.

Abbreviation EPipe :=
  (@EmbeddingsPipeline Logits Payload KVCacheInputs LogProbabilities).
Abbreviation ECtx := (@InputContext LogProbabilities).

Lemma embeddings_prepare_response_ok (self : EPipe) embs
    (ctxs : list ECtx) :
  forall (rids : list string) bi res res',
  prepare_response first_rows self embs ctxs bi rids res = Ok res' ->
  NoDup rids ->
  (forall rid, rid ∉ rids -> res' !! rid = res !! rid) /\
  forall i rid, rids !! i = Some rid ->
    exists e,
      embs !! (bi + i)%nat = Some e /\
      (pool_embeddings self = true ->
       res' !! rid = Some (mkEmbeddingsResponse e)) /\
      (pool_embeddings self = false ->
       exists c, ctxs !! (bi + i)%nat = Some c /\
         res' !! rid
         = Some (mkEmbeddingsResponse (first_rows e (active_length c)))).
Proof.
  induction rids as [|rid0 rids IH]; intros bi res res' H Hnd.
  - injection H as <-. split; [done|]. intros i rid Hi. done.
  - simpl in H. unfold index in H.
    destruct (embs !! bi) as [e0|] eqn:Ee; [|discriminate]. simpl in H.
    apply NoDup_cons in Hnd as [Hfresh Hnd].
    destruct (pool_embeddings self) eqn:Ep; simpl in H.
    + apply IH in H as [Hframe Hlook]; [|done]. split.
      * intros rid [Hne Hnotin]%not_elem_of_cons.
        rewrite Hframe by done. by rewrite lookup_insert_ne.
      * intros i rid Hi. destruct i as [|i]; simpl in Hi.
        -- injection Hi as <-. exists e0. rewrite Nat.add_0_r.
           split_and!; [done| |done].
           intros _. rewrite Hframe by done. by rewrite lookup_insert_eq.
        -- destruct (Hlook i rid Hi) as (e & He & H1 & H2).
           exists e. replace (bi + S i)%nat with (S bi + i)%nat by lia.
           by split_and!.
    + destruct (ctxs !! bi) as [c0|] eqn:Ec; [|discriminate]. simpl in H.
      apply IH in H as [Hframe Hlook]; [|done]. split.
      * intros rid [Hne Hnotin]%not_elem_of_cons.
        rewrite Hframe by done. by rewrite lookup_insert_ne.
      * intros i rid Hi. destruct i as [|i]; simpl in Hi.
        -- injection Hi as <-. exists e0. rewrite Nat.add_0_r.
           split_and!; [done|done|].
           intros _. exists c0. split; [done|].
           rewrite Hframe by done. by rewrite lookup_insert_eq.
        -- destruct (Hlook i rid Hi) as (e & He & H1 & H2).
           exists e. replace (bi + S i)%nat with (S bi + i)%nat by lia.
           by split_and!.
Qed.

Lemma embeddings_prepare_response_total (self : EPipe) embs
    (ctxs : list ECtx) :
  forall (rids : list string) bi res,
  (bi + length rids <= length ctxs)%nat -> (bi <= length embs)%nat ->
  ((bi + length rids <= length embs)%nat ->
   exists res', prepare_response first_rows self embs ctxs bi rids res
                = Ok res') /\
  ((length embs < bi + length rids)%nat ->
   prepare_response first_rows self embs ctxs bi rids res
   = Raise IndexError).
Proof.
  induction rids as [|rid0 rids IH]; intros bi res Hc Hb; simpl in *.
  - split; [by eexists|lia].
  - unfold index.
    destruct (lookup_lt_is_Some_2 ctxs bi) as [c0 Hc0]; [lia|].
    destruct (embs !! bi) as [e0|] eqn:Ee; simpl.
    + apply lookup_lt_Some in Ee. rewrite Hc0. simpl.
      split.
      * intros Hle.
        destruct (pool_embeddings self); simpl;
          apply IH; lia.
      * intros Hlt.
        destruct (pool_embeddings self); simpl;
          apply IH; lia.
    + apply lookup_ge_None in Ee. split; [lia|done].
Qed.



End EmbeddingsProperties.

(** * The properties on the small pipeline *)

(** The bound on the step count, for a fresh prompt of four tokens. *)
Lemma prepare_batch_num_steps_bound_witness :
  10 <= 20 /\
  forall c, c ∈ [Toy.request 7 [1; 2; 3; 4]] ->
    10 <= calculate_max_seq_len
            (_pipeline_model (Toy.pipe false 10 Toy.manager))
          - (current_length c - active_length c).
Proof.
  eapply (prepare_batch_num_steps_bound (Toy.pipe false 10 Toy.manager)
            [Toy.request 7 [1; 2; 3; 4]] 20 Toy.empty_world).
  vm_compute. reflexivity.
Defined.

(** The step count can exceed [max_length - current_length]: with a maximum
    length of 10 and a fresh prompt of four tokens, preparation grants 10
    steps, more than 10 - 4. *)
Lemma prepare_batch_steps_exceed_remaining_length :
  exists w' b mi bm,
    prepare_batch (Toy.pipe false 10 Toy.manager)
      [Toy.request_max_length 7 [1; 2; 3; 4] 10] 20 Toy.empty_world
    = (w', Ok (b, mi, 10, bm)) /\
    b = [Toy.request_max_length 7 [1; 2; 3; 4] 10] /\
    ~ (10 <= 10 - current_length (Toy.request_max_length 7 [1; 2; 3; 4] 10)).
Proof.
  do 4 eexists. split_and!; [vm_compute; reflexivity | reflexivity |].
  vm_compute. intros H. by apply H.
Qed.

(** The statuses of a batch of two: the first context samples the
    end-of-sequence token at its third step, the second goes through all
    five steps; each is finalized from its own row of the tokens that the
    loop generated. *)
Lemma next_token_statuses_witness :
  exists w1 b mi n' bm w2 st,
    prepare_batch (Toy.pipe false 10 Toy.manager)
      (snd <$> [("a"%string, Toy.request 0 [1]);
                ("b"%string, Toy.request 8 [1])]) 5 Toy.empty_world
    = (w1, Ok (b, mi, n', bm)) /\
    multistep_loop Toy.unpack_device_tensor (Toy.pipe false 10 Toy.manager)
      (length b)
      (existsb (fun x => negb (x =? 0))
         (log_probabilities
            <$> (snd <$> [("a"%string, Toy.request 0 [1]);
                          ("b"%string, Toy.request 8 [1])])))
      (log_probabilities
         <$> (snd <$> [("a"%string, Toy.request 0 [1]);
                       ("b"%string, Toy.request 8 [1])]))
      (log_probabilities_echo
         <$> (snd <$> [("a"%string, Toy.request 0 [1]);
                       ("b"%string, Toy.request 8 [1])]))
      n' (Z.to_nat n') 0
      (mkLoopState mi (PackedMask <$> bm) (replicate (length b) []) []) w1
    = (w2, Ok st) /\
    forall i rid c0,
      [("a"%string, Toy.request 0 [1]); ("b"%string, Toy.request 8 [1])] !! i
      = Some (rid, c0) ->
      exists c c' resp row,
        b !! i = Some c /\
        [("a"%string,
          mkContext 0 [1; 0; 1; 2] 3 None 0 false None None []);
         ("b"%string,
          mkContext 8 [1; 100; 101; 102; 103; 104] 5 None 0 false None None
            [])] !! i = Some (rid, c') /\
        ({[ "a"%string := mkResponse [(0, None); (1, None); (2, None)]
                            END_OF_SEQUENCE;
            "b"%string := mkResponse [(100, None); (101, None); (102, None);
                                      (103, None); (104, None)] ACTIVE ]}
           : gmap string (@TextGenerationResponse Z)) !! rid = Some resp /\
        generated_tokens st !! i = Some row /\
        finalized (Toy.pipe false 10 Toy.manager) (Some row) n' c c' resp.
Proof.
  eapply (next_token_statuses Toy.unpack_device_tensor
            (Toy.pipe false 10 Toy.manager)
            [("a"%string, Toy.request 0 [1]); ("b"%string, Toy.request 8 [1])]
            5 Toy.empty_world).
  - vm_compute. reflexivity.
  - apply (bool_decide_unpack _). vm_compute. exact I.
Defined.

(** A bitmask without a structured request: with structured output
    enabled, a batch whose only context has no schema and no matcher is
    prepared with an all-ones bitmask, and the sampler is called with the
    mask. *)
Lemma bitmask_allocated_without_structured_request :
  json_schema (Toy.request 7 [1]) = None /\
  matcher (Toy.request 7 [1]) = None /\
  (exists w' b mi n',
     prepare_batch (Toy.pipe true 10 Toy.manager) [Toy.request 7 [1]] 1
       Toy.empty_world
     = (w', Ok (b, mi, n', Some [[-1]]))) /\
  Sample (Some [replicate 32 true])
  ∈ trace (fst (next_token Toy.unpack_device_tensor
                  (Toy.pipe true 10 Toy.manager)
                  [("a"%string, Toy.request 7 [1])] 1 Toy.empty_world)).
Proof.
  split_and!; [done | done | |].
  - do 4 eexists. vm_compute. reflexivity.
  - apply (bool_decide_unpack _). vm_compute. exact I.
Qed.

(** The bitmask of the same batch, with structured output disabled and
    enabled, in a call of two steps: disabled, no sampling is masked;
    enabled, the all-ones bitmask is allocated and the first sampling is
    given its 32 entries, all true. *)
Lemma bitmask_absent_iff_structured_output_disabled_witness :
  (exists evs,
     trace (fst (next_token Toy.unpack_device_tensor
                   (Toy.pipe false 10 Toy.manager)
                   [("a"%string, Toy.request 7 [1])] 2 Toy.empty_world))
     = trace Toy.empty_world ++ evs /\
     Forall (fun e => forall m, e = Sample m -> m = None) evs) /\
  (exists v, vocab_size (Toy.pipe true 10 Toy.manager) = Some v /\
     Some [[-1]]
     = Some (torch_full
               (get_bitmask_shape
                  (length (snd <$> [("a"%string, Toy.request 7 [1])])) v)
               (-1))) /\
  (exists evs,
     trace (fst (next_token Toy.unpack_device_tensor
                   (Toy.pipe true 10 Toy.manager)
                   [("a"%string, Toy.request 7 [1])] 2 Toy.empty_world))
     = trace Toy.empty_world ++ evs /\
     Forall (fun e => forall m, e = Sample m -> is_Some m) evs) /\
  (exists w1 evs masks,
     trace (fst (next_token Toy.unpack_device_tensor
                   (Toy.pipe true 10 Toy.manager)
                   [("a"%string, Toy.request 7 [1])] 2 Toy.empty_world))
     = trace w1 ++ evs /\
     sample_masks evs = Some <$> masks /\
     masks !! 0%nat = Some (unpack_row 32 <$> [[-1]]) /\
     unpack_row 32 <$> [[-1]] = replicate 1 (replicate 32 true)).
Proof.
  destruct (bitmask_absent_iff_structured_output_disabled
              Toy.unpack_device_tensor (Toy.pipe false 10 Toy.manager)
              [("a"%string, Toy.request 7 [1])] 2 Toy.empty_world)
    as (_ & Hdisabled & _).
  destruct (bitmask_absent_iff_structured_output_disabled
              Toy.unpack_device_tensor (Toy.pipe true 10 Toy.manager)
              [("a"%string, Toy.request 7 [1])] 2 Toy.empty_world)
    as (Hprep & _ & Henabled & Hmasks).
  assert (Hplain : forall c : Toy.Ctx,
            c ∈ snd <$> [("a"%string, Toy.request 7 [1])] ->
            json_schema c = None /\ matcher c = None).
  { intros c Hc. apply list_elem_of_In in Hc. simpl in Hc.
    destruct Hc as [<-|[]]. split; reflexivity. }
  eassert (Hrun : prepare_batch (Toy.pipe true 10 Toy.manager)
                    (snd <$> [("a"%string, Toy.request 7 [1])]) 2
                    Toy.empty_world
                  = (_, Ok (_, _, _, _))) by (vm_compute; reflexivity).
  split_and!.
  - apply Hdisabled. reflexivity.
  - apply (proj2 (Hprep _ _ _ _ _ Hrun)); [reflexivity | exact Hplain].
  - apply Henabled. reflexivity.
  - destruct (Hmasks _ _ _ _ _ Hrun eq_refl)
      as (v & rows & evs & masks & Hv & Hrows & Ht & Hs & _ & _ & _ & Hfirst
          & Hall).
    injection Hv as <-. injection Hrows as <-.
    eexists _, evs, masks. split_and!.
    + exact Ht.
    + exact Hs.
    + apply (Hfirst tt); [lia | reflexivity].
    + exact (Hall Hplain).
Defined.

(** The claims of a batch that names the id 7 twice, while the id 8 is
    claimed already with a valid length of 3. *)
Lemma prepare_batch_claims_each_id_once_witness :
  dom (slots (fst (prepare_batch (Toy.pipe false 10 Toy.manager)
                     [Toy.request 7 [1]; Toy.request 8 [2];
                      Toy.request 7 [3]] 5
                     (mkWorld {[ 8 := 3%nat ]} []))))
  = dom ({[ 8 := 3%nat ]} : gmap Z nat)
    ∪ batch_ids [Toy.request 7 [1]; Toy.request 8 [2]; Toy.request 7 [3]] /\
  slots (fst (prepare_batch (Toy.pipe false 10 Toy.manager)
                [Toy.request 7 [1]; Toy.request 8 [2]; Toy.request 7 [3]] 5
                (mkWorld {[ 8 := 3%nat ]} []))) !! 8
  = Some 3%nat /\
  claimed_ids (trace (fst (prepare_batch (Toy.pipe false 10 Toy.manager)
                             [Toy.request 7 [1]; Toy.request 8 [2];
                              Toy.request 7 [3]] 5
                             (mkWorld {[ 8 := 3%nat ]} []))))
  = [7].
Proof.
  eassert (H : prepare_batch (Toy.pipe false 10 Toy.manager)
                 [Toy.request 7 [1]; Toy.request 8 [2]; Toy.request 7 [3]] 5
                 (mkWorld {[ 8 := 3%nat ]} [])
               = (_, Ok (_, _, _, _))) by (vm_compute; reflexivity).
  destruct (prepare_batch_claims_each_id_once _ _ _ _ _ _ _ _ _ H)
    as (_ & Hdom & _ & _ & Hkeep & _).
  split_and!.
  - exact Hdom.
  - apply (Hkeep 8). apply (bool_decide_unpack _). vm_compute. exact I.
  - vm_compute. reflexivity.
Defined.

(** With a cache manager in which two tokens of the prompt are resident,
    the context is bumped by two. *)
Lemma prepare_batch_bump_equals_trim_witness :
  exists pending evs,
    trace (fst (prepare_batch (Toy.pipe false 10 Toy.warm_manager)
                  [Toy.request 7 [1; 2; 3; 4]] 5 Toy.empty_world))
    = trace Toy.empty_world ++ evs ++ [Fetch pending 5] /\
    forall i c, [Toy.request 7 [1; 2; 3; 4]] !! i = Some c ->
      exists c1 c' trimmed (k : nat),
        gathered_context (Toy.pipe false 10 Toy.warm_manager) c = Ok c1 /\
        [mkContext 7 [1; 2; 3; 4] 2 None 0 false None None []] !! i
        = Some c' /\
        pending !! cache_seq_id c = Some (next_tokens c1) /\
        trimmed
        = drop (cached_prefix
                  (kv_manager
                     (_pipeline_model (Toy.pipe false 10 Toy.warm_manager)))
                  (slots (fst (prepare_batch
                                 (Toy.pipe false 10 Toy.warm_manager)
                                 [Toy.request 7 [1; 2; 3; 4]] 5
                                 Toy.empty_world)))
                  (cache_seq_id c) (next_tokens c1)) (next_tokens c1) /\
        length trimmed = (length (next_tokens c1) - k)%nat /\
        (k <= length (next_tokens c1))%nat /\
        active_length c1 = Z.of_nat (length trimmed) + Z.of_nat k /\
        c' = (if decide (k = 0%nat) then c1
              else bump_token_indices (Z.of_nat k) c1) /\
        start_idx c' = (start_idx c1 + k)%nat /\
        next_tokens c' = trimmed.
Proof.
  eapply (prepare_batch_bump_equals_trim (Toy.pipe false 10 Toy.warm_manager)
            [Toy.request 7 [1; 2; 3; 4]] 5 Toy.empty_world).
  - vm_compute. reflexivity.
  - apply (bool_decide_unpack _). vm_compute. exact I.
Defined.

(** A schema that is not refused: a context that has a schema and comes
    with its matcher is prepared without error by a pipeline in which
    structured output is disabled. *)
Lemma schema_with_matcher_prepared_when_disabled :
  json_schema (Toy.request_with_matcher 7 [1]) = Some "{}"%string /\
  enable_structured_output (_pipeline_config (Toy.pipe false 10 Toy.manager))
  = false /\
  0 < num_available_steps (Toy.pipe false 10 Toy.manager)
        (Toy.request_with_matcher 7 [1]) /\
  exists w' b mi n' bm,
    prepare_batch (Toy.pipe false 10 Toy.manager)
      [Toy.request_with_matcher 7 [1]] 1 Toy.empty_world
    = (w', Ok (b, mi, n', bm)).
Proof.
  split_and!; [done | done | done |].
  do 5 eexists. vm_compute. reflexivity.
Qed.

(** The configuration errors of a batch whose second context has no step
    left, and of a batch whose context needs a matcher while structured
    output is disabled. *)
Lemma prepare_batch_configuration_errors_witness :
  (prepare_batch (Toy.pipe false 10 Toy.manager)
     (snd <$> [("a"%string, Toy.request 7 [1]);
               ("b"%string, Toy.request_exhausted 8)]) 5 Toy.empty_world
   = (mkWorld {[ 7 := 0%nat; 8 := 0%nat ]}
        [ExternalClaim [7]; ExternalClaim [8]],
      Raise (ValueError (RequestLengthExceedsMax 8 10 10)))) /\
  (exists e,
     snd (prepare_batch (Toy.pipe false 10 Toy.manager)
            (snd <$> [("a"%string, Toy.request_with_schema 7 [1])]) 5
            Toy.empty_world) = Raise e /\
     exists v, e = ValueError v) /\
  (next_token Toy.unpack_device_tensor (Toy.pipe false 10 Toy.manager)
     [("a"%string, Toy.request 7 [1]); ("b"%string, Toy.request_exhausted 8)]
     5 Toy.empty_world
   = (mkWorld {[ 7 := 0%nat; 8 := 0%nat ]}
        [ExternalClaim [7]; ExternalClaim [8]],
      Raise (ValueError (RequestLengthExceedsMax 8 10 10)))).
Proof.
  assert (Hraise :
    prepare_batch (Toy.pipe false 10 Toy.manager)
      (snd <$> [("a"%string, Toy.request 7 [1]);
                ("b"%string, Toy.request_exhausted 8)]) 5 Toy.empty_world
    = (mkWorld {[ 7 := 0%nat; 8 := 0%nat ]}
         [ExternalClaim [7]; ExternalClaim [8]],
       Raise (ValueError (RequestLengthExceedsMax 8 10 10))))
    by (vm_compute; reflexivity).
  split_and!.
  - exact Hraise.
  - destruct (proj1 (proj2 (prepare_batch_configuration_errors
                Toy.unpack_device_tensor (Toy.pipe false 10 Toy.manager)
                [("a"%string, Toy.request_with_schema 7 [1])] 5
                Toy.empty_world))) as (e & He & Hv).
    + exists (Toy.request_with_schema 7 [1]). split.
      * simpl. apply list_elem_of_here.
      * left. split; [by eexists | reflexivity].
    + exists e. split; [exact He|]. apply Hv.
      * intros He'. discriminate He'.
      * intros _ c Hc. apply list_elem_of_In in Hc. simpl in Hc.
        destruct Hc as [<-|[]]. reflexivity.
  - exact (proj1 (proj2 (proj2 (prepare_batch_configuration_errors
             Toy.unpack_device_tensor (Toy.pipe false 10 Toy.manager)
             [("a"%string, Toy.request 7 [1]);
              ("b"%string, Toy.request_exhausted 8)] 5 Toy.empty_world))
             _ _ Hraise)).
Defined.

(** Log probabilities are not disabled by a failure: the model does not
    implement them, the first call logs the failure, the context still
    requests them afterwards, and the next call attempts the computation
    again at each of its two steps. *)
Lemma log_probabilities_attempted_again_after_failure :
  exists w1 batch1 res1 w2 r2,
    next_token Toy.unpack_device_tensor (Toy.pipe false 10 Toy.manager)
      [("a"%string, Toy.request_log_probs 7 [1])] 1 Toy.empty_world
    = (w1, Ok (batch1, res1)) /\
    count_events is_compute_log_probabilities (trace w1) = 1%nat /\
    Warn UnableToComputeLogProbabilities ∈ trace w1 /\
    log_probabilities <$> (snd <$> batch1) = [1] /\
    next_token Toy.unpack_device_tensor (Toy.pipe false 10 Toy.manager)
      batch1 2 w1 = (w2, r2) /\
    is_ok r2 = true /\
    count_events is_compute_log_probabilities (trace w2) = 3%nat.
Proof.
  do 5 eexists. split_and!.
  - vm_compute. reflexivity.
  - vm_compute. reflexivity.
  - apply (bool_decide_unpack _). vm_compute. exact I.
  - vm_compute. reflexivity.
  - vm_compute. reflexivity.
  - reflexivity.
  - vm_compute. reflexivity.
Qed.

(** A schema that the grammar engine cannot compile, with structured output
    enabled. *)
Lemma degradations_are_caught_witness :
  exists evs,
    initialize_matcher (Toy.pipe true 10 Toy.manager)
      (Toy.request_with_schema 7 [1]) Toy.empty_world
    = (mkWorld (slots Toy.empty_world)
         (trace Toy.empty_world ++ evs
          ++ [Warn (SchemaCannotBeCompiled "{}"%string)]),
       Ok (set_json_schema None (Toy.request_with_schema 7 [1]))) /\
    (evs = [] \/ evs = [CompileJsonSchema "{}"%string]) /\
    matcher (set_json_schema None (Toy.request_with_schema 7 [1])) = None /\
    forall w1,
      initialize_matcher (Toy.pipe true 10 Toy.manager)
        (set_json_schema None (Toy.request_with_schema 7 [1])) w1
      = (w1, Ok (set_json_schema None (Toy.request_with_schema 7 [1]))).
Proof.
  apply (proj1 (degradations_are_caught Toy.unpack_device_tensor
                  (Toy.pipe true 10 Toy.manager))).
  - reflexivity.
  - reflexivity.
  - intros compile Hc. injection Hc as <-. reflexivity.
Defined.

(** The copy to the host in a call of three steps. *)
Lemma next_token_single_host_copy_witness :
  exists before after,
    trace (fst (next_token Toy.unpack_device_tensor
                  (Toy.pipe false 10 Toy.manager)
                  [("a"%string, Toy.request 7 [1])] 3 Toy.empty_world))
    = trace Toy.empty_world ++ before ++ after /\
    count_events is_to_numpy before = 0%nat /\
    (after = [] \/ after = [ToNumpy] \/ exists d, after = [ToNumpy; Step d]) /\
    forall res,
      snd (next_token Toy.unpack_device_tensor
             (Toy.pipe false 10 Toy.manager)
             [("a"%string, Toy.request 7 [1])] 3 Toy.empty_world) = Ok res ->
      exists w1 b mi n' bm d,
        prepare_batch (Toy.pipe false 10 Toy.manager)
          (snd <$> [("a"%string, Toy.request 7 [1])]) 3 Toy.empty_world
        = (w1, Ok (b, mi, n', bm)) /\
        after = [ToNumpy; Step d] /\
        count_events is_execute before = Z.to_nat n' /\
        count_events is_sample before = Z.to_nat n' /\
        count_events is_to_numpy (before ++ after) = 1%nat.
Proof.
  eapply (next_token_single_host_copy Toy.unpack_device_tensor
            (Toy.pipe false 10 Toy.manager)
            [("a"%string, Toy.request 7 [1])] 3 Toy.empty_world).
  vm_compute. reflexivity.
Defined.

(** The slot of a context that reaches the end of sequence stays claimed. *)
Lemma next_token_releases_no_slot_witness :
  (exists evs,
     trace (fst (next_token Toy.unpack_device_tensor
                   (Toy.pipe false 10 Toy.manager)
                   [("a"%string, Toy.request 0 [1])] 5 Toy.empty_world))
     = trace Toy.empty_world ++ evs /\
     count_events is_release evs = 0%nat) /\
  match snd (next_token Toy.unpack_device_tensor
               (Toy.pipe false 10 Toy.manager)
               [("a"%string, Toy.request 0 [1])] 5 Toy.empty_world) with
  | Ok res => final_status <$> snd res !! "a"%string
  | Raise _ => None
  end = Some END_OF_SEQUENCE /\
  cache_seq_id (Toy.request 0 [1])
  ∈ dom (slots (fst (next_token Toy.unpack_device_tensor
                       (Toy.pipe false 10 Toy.manager)
                       [("a"%string, Toy.request 0 [1])] 5
                       Toy.empty_world))).
Proof.
  eassert (H : next_token Toy.unpack_device_tensor
                 (Toy.pipe false 10 Toy.manager)
                 [("a"%string, Toy.request 0 [1])] 5 Toy.empty_world
               = (_, Ok _)) by (vm_compute; reflexivity).
  destruct (next_token_releases_no_slot _ _ _ _ _ _ _ H)
    as (Hev & _ & Hclaimed & _).
  split_and!.
  - exact Hev.
  - vm_compute. reflexivity.
  - apply (Hclaimed _ eq_refl). simpl. apply list_elem_of_here.
Defined.

(** The configuration says 5, the constructor is given 2. *)
Lemma init_eos_token_id_from_config_witness :
  exists p w',
    __init__ (Toy.config false) (Some (HFInt 5)) 2 Toy.tokenizer32 Toy.no_grammar
      (Toy.model 10 Toy.manager) Toy.sampler Toy.empty_world
    = (w', Ok p) /\
    _eos_token_id p = {[ 5 ]} /\ ~ (2 ∈ _eos_token_id p) /\
    trace w'
    = trace Toy.empty_world ++ [Warn (EosConfigMismatchUsingProvided 5 2)].
Proof.
  eassert (H : __init__ (Toy.config false) (Some (HFInt 5)) 2 Toy.tokenizer32
                 Toy.no_grammar (Toy.model 10 Toy.manager) Toy.sampler
                 Toy.empty_world = (_, Ok _)) by (vm_compute; reflexivity).
  eexists _, _. split; [exact H|].
  apply (proj1 (init_eos_token_id_from_config _ _ _ _ _ _ _ _ _ _ H) 5).
  - reflexivity.
  - intros Heq. discriminate Heq.
Defined.

(** * The further properties on small cases *)

















